(** * ralph-tui: execution orchestrator, verified fragments

    A shallow embedding of the parts of ralph-tui that the specification's
    testable properties talk about, and the proofs (or refutations) of those
    properties:

    - [src/parallel/ai-resolver.ts]          fast-path conflict resolution
    - [src/plugins/trackers/task-ordering.ts] dotted-child ordering
    - [src/plugins/agents/base.test.ts]       the flag-merge contract
    - [src/session-worktree.ts]               session worktree management
    - [src/sandbox/wrapper.ts]                sandboxed command lines
    - [src/commands/resume.ts]                resume (known through its tests)

    Conventions.  A JavaScript string is a [string]: one [ascii] per UTF-16
    code unit, which covers the code units below 256.  JavaScript numbers that
    hold integers are [Z].  A value that may be [null]/[undefined] is an
    [option].  A function that can throw returns a [Result]. *)

From Stdlib Require Import ZArith Lia String Ascii List Bool Sorted Permutation.
From Stdlib Require Import DecimalString.
From stdpp Require Import base list strings gmap.
Import ListNotations.

Local Open Scope Z_scope.

(** ** JavaScript string primitives *)

Module JsString.

(** [WhiteSpace] and [LineTerminator] code units below 256:
    TAB, LF, VT, FF, CR, SP and NBSP. *)
Definition isWhiteSpace (c : ascii) : bool :=
  let n := nat_of_ascii c in
  ((9 <=? n)%nat && (n <=? 13)%nat) || (n =? 32)%nat || (n =? 160)%nat.

(** [\n], [\r]: the line terminators that [.] of a regular expression
    refuses. *)
Definition isLineTerminator (c : ascii) : bool :=
  let n := nat_of_ascii c in (n =? 10)%nat || (n =? 13)%nat.

Definition isDigit (c : ascii) : bool :=
  let n := nat_of_ascii c in (48 <=? n)%nat && (n <=? 57)%nat.

Definition isAlpha (c : ascii) : bool :=
  let n := nat_of_ascii c in
  ((65 <=? n)%nat && (n <=? 90)%nat) || ((97 <=? n)%nat && (n <=? 122)%nat).

(** [\w] *)
Definition isWordChar (c : ascii) : bool :=
  isAlpha c || isDigit c || (nat_of_ascii c =? 95)%nat.

Fixpoint all (p : ascii -> bool) (s : string) : bool :=
  match s with
  | EmptyString => true
  | String c s' => p c && all p s'
  end.

Fixpoint trimStart (s : string) : string :=
  match s with
  | EmptyString => EmptyString
  | String c s' => if isWhiteSpace c then trimStart s' else s
  end.

Fixpoint trimEnd (s : string) : string :=
  match s with
  | EmptyString => EmptyString
  | String c s' =>
      match trimEnd s' with
      | EmptyString => if isWhiteSpace c then EmptyString else String c EmptyString
      | t => String c t
      end
  end.

(** [String.prototype.trim] *)
Definition trim (s : string) : string := trimEnd (trimStart s).

(** [s.startsWith(p)]; on success the rest of [s] *)
Fixpoint stripPrefix (p s : string) : option string :=
  match p, s with
  | EmptyString, _ => Some s
  | String a p', String b s' => if Ascii.eqb a b then stripPrefix p' s' else None
  | String _ _, EmptyString => None
  end.

Definition startsWith (s p : string) : bool :=
  match stripPrefix p s with Some _ => true | None => false end.

(** [s.endsWith(p)]; on success [s] without that suffix *)
Fixpoint stripSuffix (p s : string) : option string :=
  match s with
  | EmptyString => if String.eqb p EmptyString then Some EmptyString else None
  | String c s' =>
      if String.eqb p s then Some EmptyString
      else match stripSuffix p s' with
           | Some r => Some (String c r)
           | None => None
           end
  end.

Definition endsWith (s p : string) : bool :=
  match stripSuffix p s with Some _ => true | None => false end.

(** [s.slice(n)] and [s.slice(0, n)] for [0 <= n] *)
Fixpoint sliceFrom (n : nat) (s : string) : string :=
  match n, s with
  | O, _ => s
  | S n', String _ s' => sliceFrom n' s'
  | S _, EmptyString => EmptyString
  end.

Fixpoint sliceTo (n : nat) (s : string) : string :=
  match n, s with
  | O, _ => EmptyString
  | S n', String c s' => String c (sliceTo n' s')
  | S _, EmptyString => EmptyString
  end.

(** [s.split(sep)] for a one-character separator: never an empty list *)
Fixpoint split (sep : ascii) (s : string) : list string :=
  match s with
  | EmptyString => [EmptyString]
  | String c s' =>
      if Ascii.eqb c sep then EmptyString :: split sep s'
      else match split sep s' with
           | w :: ws => String c w :: ws
           | [] => [String c EmptyString]
           end
  end.

(** [parts.join(sep)] *)
Fixpoint join (sep : string) (parts : list string) : string :=
  match parts with
  | [] => EmptyString
  | [p] => p
  | p :: ps => p +:+ sep +:+ join sep ps
  end.

(** [s.replace(/[^...]/g, r)] for a character class given as a predicate:
    every code unit outside [keep] becomes [r] *)
Fixpoint replaceOutside (keep : ascii -> bool) (r : ascii) (s : string) : string :=
  match s with
  | EmptyString => EmptyString
  | String c s' => String (if keep c then c else r) (replaceOutside keep r s')
  end.

(** [s.replace(/c+/g, c)]: runs of [c] collapse to one *)
Fixpoint collapseRuns (c : ascii) (s : string) : string :=
  match s with
  | EmptyString => EmptyString
  | String a s' =>
      match s' with
      | String b _ =>
          if Ascii.eqb a c && Ascii.eqb b c then collapseRuns c s'
          else String a (collapseRuns c s')
      | EmptyString => String a EmptyString
      end
  end.

(** Index of the last occurrence of [c], as the pair (before, from [c] on) *)
Fixpoint splitLast (c : ascii) (s : string) : option (string * string) :=
  match s with
  | EmptyString => None
  | String a s' =>
      match splitLast c s' with
      | Some (p, d) => Some (String a p, d)
      | None => if Ascii.eqb a c then Some (EmptyString, s') else None
      end
  end.

(** [s.includes(p)] *)
Fixpoint includes (s p : string) : bool :=
  startsWith s p
  || match s with
     | EmptyString => false
     | String _ s' => includes s' p
     end.

(** [s.toLowerCase()] on the code units below 256 *)
Definition lowerChar (c : ascii) : ascii :=
  let n := nat_of_ascii c in
  if ((65 <=? n)%nat && (n <=? 90)%nat)
     || ((192 <=? n)%nat && (n <=? 222)%nat && negb (n =? 215)%nat)
  then ascii_of_nat (n + 32) else c.

Fixpoint toLowerCase (s : string) : string :=
  match s with
  | EmptyString => EmptyString
  | String c s' => String (lowerChar c) (toLowerCase s')
  end.

(** [s.replace(c, '')] for a one-character pattern: the first occurrence *)
Fixpoint removeFirst (c : ascii) (s : string) : string :=
  match s with
  | EmptyString => EmptyString
  | String a s' => if Ascii.eqb a c then s' else String a (removeFirst c s')
  end.

(** [s.split(/\s+/)]: the pieces between the runs of white space; empty
    pieces arise only at the two ends *)
Fixpoint splitWhiteSpaceFrom (inRun : bool) (s : string) : list string :=
  match s with
  | EmptyString => [EmptyString]
  | String c s' =>
      if isWhiteSpace c then
        if inRun then splitWhiteSpaceFrom true s'
        else EmptyString :: splitWhiteSpaceFrom true s'
      else
        match splitWhiteSpaceFrom false s' with
        | w :: ws => String c w :: ws
        | [] => [String c EmptyString]
        end
  end.

Definition splitWhiteSpace (s : string) : list string :=
  splitWhiteSpaceFrom false s.

Fixpoint takeDigits (s : string) : string :=
  match s with
  | String c s' => if isDigit c then String c (takeDigits s') else EmptyString
  | EmptyString => EmptyString
  end.

(** The decimal value of a string of digits *)
Fixpoint decimalValue (acc : Z) (digits : string) : Z :=
  match digits with
  | EmptyString => acc
  | String c rest =>
      decimalValue (10 * acc + (Z.of_nat (nat_of_ascii c) - 48)) rest
  end.

(** [Number.parseInt(s, 10)]: white space, a sign, digits; [None] is [NaN] *)
Definition parseInt (s : string) : option Z :=
  let s := trimStart s in
  let '(negative, rest) :=
    match s with
    | String c s' =>
        if Ascii.eqb c "-"%char then (true, s')
        else if Ascii.eqb c "+"%char then (false, s')
        else (false, s)
    | EmptyString => (false, s)
    end in
  match takeDigits rest with
  | EmptyString => None
  | digits =>
      let n := decimalValue 0 digits in
      Some (if negative then - n else n)
  end.

(** A number that holds an integer, in a template string *)
Definition ofZ (n : Z) : string :=
  DecimalString.NilZero.string_of_int (Z.to_int n).

(** JavaScript truthiness of a string *)
Definition truthy (s : string) : bool :=
  match s with EmptyString => false | _ => true end.

End JsString.

(** A computation that either returns or throws. *)
Inductive Result (A : Type) : Type :=
| Ok (a : A)
| Throw (message : string).
Global Arguments Ok {A} a.
Global Arguments Throw {A} message.

(** ** src/parallel/ai-resolver.ts *)

Module AiResolver.
Import JsString.

(** [FileConflict] of src/parallel/types.ts, as the test file builds it. *)
Record FileConflict := {
  filePath : string;
  oursContent : string;
  theirsContent : string;
  baseContent : string;
  conflictMarkers : string;
}.

(** [tryFastPathResolution]: [None] is JavaScript's [null]. *)
Definition tryFastPathResolution (conflict : FileConflict) : option string :=
  let oursEmpty := String.eqb (trim (oursContent conflict)) "" in
  let theirsEmpty := String.eqb (trim (theirsContent conflict)) "" in
  (* One side is empty: take the non-empty side *)
  if oursEmpty && negb theirsEmpty then Some (theirsContent conflict)
  else if negb oursEmpty && theirsEmpty then Some (oursContent conflict)
  (* Both sides identical: either works *)
  else if String.eqb (oursContent conflict) (theirsContent conflict)
       then Some (oursContent conflict)
  (* Need AI for complex cases *)
  else None.

Definition nl : string := String "010"%char "".
Definition dquote : string := String "034"%char "".
Definition fence : string := "```".

(** The fence pattern of [extractResolvedContent]: an opening fence of
    three backquotes, any word characters (the language tag), a line feed,
    the captured group, a line feed and the closing fence at the end of the
    input.  The tag is greedy and must be followed by a line feed, so it
    takes every word character after the opening fence; the group is what
    lies between that line feed and the final line feed plus fence. *)
Fixpoint dropWordChars (s : string) : string :=
  match s with
  | String c s' => if isWordChar c then dropWordChars s' else s
  | EmptyString => EmptyString
  end.

Definition fenceMatch (content : string) : option string :=
  match stripPrefix fence content with
  | None => None
  | Some rest =>
      match dropWordChars rest with
      | String c body =>
          if Ascii.eqb c "010"%char
          then stripSuffix (nl +:+ fence) body
          else None
      | EmptyString => None
      end
  end.

(** [extractResolvedContent] *)
Definition extractResolvedContent (stdout : string) : option string :=
  let content := trim stdout in
  (* Strip markdown code fences if present *)
  let content :=
    match fenceMatch content with
    | Some inner => inner
    | None => content
    end in
  (* Validate we got something *)
  if (String.length content =? 0)%nat then None else Some content.

(** What the agent's execution handle resolves to; [exitCode] is optional
    in [AgentExecutionResult]. *)
Inductive AgentStatus := completed | failed | timeout | interrupted.

Record AgentExecutionResult := {
  status : AgentStatus;
  exitCode : option Z;
  stdout : string;
}.

Definition isCompleted (s : AgentStatus) : bool :=
  match s with completed => true | _ => false end.

(** [buildConflictPrompt]; [baseContent || '(file did not exist)'] *)
Definition buildConflictPrompt (conflict : FileConflict)
    (taskId taskTitle : string) : string :=
  join nl [
    "You are resolving a git merge conflict. Output ONLY the resolved file content.";
    "";
    "## Context";
    "File: " +:+ filePath conflict;
    "Task: " +:+ taskTitle +:+ " (" +:+ taskId +:+ ")";
    "";
    "## Base Version (common ancestor)";
    fence;
    (if truthy (baseContent conflict) then baseContent conflict
     else "(file did not exist)");
    fence;
    "";
    "## Main Branch (ours)";
    fence;
    oursContent conflict;
    fence;
    "";
    "## Worker Branch (theirs - implementing the task)";
    fence;
    theirsContent conflict;
    fence;
    "";
    "## Instructions";
    "1. Merge intelligently - keep changes from both branches where they don't conflict";
    "2. The worker was implementing " +:+ dquote +:+ taskTitle +:+ dquote +:+
      " - preserve their functional changes";
    "3. Keep main branch updates (formatting, unrelated fixes) where possible";
    "4. If in doubt, prefer the worker's changes since they implement the requested task";
    "";
    "OUTPUT ONLY THE RESOLVED FILE CONTENT. No explanation, no markdown code fences."
  ].

(** The callback that [createAiResolver] returns.  The agent is an input:
    [agentRun prompt] is the result its promise resolves to, or [None]
    when looking the agent up or running it throws.  The second component
    tells whether the agent was asked. *)
Definition createAiResolver
    (agentRun : string -> option AgentExecutionResult)
    (conflict : FileConflict) (taskId taskTitle : string)
    : option string * bool :=
  (* Fast-path: trivial cases before spawning agent *)
  match tryFastPathResolution conflict with
  | Some fastResult => (Some fastResult, false)
  | None =>
      match agentRun (buildConflictPrompt conflict taskId taskTitle) with
      | None => (None, true)
      | Some result =>
          if negb (isCompleted (status result))
             || negb (bool_decide (exitCode result = Some 0))
          then (None, true)
          else (extractResolvedContent (stdout result), true)
      end
  end.

(** A string made of white space only: it trims to the empty string. *)
Definition blank (s : string) : Prop := trim s = "".

(** The conflict record of the unit tests. *)
Definition conflictOf (ours theirs : string) : FileConflict :=
  {| filePath := "test.ts"; oursContent := ours; theirsContent := theirs;
     baseContent := ""; conflictMarkers := "" |}.

End AiResolver.

(** ** src/commands/resume.ts

    The module itself is not part of the sources at hand; its test file
    is. *)

Module Resume.
Import JsString.

(** Modelled from the spec: [shouldWarnAboutTrackerMismatch] of
    src/commands/resume.ts is missing.  Section 4.8: "if
    engineTaskCount==0 && sessionKnownTaskCount>0 -> emit the mismatch
    warning". *)
Definition shouldWarnAboutTrackerMismatch
    (engineTaskCount sessionKnownTaskCount : Z) : bool :=
  (engineTaskCount =? 0) && (0 <? sessionKnownTaskCount).

End Resume.

(** ** The flag-merge contract of [BaseAgentPlugin.execute]

    [BaseAgentPlugin] itself is not among the sources; its test file holds
    [FlagOrderTestPlugin], whose [execute] "replicates the exact flag-merge
    logic from BaseAgentPlugin.execute()":
    [allArgs = [...defaultFlags, ...buildArgs(), ...(options.flags ?? [])]]. *)

Module AgentFlags.
Import JsString.

(** [AgentExecuteOptions], the fields the plugin reads. *)
Record AgentExecuteOptions := {
  flags : option (list string);
  optCwd : option string;
  optTimeout : option Z;
}.

(** [FlagOrderTestPlugin]: [defaultFlags] is set by [initialize] from the
    plugin configuration, the other two by [setModel] and
    [setScriptPath]. *)
Record FlagOrderTestPlugin := {
  defaultFlags : list string;
  modelFromBuildArgs : option string;
  scriptPathForTest : option string;
}.

(** [meta.defaultCommand] *)
Definition defaultCommand : string := "echo".

Definition initialize (configDefaultFlags : list string) : FlagOrderTestPlugin :=
  {| defaultFlags := configDefaultFlags;
     modelFromBuildArgs := None;
     scriptPathForTest := None |}.

Definition setScriptPath (path : string) (p : FlagOrderTestPlugin) :=
  {| defaultFlags := defaultFlags p;
     modelFromBuildArgs := modelFromBuildArgs p;
     scriptPathForTest := Some path |}.

Definition setModel (model : string) (p : FlagOrderTestPlugin) :=
  {| defaultFlags := defaultFlags p;
     modelFromBuildArgs := Some model;
     scriptPathForTest := scriptPathForTest p |}.

(** [buildArgs]: [--model m] when [modelFromBuildArgs] is truthy. *)
Definition buildArgs (p : FlagOrderTestPlugin) : list string :=
  match modelFromBuildArgs p with
  | Some m => if truthy m then ["--model"; m] else []
  | None => []
  end.

(** [options?.flags ?? []] *)
Definition engineFlags (options : option AgentExecuteOptions) : list string :=
  match options with
  | Some o => match flags o with Some fl => fl | None => [] end
  | None => []
  end.

(** [allArgs] of [execute]: engine-injected flags come last. *)
Definition allArgs (p : FlagOrderTestPlugin)
    (options : option AgentExecuteOptions) : list string :=
  defaultFlags p ++ buildArgs p ++ engineFlags options.

(** The argument vector handed to [Bun.spawn]: [[command, ...allArgs]]. *)
Definition command (p : FlagOrderTestPlugin) : string :=
  match scriptPathForTest p with
  | Some path => path
  | None => defaultCommand
  end.

Definition execute (p : FlagOrderTestPlugin)
    (options : option AgentExecuteOptions) : list string :=
  command p :: allArgs p options.

(** The test script prints each positional argument on its own line, and
    [parseArgs] reads them back. *)
Definition printArgs (argv : list string) : string :=
  fold_right (fun a out => a +:+ String "010"%char out) "" argv.

Definition parseArgs (stdout : string) : list string :=
  filter (fun line => String.length line ≠ 0%nat) (split "010"%char stdout).

(** [args.indexOf(x)] and [args.lastIndexOf(x)]; [None] is -1. *)
Fixpoint indexOf (x : string) (args : list string) : option nat :=
  match args with
  | [] => None
  | a :: rest =>
      if String.eqb a x then Some 0%nat
      else match indexOf x rest with
           | Some i => Some (S i)
           | None => None
           end
  end.

Fixpoint lastIndexOf (x : string) (args : list string) : option nat :=
  match args with
  | [] => None
  | a :: rest =>
      match lastIndexOf x rest with
      | Some i => Some (S i)
      | None => if String.eqb a x then Some 0%nat else None
      end
  end.

(** How a "last flag wins" command line reads a flag that takes a value:
    the argument that follows the last occurrence of the flag. *)
Fixpoint lastFlagValue (flag : string) (args : list string) : option string :=
  match args with
  | [] => None
  | a :: rest =>
      match lastFlagValue flag rest with
      | Some v => Some v
      | None => if String.eqb a flag then head rest else None
      end
  end.

Definition withFlags (fl : list string) : option AgentExecuteOptions :=
  Some {| flags := Some fl; optCwd := None; optTimeout := Some 10000 |}.

Definition withoutFlags : option AgentExecuteOptions :=
  Some {| flags := None; optCwd := None; optTimeout := Some 10000 |}.

End AgentFlags.

(** ** src/plugins/trackers/task-ordering.ts *)

Module TaskOrdering.
Import JsString.

(** [interface TaskWithId { id: string }] *)
Class TaskWithId (T : Type) := id : T -> string.

(** [ParsedChildId]; [issueNumber] is a finite double that holds a
    non-negative integer. *)
Record ParsedChildId := {
  rawId : string;
  prefix : string;
  issueNumber : Z;
}.

(** The double nearest to a non-negative integer, ties to even; [None] is
    [Infinity].  Below 2^53 every integer is a double; above, a double keeps
    the 53 leading bits. *)
Definition roundToDouble (n : Z) : option Z :=
  if n <? 2 ^ 53 then Some n
  else
    let e := Z.log2 n - 52 in
    let q := Z.shiftr n e in
    let r := n - Z.shiftl q e in
    let half := 2 ^ (e - 1) in
    let q' := if (half <? r) || ((r =? half) && Z.odd q) then q + 1 else q in
    let v := Z.shiftl q' e in
    if 2 ^ 1024 <=? v then None else Some v.

(** [Number(s)] for a string of decimal digits, when it is finite. *)
Definition toNumber (digits : string) : option Z :=
  roundToDouble (decimalValue 0 digits).

(** [CHILD_TASK_ID_PATTERN], a prefix, a dot and one or more digits up to the
    end of the id: the groups of its match.  The prefix is greedy, so the dot
    is the last one of the id, and it cannot hold a line terminator. *)
Definition matchChildTaskIdPattern (taskId : string) : option (string * string) :=
  match splitLast "."%char taskId with
  | Some (pre, digits) =>
      if all (fun c => negb (isLineTerminator c)) pre
         && truthy digits && all isDigit digits
      then Some (pre, digits)
      else None
  | None => None
  end.

(** [parseChildTaskId] *)
Definition parseChildTaskId (taskId : string) : option ParsedChildId :=
  match matchChildTaskIdPattern taskId with
  | None => None
  | Some (pre, issueNumberString) =>
      match toNumber issueNumberString with
      | None => None (* not finite *)
      | Some n => Some {| rawId := taskId; prefix := pre; issueNumber := n |}
      end
  end.

(** Following the specification: an id of the form [<prefix>.<number>], that
    is a prefix, a dot and one or more decimal digits.  The digits hold no
    dot, so the prefix is what stands before the last dot of the id. *)
Definition isDottedId (taskId pre digits : string) : Prop :=
  taskId = pre +:+ String "."%char digits
  /\ digits <> EmptyString
  /\ all isDigit digits = true.

(** The prefix is on one line. *)
Definition onOneLine (pre : string) : bool :=
  all (fun c => negb (isLineTerminator c)) pre.

(** ** The run-time library

    [String.prototype.localeCompare] with [{numeric: true, sensitivity:
    'base'}] is the collation of the host; it is a parameter of the
    functions below.  [Array.prototype.sort] is stable and sorts by the sign
    of the comparator: for a comparator that is a total preorder its result
    is the one that insertion from the right computes. *)

Section WithCollation.
Variable localeCompare : string -> string -> Z.

(** [compareParsedChildIds] *)
Definition compareParsedChildIds (a b : ParsedChildId) : Z :=
  let prefixComparison := localeCompare (prefix a) (prefix b) in
  if negb (prefixComparison =? 0) then prefixComparison
  else if negb (issueNumber a =? issueNumber b)
       then issueNumber a - issueNumber b
       else localeCompare (rawId a) (rawId b).

Section ArraySort.
Context {A : Type} (compareFn : A -> A -> Z).

Fixpoint sortInsert (x : A) (sorted : list A) : list A :=
  match sorted with
  | [] => [x]
  | y :: rest =>
      if compareFn x y <=? 0 then x :: y :: rest
      else y :: sortInsert x rest
  end.

(** [array.sort(compareFn)] *)
Fixpoint arraySort (array : list A) : list A :=
  match array with
  | [] => []
  | x :: rest => sortInsert x (arraySort rest)
  end.

(** [a] may stand before [b] in the sorted array. *)
Definition notAfter (a b : A) : Prop := compareFn a b <= 0.

End ArraySort.

Section WithTasks.
Context {T : Type} `{TaskWithId T}.

(** An element of [childEntries] *)
Record ChildEntry := {
  index : nat;
  task : T;
  parsed : ParsedChildId;
}.

(** The first loop of [sortDottedChildTaskIds], from position [index] on. *)
Fixpoint collectChildEntries (index : nat) (tasks : list T) : list ChildEntry :=
  match tasks with
  | [] => []
  | task :: rest =>
      match parseChildTaskId (id task) with
      | Some parsed =>
          {| index := index; task := task; parsed := parsed |}
            :: collectChildEntries (S index) rest
      | None => collectChildEntries (S index) rest
      end
  end.

(** [sortDottedChildTaskIds] *)
Definition sortDottedChildTaskIds (tasks : list T) : list T :=
  if (length tasks <? 2)%nat then tasks
  else
    let childEntries := collectChildEntries 0 tasks in
    if (length childEntries <? 2)%nat then tasks
    else
      let sortedChildren :=
        map task
          (arraySort (fun a b => compareParsedChildIds (parsed a) (parsed b))
             childEntries) in
      (* const result = tasks.slice(); result[originalEntry.index] = sortedTask *)
      fold_left
        (fun result '(originalEntry, sortedTask) =>
           <[index originalEntry := sortedTask]> result)
        (zip childEntries sortedChildren)
        tasks.

(** An entry holds the parse of its own task. *)
Definition wellParsed (e : ChildEntry) : Prop :=
  parseChildTaskId (id (task e)) = Some (parsed e).

(** A task whose id is a dotted child id. *)
Definition isChildTask (task : T) : bool :=
  match parseChildTaskId (id task) with Some _ => true | None => false end.

(** The dotted tasks of a list, in order. *)
Definition childTasks (tasks : list T) : list T :=
  List.filter isChildTask tasks.

(** [tasks] with its dotted positions filled, in order, from [children]. *)
Fixpoint refill (tasks children : list T) : list T :=
  match tasks with
  | [] => []
  | task :: rest =>
      if isChildTask task then
        match children with
        | child :: children' => child :: refill rest children'
        | [] => task :: refill rest []
        end
      else task :: refill rest children
  end.

End WithTasks.
End WithCollation.

(** A collation to run the definitions with: code-unit order. *)
Definition codeUnitCompare (a b : string) : Z :=
  match String.compare a b with
  | Lt => -1
  | Eq => 0
  | Gt => 1
  end.

(** Tasks that are just their id. *)
Global Instance string_task : TaskWithId string := fun s => s.

End TaskOrdering.

(** ** node:path, POSIX flavour

    The functions of Node's [path] module that the worktree code calls, on
    the segments of a path.  [processCwd] stands for [process.cwd()], which
    [path.resolve] falls back on when no argument is absolute. *)

Module path.
Import JsString.

Definition isAbsolute (p : string) : bool :=
  match p with
  | String c _ => Ascii.eqb c "/"%char
  | EmptyString => false
  end.

(** One segment of [normalizeString]: empty segments and [.] are dropped,
    [..] removes the segment before it, or is kept where there is none and
    [allowAboveRoot] is set.  The stack is the result so far, last segment
    first. *)
Definition normalizeStep (allowAboveRoot : bool) (stack : list string)
    (segment : string) : list string :=
  if String.eqb segment "" || String.eqb segment "." then stack
  else if String.eqb segment ".." then
    match stack with
    | top :: below =>
        if String.eqb top ".."
        then (if allowAboveRoot then ".." :: stack else stack)
        else below
    | [] => if allowAboveRoot then [".."] else []
    end
  else segment :: stack.

Definition normalizeSegments (allowAboveRoot : bool) (segments : list string)
    : list string :=
  rev (fold_left (normalizeStep allowAboveRoot) segments []).

Definition normalizeString (p : string) (allowAboveRoot : bool) : string :=
  JsString.join "/" (normalizeSegments allowAboveRoot (split "/"%char p)).

(** [path.normalize] *)
Definition normalize (p : string) : string :=
  if String.eqb p "" then "."
  else
    let isAbs := isAbsolute p in
    let trailingSeparator := endsWith p "/" in
    let normalized := normalizeString p (negb isAbs) in
    if String.eqb normalized "" then
      if isAbs then "/" else if trailingSeparator then "./" else "."
    else
      let normalized :=
        if trailingSeparator then normalized +:+ "/" else normalized in
      if isAbs then "/" +:+ normalized else normalized.

(** [path.join(...args)] *)
Definition join (args : list string) : string :=
  match List.filter truthy args with
  | [] => "."
  | parts => normalize (JsString.join "/" parts)
  end.

(** The loop of [path.resolve], from the last argument to the first. *)
Fixpoint resolveLoop (reversedArgs : list string) (resolvedPath : string)
    : string * bool :=
  match reversedArgs with
  | [] => (resolvedPath, false)
  | p :: rest =>
      if String.eqb p "" then resolveLoop rest resolvedPath
      else
        let resolvedPath := p +:+ "/" +:+ resolvedPath in
        if isAbsolute p then (resolvedPath, true)
        else resolveLoop rest resolvedPath
  end.

(** [path.resolve(...args)] *)
Definition resolve (processCwd : string) (args : list string) : string :=
  let '(resolvedPath, resolvedAbsolute) :=
    resolveLoop (rev args ++ [processCwd]) "" in
  let resolvedPath := normalizeString resolvedPath (negb resolvedAbsolute) in
  if resolvedAbsolute then "/" +:+ resolvedPath
  else if truthy resolvedPath then resolvedPath else ".".

(** The segments of a resolved path: none for the root. *)
Definition segmentsOf (resolved : string) : list string :=
  List.filter truthy (split "/"%char resolved).

(** The segments a path resolves to; the file system is addressed by
    them. *)
Definition segments (processCwd p : string) : list string :=
  segmentsOf (resolve processCwd [p]).

Fixpoint dropCommonPrefix (from to : list string) : list string * list string :=
  match from, to with
  | f :: from', t :: to' =>
      if String.eqb f t then dropCommonPrefix from' to' else (from, to)
  | _, _ => (from, to)
  end.

(** [path.relative(from, to)]: one [..] for each segment of [from] below the
    common ancestor, then the segments of [to] below it. *)
Definition relative (processCwd from to : string) : string :=
  if String.eqb from to then ""
  else
    let from := resolve processCwd [from] in
    let to := resolve processCwd [to] in
    if String.eqb from to then ""
    else
      let '(fromRest, toRest) :=
        dropCommonPrefix (segmentsOf from) (segmentsOf to) in
      JsString.join "/" (map (fun _ => "..") fromRest ++ toRest).

Definition isSlash (c : ascii) : bool := Ascii.eqb c "/"%char.

Fixpoint hasNonSlash (s : string) : bool :=
  match s with
  | EmptyString => false
  | String c s' => negb (isSlash c) || hasNonSlash s'
  end.

(** The last slash that some other character follows: what is before it and
    what is after it.  The loops of [dirname], [basename] and [extname] run
    from the right, skip the trailing slashes and stop at that slash. *)
Fixpoint splitAtLastSlash (s : string) : option (string * string) :=
  match s with
  | EmptyString => None
  | String c s' =>
      match splitAtLastSlash s' with
      | Some (before, after) => Some (String c before, after)
      | None =>
          if isSlash c && hasNonSlash s' then Some (EmptyString, s') else None
      end
  end.

Fixpoint dropTrailingSlashes (s : string) : string :=
  match s with
  | EmptyString => EmptyString
  | String c s' =>
      match dropTrailingSlashes s' with
      | EmptyString => if isSlash c then EmptyString else String c EmptyString
      | t => String c t
      end
  end.

(** [path.dirname]: its loop never looks at the first character. *)
Definition dirname (p : string) : string :=
  match p with
  | EmptyString => "."
  | String first rest =>
      let hasRoot := isSlash first in
      match splitAtLastSlash rest with
      | Some (before, _) =>
          if hasRoot && String.eqb before "" then "//"
          else String first before
      | None => if hasRoot then "/" else "."
      end
  end.

(** The last segment of a path, trailing slashes aside. *)
Definition lastSegment (p : string) : string :=
  dropTrailingSlashes
    (match splitAtLastSlash p with
     | Some (_, after) => after
     | None => p
     end).

(** [path.basename(p, suffix)] *)
Definition basename (p : string) (suffix : option string) : string :=
  match suffix with
  | Some suffix =>
      if truthy suffix && (String.length suffix <=? String.length p)%nat then
        if String.eqb suffix p then ""
        else
          match stripSuffix suffix (lastSegment p) with
          | Some stem => if truthy stem then stem else lastSegment p
          | None => lastSegment p
          end
      else lastSegment p
  | None => lastSegment p
  end.

(** [path.extname]: from the last dot of the last segment on, unless that
    dot is its first character or the segment is [..]. *)
Definition extname (p : string) : string :=
  let base := lastSegment p in
  match splitLast "."%char base with
  | None => ""
  | Some (before, after) =>
      if String.eqb before "" || String.eqb base ".." then ""
      else String "."%char after
  end.

(** A segment a normalized path is made of: not empty, not [.], not [..],
    and free of slashes. *)
Definition noSlash (s : string) : bool := all (fun c => negb (isSlash c)) s.

Definition isPlain (s : string) : bool :=
  truthy s && negb (String.eqb s ".") && negb (String.eqb s "..") && noSlash s.

(** The absolute path with the given segments. *)
Definition render (segments : list string) : string :=
  "/" +:+ JsString.join "/" segments.

(** The last character is a slash: [p.endsWith('/')], structurally. *)
Fixpoint endsInSlash (s : string) : bool :=
  match s with
  | EmptyString => false
  | String c EmptyString => isSlash c
  | String _ s' => endsInSlash s'
  end.

(** The segments that [path.resolve(cwd, p)] resolves to when [cwd] is
    absolute. *)
Definition resolvedSegments (cwd p : string) : list string :=
  if String.eqb p "" then normalizeSegments false (split "/"%char cwd)
  else if isAbsolute p then normalizeSegments false (split "/"%char p)
  else normalizeSegments false (split "/"%char cwd ++ split "/"%char p).

End path.

(** ** node:crypto, [createHash('sha1').update(text).digest('hex')]

    SHA-1 (FIPS 180-4) of the UTF-8 encoding of a string, on 32-bit words
    held in [Z]. *)

Module crypto.

Definition mask32 : Z := 2 ^ 32 - 1.
Definition w32 (x : Z) : Z := Z.land x mask32.
Definition rotl (n x : Z) : Z :=
  w32 (Z.lor (Z.shiftl x n) (Z.shiftr x (32 - n))).

(** UTF-8 of code units below 256: one byte below 128, two from there on. *)
Fixpoint utf8 (s : string) : list Z :=
  match s with
  | EmptyString => []
  | String c rest =>
      let n := Z.of_nat (nat_of_ascii c) in
      if n <? 128 then n :: utf8 rest
      else Z.lor 192 (Z.shiftr n 6) :: Z.lor 128 (Z.land n 63) :: utf8 rest
  end.

(** The length of the message in bits, on eight bytes, big-endian. *)
Definition lengthBytes (bits : Z) : list Z :=
  map (fun i => Z.land (Z.shiftr bits (8 * i)) 255) [7; 6; 5; 4; 3; 2; 1; 0].

(** The message, the byte 0x80, zeros up to 56 modulo 64, and the length. *)
Definition pad (message : list Z) : list Z :=
  let len := Z.of_nat (length message) in
  let zeros := Z.to_nat ((55 - len) mod 64) in
  message ++ [128] ++ repeat 0 zeros ++ lengthBytes (8 * len).

Fixpoint wordsOf (fuel : nat) (bytes : list Z) : list Z :=
  match fuel, bytes with
  | S fuel', b0 :: b1 :: b2 :: b3 :: rest =>
      (Z.shiftl b0 24 + Z.shiftl b1 16 + Z.shiftl b2 8 + b3) :: wordsOf fuel' rest
  | _, _ => []
  end.

(** The message schedule, last word first. *)
Fixpoint extend (n : nat) (reversed : list Z) : list Z :=
  match n with
  | O => reversed
  | S n' =>
      let w i := nth i reversed 0 in
      extend n'
        (rotl 1 (Z.lxor (Z.lxor (w 2%nat) (w 7%nat)) (Z.lxor (w 13%nat) (w 15%nat)))
           :: reversed)
  end.

Definition schedule (block : list Z) : list Z := rev (extend 64 (rev block)).

Definition State : Type := Z * Z * Z * Z * Z.

Definition round (st : State) (iw : nat * Z) : State :=
  let '(a, b, c, d, e) := st in
  let '(i, w) := iw in
  let '(f, k) :=
    if (i <? 20)%nat then
      (Z.lor (Z.land b c) (Z.land (Z.lxor b mask32) d), 1518500249)
    else if (i <? 40)%nat then
      (Z.lxor (Z.lxor b c) d, 1859775393)
    else if (i <? 60)%nat then
      (Z.lor (Z.lor (Z.land b c) (Z.land b d)) (Z.land c d), 2400959708)
    else
      (Z.lxor (Z.lxor b c) d, 3395469782) in
  (w32 (rotl 5 a + f + e + k + w), a, rotl 30 b, c, d).

Definition compress (h : State) (block : list Z) : State :=
  let '(h0, h1, h2, h3, h4) := h in
  let '(a, b, c, d, e) :=
    fold_left round (combine (seq 0 80) (schedule block)) h in
  (w32 (h0 + a), w32 (h1 + b), w32 (h2 + c), w32 (h3 + d), w32 (h4 + e)).

Fixpoint blocks (fuel : nat) (words : list Z) : list (list Z) :=
  match fuel, words with
  | S fuel', _ :: _ => firstn 16 words :: blocks fuel' (skipn 16 words)
  | _, _ => []
  end.

Definition initial : State :=
  (1732584193, 4023233417, 2562383102, 271733878, 3285377520).

Definition hexDigit (n : Z) : ascii :=
  ascii_of_nat (Z.to_nat (if n <? 10 then 48 + n else 87 + n)).

Fixpoint hexOf (digits : nat) (x : Z) : string :=
  match digits with
  | O => EmptyString
  | S digits' =>
      String (hexDigit (Z.land (Z.shiftr x (4 * Z.of_nat digits')) 15))
        (hexOf digits' x)
  end.

Definition sha1Hex (text : string) : string :=
  let bytes := pad (utf8 text) in
  let words := wordsOf (length bytes) bytes in
  let '(h0, h1, h2, h3, h4) :=
    fold_left compress (blocks (length words) words) initial in
  hexOf 8 h0 +:+ hexOf 8 h1 +:+ hexOf 8 h2 +:+ hexOf 8 h3 +:+ hexOf 8 h4.

End crypto.

(** ** node:fs

    The file system is a tree of directories and files, addressed by the
    segments a path resolves to.  An operation that Node would throw from
    returns [None]. *)

Module fs.

Local Set Warnings "-register-all".

Inductive Node :=
| File (content : string)
| Dir (entries : list (string * Node)).

Fixpoint assoc (name : string) (entries : list (string * Node)) : option Node :=
  match entries with
  | [] => None
  | (n, node) :: rest => if String.eqb n name then Some node else assoc name rest
  end.

(** Replace the entry called [name], or add it at the end. *)
Fixpoint upsert (name : string) (node : Node) (entries : list (string * Node))
    : list (string * Node) :=
  match entries with
  | [] => [(name, node)]
  | (n, old) :: rest =>
      if String.eqb n name then (name, node) :: rest
      else (n, old) :: upsert name node rest
  end.

Fixpoint removeEntry (name : string) (entries : list (string * Node))
    : list (string * Node) :=
  match entries with
  | [] => []
  | (n, old) :: rest =>
      if String.eqb n name then removeEntry name rest
      else (n, old) :: removeEntry name rest
  end.

Fixpoint lookup (segments : list string) (node : Node) : option Node :=
  match segments with
  | [] => Some node
  | s :: rest =>
      match node with
      | Dir entries =>
          match assoc s entries with
          | Some child => lookup rest child
          | None => None
          end
      | File _ => None
      end
  end.

(** The content of the regular file at a path, if there is one. *)
Definition readFile (segments : list string) (root : Node) : option string :=
  match lookup segments root with
  | Some (File content) => Some content
  | _ => None
  end.

(** What is at a path: nothing, a directory ([Some None]) or a regular file
    with its content. *)
Definition stat (segments : list string) (root : Node) : option (option string) :=
  match lookup segments root with
  | Some (File content) => Some (Some content)
  | Some (Dir _) => Some None
  | None => None
  end.

Definition isDirectory (segments : list string) (root : Node) : bool :=
  match lookup segments root with
  | Some (Dir _) => true
  | _ => false
  end.

(** [mkdir -p]: fails where a regular file is in the way. *)
Fixpoint mkdirp (segments : list string) (node : Node) : option Node :=
  match node with
  | File _ => None
  | Dir entries =>
      match segments with
      | [] => Some node
      | s :: rest =>
          let child :=
            match assoc s entries with
            | Some child => child
            | None => Dir []
            end in
          match mkdirp rest child with
          | Some child' => Some (Dir (upsert s child' entries))
          | None => None
          end
      end
  end.

(** Write a regular file: its directory must exist, and the path must not
    be a directory. *)
Fixpoint writeFile (segments : list string) (content : string) (node : Node)
    : option Node :=
  match segments, node with
  | [], _ => None
  | _, File _ => None
  | [s], Dir entries =>
      match assoc s entries with
      | Some (Dir _) => None
      | _ => Some (Dir (upsert s (File content) entries))
      end
  | s :: rest, Dir entries =>
      match assoc s entries with
      | Some child =>
          match writeFile rest content child with
          | Some child' => Some (Dir (upsert s child' entries))
          | None => None
          end
      | None => None
      end
  end.

(** Remove whatever is at a path; nothing happens when nothing is there. *)
Fixpoint remove (segments : list string) (node : Node) : Node :=
  match segments, node with
  | [], _ => node
  | _, File _ => node
  | [s], Dir entries => Dir (removeEntry s entries)
  | s :: rest, Dir entries =>
      match assoc s entries with
      | Some child => Dir (upsert s (remove rest child) entries)
      | None => node
      end
  end.

(** Copy a tree onto what is at the destination: directories are merged,
    files are overwritten, a file and a directory do not replace each
    other. *)
Fixpoint copyTree (source : Node) (destination : option Node) : option Node :=
  match source with
  | File content =>
      match destination with
      | Some (Dir _) => None
      | _ => Some (File content)
      end
  | Dir entries =>
      let copyEntries :=
        fix copyEntries (entries : list (string * Node))
            (target : list (string * Node)) : option (list (string * Node)) :=
          match entries with
          | [] => Some target
          | (name, child) :: rest =>
              match copyTree child (assoc name target) with
              | Some child' => copyEntries rest (upsert name child' target)
              | None => None
              end
          end in
      match destination with
      | Some (File _) => None
      | Some (Dir target) => option_map Dir (copyEntries entries target)
      | None => option_map Dir (copyEntries entries [])
      end
  end.

(** Put a node at a path whose directory exists. *)
Fixpoint place (segments : list string) (new : Node) (node : Node) : option Node :=
  match segments, node with
  | [], _ => None
  | _, File _ => None
  | [s], Dir entries => Some (Dir (upsert s new entries))
  | s :: rest, Dir entries =>
      match assoc s entries with
      | Some child =>
          match place rest new child with
          | Some child' => Some (Dir (upsert s child' entries))
          | None => None
          end
      | None => None
      end
  end.

(** Put a node in the place of the one at a path; nothing happens when
    nothing is there. *)
Fixpoint replace (segments : list string) (new : Node) (node : Node) : Node :=
  match segments, node with
  | [], _ => new
  | _, File _ => node
  | s :: rest, Dir entries =>
      match assoc s entries with
      | Some child => Dir (upsert s (replace rest new child) entries)
      | None => node
      end
  end.

(** [rm -r] of the node at [location], where the operating system refuses
    to remove some entries: the entries of a directory go first, in order,
    then the directory itself, and the removal stops at the first refusal.
    [None] when everything went, and otherwise what is left of the node. *)
Fixpoint removeTree (refused : list string -> bool) (location : list string)
    (node : Node) : option Node :=
  match node with
  | File _ => if refused location then Some node else None
  | Dir entries =>
      let removeEntries :=
        fix removeEntries (entries : list (string * Node)) : list (string * Node) :=
          match entries with
          | [] => []
          | (name, child) :: rest =>
              match removeTree refused (location ++ [name]) child with
              | None => removeEntries rest
              | Some kept => (name, kept) :: rest
              end
          end in
      match removeEntries entries with
      | [] => if refused location then Some (Dir []) else None
      | kept => Some (Dir kept)
      end
  end.

End fs.

(** ** The world the worktree code runs in

    The file system, the entries of it that the operating system refuses
    to remove, the branches of the repository, what [statfs] reports and
    what was printed.  A computation takes a world to an outcome: it
    returns a value or throws, and in both cases leaves a world behind (what
    was written before an exception stays written). *)

Module Sys.
Import JsString.

(** A command that was run, and whether it exited normally. *)
Record Spawn := {
  program : string;
  arguments : list string;
  succeeded : bool;
}.

Record World := {
  processCwd : string;
  root : fs.Node;
  branches : gset string;
  statfs : option (Z * Z);
  console : list string;
  spawned : list Spawn;
  undeletable : list (list string);
}.

Inductive Outcome (A : Type) : Type :=
| Returned (a : A) (w : World)
| Thrown (message : string) (w : World).
Global Arguments Returned {A} a w.
Global Arguments Thrown {A} message w.

Definition M (A : Type) : Type := World -> Outcome A.

Definition ret {A} (a : A) : M A := fun w => Returned a w.

Definition bind {A B} (m : M A) (k : A -> M B) : M B :=
  fun w =>
    match m w with
    | Returned a w' => k a w'
    | Thrown message w' => Thrown message w'
    end.

Definition throw {A} (message : string) : M A := fun w => Thrown message w.

(** [try { m } catch { handler }] *)
Definition tryCatch {A} (m : M A) (handler : string -> M A) : M A :=
  fun w =>
    match m w with
    | Returned a w' => Returned a w'
    | Thrown message w' => handler message w'
    end.

Definition worldOf {A} (o : Outcome A) : World :=
  match o with
  | Returned _ w => w
  | Thrown _ w => w
  end.

Definition setRoot (r : fs.Node) (w : World) : World :=
  {| processCwd := processCwd w; root := r; branches := branches w;
     statfs := statfs w; console := console w;
     spawned := spawned w; undeletable := undeletable w |}.

Definition setBranches (b : gset string) (w : World) : World :=
  {| processCwd := processCwd w; root := root w; branches := b;
     statfs := statfs w; console := console w;
     spawned := spawned w; undeletable := undeletable w |}.

(** [console.log], [console.warn] *)
Definition consoleLog (line : string) : M unit :=
  fun w =>
    Returned tt
      {| processCwd := processCwd w; root := root w; branches := branches w;
         statfs := statfs w; console := console w ++ [line];
         spawned := spawned w; undeletable := undeletable w |}.

Definition setSpawned (calls : list Spawn) (w : World) : World :=
  {| processCwd := processCwd w; root := root w; branches := branches w;
     statfs := statfs w; console := console w; spawned := calls;
     undeletable := undeletable w |}.

(** Running a command: what the operating system does with it is [run];
    the command, its arguments and how it ended are added to the record of
    the commands run so far. *)
Definition spawn (run : string -> list string -> option string -> M string)
    (command : string) (args : list string) (cwd : option string) : M string :=
  fun w =>
    let call ok := {| program := command; arguments := args; succeeded := ok |} in
    match run command args cwd w with
    | Returned out w' => Returned out (setSpawned (spawned w ++ [call true]) w')
    | Thrown message w' => Thrown message (setSpawned (spawned w ++ [call false]) w')
    end.

Definition segmentsIn (w : World) (p : string) : list string :=
  path.segments (processCwd w) p.

(** [process.cwd()] *)
Definition getProcessCwd : M string := fun w => Returned (processCwd w) w.

(** [for (const x of xs) { body }] *)
Fixpoint forOf {A} (xs : list A) (body : A -> M unit) : M unit :=
  match xs with
  | [] => ret tt
  | x :: rest => bind (body x) (fun _ => forOf rest body)
  end.

(** [fs.existsSync] *)
Definition existsSync (p : string) : M bool :=
  fun w =>
    Returned
      (match fs.lookup (segmentsIn w p) (root w) with
       | Some _ => true
       | None => false
       end) w.

(** [fs.mkdirSync(p, { recursive: true })] *)
Definition mkdirSync (p : string) : M unit :=
  fun w =>
    match fs.mkdirp (segmentsIn w p) (root w) with
    | Some r => Returned tt (setRoot r w)
    | None => Thrown ("EEXIST: file already exists, mkdir " +:+ p) w
    end.

(** [fs.copyFileSync(src, dest)] *)
Definition copyFileSync (src dest : string) : M unit :=
  fun w =>
    match fs.lookup (segmentsIn w src) (root w) with
    | None => Thrown ("ENOENT: no such file or directory, copyfile " +:+ src) w
    | Some (fs.Dir _) =>
        Thrown ("EISDIR: illegal operation on a directory, copyfile " +:+ src) w
    | Some (fs.File content) =>
        match fs.writeFile (segmentsIn w dest) content (root w) with
        | Some r => Returned tt (setRoot r w)
        | None => Thrown ("ENOENT: no such file or directory, copyfile " +:+ dest) w
        end
    end.

(** [fs.readdirSync] *)
Definition readdirSync (p : string) : M (list string) :=
  fun w =>
    match fs.lookup (segmentsIn w p) (root w) with
    | Some (fs.Dir entries) => Returned (map fst entries) w
    | Some (fs.File _) => Thrown ("ENOTDIR: not a directory, scandir " +:+ p) w
    | None => Thrown ("ENOENT: no such file or directory, scandir " +:+ p) w
    end.

(** [fs.statSync(p)]: [true] for a regular file, [false] for a directory *)
Definition statSyncIsFile (p : string) : M bool :=
  fun w =>
    match fs.lookup (segmentsIn w p) (root w) with
    | Some (fs.File _) => Returned true w
    | Some (fs.Dir _) => Returned false w
    | None => Thrown ("ENOENT: no such file or directory, stat " +:+ p) w
    end.

(** [fs.cpSync(src, dest, { recursive: true })] *)
Definition cpSync (src dest : string) : M unit :=
  fun w =>
    match fs.lookup (segmentsIn w src) (root w) with
    | None => Thrown ("ENOENT: no such file or directory, cp " +:+ src) w
    | Some tree =>
        match fs.copyTree tree (fs.lookup (segmentsIn w dest) (root w)) with
        | None => Thrown ("ERR_FS_CP_DIR_TO_NON_DIR: " +:+ dest) w
        | Some tree' =>
            match fs.place (segmentsIn w dest) tree' (root w) with
            | Some r => Returned tt (setRoot r w)
            | None => Thrown ("ENOENT: no such file or directory, cp " +:+ dest) w
            end
        end
    end.

(** What the operating system refuses to remove: the root, and the entries
    listed as undeletable (not permitted, busy). *)
Definition refuses (w : World) (q : list string) : bool :=
  bool_decide (q = []) || bool_decide (q ∈ undeletable w).

(** [fs.rmSync(p, { recursive: true, force: true })]: a missing path is
    ignored; a refusal throws, and what was removed before it stays
    removed. *)
Definition rmSync (p : string) : M unit :=
  fun w =>
    let target := segmentsIn w p in
    match fs.lookup target (root w) with
    | None => Returned tt w
    | Some node =>
        match fs.removeTree (refuses w) target node with
        | None => Returned tt (setRoot (fs.remove target (root w)) w)
        | Some kept =>
            Thrown ("EACCES: permission denied, rm " +:+ p)
              (setRoot (fs.replace target kept (root w)) w)
        end
    end.

(** [fs.rmdirSync(p)]: an empty directory only *)
Definition rmdirSync (p : string) : M unit :=
  fun w =>
    match fs.lookup (segmentsIn w p) (root w) with
    | Some (fs.Dir []) =>
        if refuses w (segmentsIn w p)
        then Thrown ("EACCES: permission denied, rmdir " +:+ p) w
        else Returned tt (setRoot (fs.remove (segmentsIn w p) (root w)) w)
    | Some (fs.Dir _) => Thrown ("ENOTEMPTY: directory not empty, rmdir " +:+ p) w
    | Some (fs.File _) => Thrown ("ENOTDIR: not a directory, rmdir " +:+ p) w
    | None => Thrown ("ENOENT: no such file or directory, rmdir " +:+ p) w
    end.

(** [await fs.promises.statfs(p)]: [bavail] and [bsize] *)
Definition statfsOf (p : string) : M (Z * Z) :=
  fun w =>
    match statfs w with
    | Some stats => Returned stats w
    | None => Thrown ("ENOSYS: function not implemented, statfs " +:+ p) w
    end.

End Sys.

Declare Scope sys_scope.
Delimit Scope sys_scope with sys.
Notation "x <- m ;; k" := (Sys.bind m (fun x => k))
  (at level 100, m at next level, right associativity) : sys_scope.
Notation "m ;;; k" := (Sys.bind m (fun _ => k))
  (at level 100, right associativity) : sys_scope.

(** ** src/session-worktree.ts *)

Module SessionWorktree.
Import JsString Sys.
Local Open Scope sys_scope.

(** [SessionWorktreeResult] *)
Record SessionWorktreeResult := {
  worktreePath : string;
  branchName : string;
}.

(** [SessionWorktreeMode] *)
Inductive SessionWorktreeMode := created | reused | attached.

(** [PreparedSessionWorktreeResult] *)
Record PreparedSessionWorktreeResult := {
  prepared : SessionWorktreeResult;
  mode : SessionWorktreeMode;
}.

(** [MergeResult] *)
Record MergeResult := {
  success : bool;
  message : string;
}.

(** Default minimum free disk space (500 MB) before creating a worktree *)
Definition DEFAULT_MIN_FREE_DISK_SPACE : Z := 500 * 1024 * 1024.

(** [getWorktreeBaseDir]: [{parent}/.ralph-worktrees/{basename}/] *)
(** The parts of the world that are not the file system. *)
Definition sameButFiles (w w' : World) : Prop :=
  processCwd w' = processCwd w /\ branches w' = branches w
  /\ statfs w' = statfs w /\ console w' = console w
  /\ spawned w' = spawned w /\ undeletable w' = undeletable w.

Definition getWorktreeBaseDir (cwd : string) : string :=
  let parentDir := path.dirname cwd in
  let projectName := path.basename cwd None in
  path.join [parentDir; ".ralph-worktrees"; projectName].

(** [isPathInside] *)
Definition isPathInside (processCwd baseDir candidate : string) : bool :=
  let rel := path.relative processCwd baseDir candidate in
  String.eqb rel "" || (negb (startsWith rel "..") && negb (path.isAbsolute rel)).

(** An entry of [git worktree list --porcelain] *)
Record WorktreeEntry := {
  entryPath : string;
  entryBranch : option string;
}.

(** [parseWorktreeList]: the state of its loop is the entries pushed so far
    and the current one. *)
Definition parseWorktreeLine (processCwd : string)
    (state : list WorktreeEntry * option WorktreeEntry) (line : string)
    : list WorktreeEntry * option WorktreeEntry :=
  let '(entries, current) := state in
  if startsWith line "worktree " then
    let entries :=
      match current with
      | Some c => entries ++ [c]
      | None => entries
      end in
    (entries,
     Some {| entryPath := path.resolve processCwd [trim (sliceFrom 9 line)];
             entryBranch := None |})
  else
    match current with
    | Some c =>
        if startsWith line "branch " then
          let ref := trim (sliceFrom 7 line) in
          (entries,
           Some {| entryPath := entryPath c;
                   entryBranch :=
                     Some (if startsWith ref "refs/heads/"
                           then sliceFrom 11 ref else ref) |})
        else state
    | None => state
    end.

Definition parseWorktreeList (processCwd output : string) : list WorktreeEntry :=
  let '(entries, current) :=
    fold_left (parseWorktreeLine processCwd) (split "010"%char output) ([], None) in
  match current with
  | Some c => entries ++ [c]
  | None => entries
  end.

(** [resolveWorktreePrdPath] *)
Record ResolvedPrdPath := {
  sourcePrd : string;
  targetPrd : string;
  isExternal : bool;
}.

Definition isSafeBaseChar (c : ascii) : bool :=
  isAlpha c || isDigit c
  || Ascii.eqb c "."%char || Ascii.eqb c "_"%char || Ascii.eqb c "-"%char.

Definition safeBaseOf (rawBase : string) : string :=
  let safe :=
    sliceTo 64 (collapseRuns "-"%char (replaceOutside isSafeBaseChar "-"%char rawBase)) in
  if truthy safe then safe else "prd".

Definition resolveWorktreePrdPath (processCwd cwd worktreePath prdPath : string)
    : ResolvedPrdPath :=
  let sourcePrd := path.resolve processCwd [cwd; prdPath] in
  (* If already inside this worktree, keep as-is (resume path). *)
  if isPathInside processCwd worktreePath sourcePrd then
    {| sourcePrd := sourcePrd; targetPrd := sourcePrd; isExternal := false |}
  else if isPathInside processCwd cwd sourcePrd then
    let relativePath := path.relative processCwd cwd sourcePrd in
    let safeRelative :=
      if (0 <? String.length relativePath)%nat then relativePath
      else path.basename sourcePrd None in
    {| sourcePrd := sourcePrd;
       targetPrd := path.join [worktreePath; safeRelative];
       isExternal := false |}
  else
    let ext :=
      if truthy (path.extname sourcePrd) then path.extname sourcePrd else ".json" in
    let rawBase := path.basename sourcePrd (Some (path.extname sourcePrd)) in
    let safeBase := safeBaseOf rawBase in
    let sourceHash := sliceTo 8 (crypto.sha1Hex sourcePrd) in
    let targetPrd :=
      path.join [worktreePath; ".ralph-tui"; "external-prd";
                 safeBase +:+ "-" +:+ sourceHash +:+ ext] in
    {| sourcePrd := sourcePrd; targetPrd := targetPrd; isExternal := true |}.

(** [copyConfig] *)
Definition copyConfig (cwd worktreePath : string) : M unit :=
  let configDir := path.join [cwd; ".ralph-tui"] in
  let targetDir := path.join [worktreePath; ".ralph-tui"] in
  let configFile := path.join [configDir; "config.toml"] in
  found <- existsSync configFile ;;
  (if found then
     mkdirSync targetDir ;;;
     copyFileSync configFile (path.join [targetDir; "config.toml"])
   else ret tt) ;;;
  forOf ["yaml"; "yml"] (fun ext =>
    let yamlConfig := path.join [configDir; "config." +:+ ext] in
    found <- existsSync yamlConfig ;;
    if found then
      mkdirSync targetDir ;;;
      copyFileSync yamlConfig (path.join [targetDir; "config." +:+ ext])
    else ret tt).

(** [BEADS_EXCLUDE_PATTERNS], [isBeadsExcluded] *)
Definition isBeadsExcluded (filename : string) : bool :=
  endsWith filename ".db" || endsWith filename ".db-shm"
  || endsWith filename ".db-wal" || endsWith filename ".lock"
  || endsWith filename ".tmp" || String.eqb filename "last-touched".

(** [copyBeadsDir] *)
Definition copyBeadsDir (cwd worktreePath : string) : M unit :=
  let sourceDir := path.join [cwd; ".beads"] in
  let targetDir := path.join [worktreePath; ".beads"] in
  found <- existsSync sourceDir ;;
  if negb found then ret tt
  else
    mkdirSync targetDir ;;;
    entries <- readdirSync sourceDir ;;
    forOf entries (fun entry =>
      if isBeadsExcluded entry then ret tt
      else
        let sourcePath := path.join [sourceDir; entry] in
        let targetPath := path.join [targetDir; entry] in
        isFile <- statSyncIsFile sourcePath ;;
        if isFile then copyFileSync sourcePath targetPath
        else cpSync sourcePath targetPath).

Section WithProcesses.

(** [execFileSync(command, args, { cwd })] of node:child_process: what the
    operating system does with a command is a parameter. *)
Variable childProcess : string -> list string -> option string -> M string.

Definition execFileSync : string -> list string -> option string -> M string :=
  spawn childProcess.

(** [syncBeadsTracker] *)
Definition syncBeadsTracker (cwd command : string) : M bool :=
  tryCatch
    (execFileSync command ["sync"; "--flush-only"] (Some cwd) ;;; ret true)
    (fun _ => ret false).

(** What [copyTrackerData] returns: [{ jsonPrdPath?, jsonPrdIsExternal? }] *)
Record TrackerDataResult := {
  jsonPrdPath : option string;
  jsonPrdIsExternal : option bool;
}.

Definition noTrackerData : TrackerDataResult :=
  {| jsonPrdPath := None; jsonPrdIsExternal := None |}.

(** [prdPath || 'prd.json'] *)
Definition prdFileOf (prdPath : option string) : string :=
  match prdPath with
  | Some p => if truthy p then p else "prd.json"
  | None => "prd.json"
  end.

(** [copyTrackerData] *)
Definition copyTrackerData (cwd worktreePath trackerPlugin : string)
    (prdPath : option string) : M TrackerDataResult :=
  if String.eqb trackerPlugin "beads-rust" then
    synced <- syncBeadsTracker cwd "br" ;;
    (if negb synced then
       consoleLog "Warning: br sync --flush-only failed; worktree will use existing .beads/ from HEAD"
     else ret tt) ;;;
    copyBeadsDir cwd worktreePath ;;;
    ret noTrackerData
  else if String.eqb trackerPlugin "beads" || String.eqb trackerPlugin "beads-bv" then
    synced <- syncBeadsTracker cwd "bd" ;;
    (if negb synced then
       consoleLog "Warning: bd sync --flush-only failed; worktree will use existing .beads/ from HEAD"
     else ret tt) ;;;
    copyBeadsDir cwd worktreePath ;;;
    ret noTrackerData
  else if String.eqb trackerPlugin "json" then
    (* Copy the PRD JSON file to a guaranteed in-worktree path. *)
    let prdFile := prdFileOf prdPath in
    processCwd <- getProcessCwd ;;
    let resolved := resolveWorktreePrdPath processCwd cwd worktreePath prdFile in
    found <- existsSync (sourcePrd resolved) ;;
    (if found && negb (String.eqb (sourcePrd resolved) (targetPrd resolved)) then
       let targetPrdDir := path.dirname (targetPrd resolved) in
       mkdirSync targetPrdDir ;;;
       copyFileSync (sourcePrd resolved) (targetPrd resolved)
     else ret tt) ;;;
    ret {| jsonPrdPath := Some (targetPrd resolved);
           jsonPrdIsExternal := Some (isExternal resolved) |}
  else ret noTrackerData.

(** The fall-back of [checkDiskSpace]: the available kilobytes that
    [df -k] reports, read from the column headed [avail] or [available]. *)
Fixpoint findIndex {A} (p : A -> bool) (l : list A) : option nat :=
  match l with
  | [] => None
  | x :: rest =>
      if p x then Some 0%nat
      else match findIndex p rest with
           | Some i => Some (S i)
           | None => None
           end
  end.

Definition dfAvailable (output : string) : option Z :=
  let lines :=
    List.filter (fun l => (0 <? String.length (trim l))%nat)
      (split "010"%char (trim output)) in
  if (2 <=? length lines)%nat then
    let header := toLowerCase (nth 0 lines "") in
    let cols :=
      map (fun v => trim (removeFirst "%"%char v)) (splitWhiteSpace (trim header)) in
    match findIndex (fun c => String.eqb c "avail" || String.eqb c "available") cols with
    | Some availIdx =>
        let dataLine := List.last lines "" in
        let values := splitWhiteSpace (trim dataLine) in
        match parseInt (nth availIdx values "") with
        | Some kb =>
            match TaskOrdering.roundToDouble (Z.abs kb) with
            | Some _ => if 0 <=? kb then Some (kb * 1024) else None
            | None => None (* not finite *)
            end
        | None => None
        end
    | None => None
    end
  else None.

(** [Math.round(x / (1024 * 1024))] *)
Definition roundMB (x : Z) : Z := (2 * x + 1024 * 1024) / (2 * 1024 * 1024).

(** [checkDiskSpace]: throws only when the space is known and too small. *)
Definition checkDiskSpace (cwd : string) : M unit :=
  let minimumRequired := DEFAULT_MIN_FREE_DISK_SPACE in
  (* Try statfs first *)
  available <-
    tryCatch
      (stats <- statfsOf cwd ;;
       let value := fst stats * snd stats in
       ret (if 0 <? value then Some value else None))
      (fun _ => ret None) ;;
  (* Fall back to df *)
  available <-
    match available with
    | Some v => ret (Some v)
    | None =>
        tryCatch
          (output <- execFileSync "df" ["-k"; cwd] None ;; ret (dfAvailable output))
          (fun _ => ret None)
    end ;;
  match available with
  | None => ret tt (* Can't determine disk space, proceed optimistically *)
  | Some available =>
      if available <? minimumRequired then
        throw ("Insufficient disk space for worktree: " +:+ ofZ (roundMB available)
               +:+ "MB available, " +:+ ofZ (roundMB minimumRequired) +:+ "MB required")
      else ret tt
  end.

(** [git]: execute a git command in the given directory. *)
Definition git (cwd : string) (args : list string) : M string :=
  execFileSync "git" ("-C" :: cwd :: args) None.

(** [branchExists] *)
Definition branchExists (cwd branchName : string) : M bool :=
  tryCatch
    (git cwd ["show-ref"; "--verify"; "--quiet"; "refs/heads/" +:+ branchName] ;;;
     ret true)
    (fun _ => ret false).

(** [createSessionWorktree] *)
Definition createSessionWorktree (cwd sessionName : string) : M SessionWorktreeResult :=
  (* Check disk space before creating *)
  checkDiskSpace cwd ;;;
  let branchName := "ralph-session/" +:+ sessionName in
  let baseDir := getWorktreeBaseDir cwd in
  let worktreePath := path.join [baseDir; sessionName] in
  (* Ensure parent directory exists *)
  mkdirSync baseDir ;;;
  (* Clean up stale worktree at this path if it exists *)
  stale <- existsSync worktreePath ;;
  (if stale then
     tryCatch
       (git cwd ["worktree"; "remove"; "--force"; worktreePath] ;;; ret tt)
       (fun _ => rmSync worktreePath ;;; git cwd ["worktree"; "prune"] ;;; ret tt)
   else ret tt) ;;;
  (* Clean up stale branch if it exists *)
  tryCatch (git cwd ["branch"; "-D"; branchName] ;;; ret tt) (fun _ => ret tt) ;;;
  (* Create the worktree with a new branch from HEAD *)
  git cwd ["worktree"; "add"; "-b"; branchName; worktreePath; "HEAD"] ;;;
  (* Copy ralph-tui config into the worktree *)
  copyConfig cwd worktreePath ;;;
  ret {| worktreePath := worktreePath; branchName := branchName |}.

(** The block of [prepareSessionWorktree] that clears a stale path before a
    worktree is attached: [if (fs.existsSync(worktreePath)) { ... }]. *)
Definition clearStalePath (cwd worktreePath : string) : M unit :=
  stale <- existsSync worktreePath ;;
  if stale then
    tryCatch
      (git cwd ["worktree"; "remove"; "--force"; worktreePath] ;;; ret tt)
      (fun _ =>
         rmSync worktreePath ;;;
         tryCatch (git cwd ["worktree"; "prune"] ;;; ret tt)
           (fun _ => ret tt))
  else ret tt.

(** [prepareSessionWorktree]; [resume] is [options?.resume ?? false]. *)
Definition prepareSessionWorktree (cwd sessionName : string) (resume : bool)
    : M PreparedSessionWorktreeResult :=
  let branchName := "ralph-session/" +:+ sessionName in
  let baseDir := getWorktreeBaseDir cwd in
  let worktreePath := path.join [baseDir; sessionName] in
  let fresh :=
    created <- createSessionWorktree cwd sessionName ;;
    ret {| prepared := created; mode := SessionWorktree.created |} in
  if resume then
    entries <-
      tryCatch
        (output <- git cwd ["worktree"; "list"; "--porcelain"] ;;
         processCwd <- getProcessCwd ;;
         ret (parseWorktreeList processCwd output))
        (fun _ => ret []) ;;
    match List.find (fun entry => bool_decide (entryBranch entry = Some branchName))
            entries with
    | Some attachedEntry =>
        ret {| prepared := {| worktreePath := entryPath attachedEntry;
                              branchName := branchName |};
               mode := reused |}
    | None =>
        known <- branchExists cwd branchName ;;
        if known then
          checkDiskSpace cwd ;;;
          mkdirSync baseDir ;;;
          clearStalePath cwd worktreePath ;;;
          git cwd ["worktree"; "add"; worktreePath; branchName] ;;;
          copyConfig cwd worktreePath ;;;
          ret {| prepared := {| worktreePath := worktreePath;
                                branchName := branchName |};
                 mode := attached |}
        else fresh
    end
  else fresh.

(** The last block of [removeSessionWorktree]: remove the worktree
    directories if they are empty. *)
Definition removeEmptyWorktreeDirs (cwd : string) : M unit :=
  tryCatch
    (let baseDir := getWorktreeBaseDir cwd in
     entries <- readdirSync baseDir ;;
     if (length entries =? 0)%nat then
       rmdirSync baseDir ;;;
       let parentDir := path.dirname baseDir in
       parentEntries <- readdirSync parentDir ;;
       if (length parentEntries =? 0)%nat then rmdirSync parentDir else ret tt
     else ret tt)
    (fun _ => ret tt).

(** [removeSessionWorktree]: best-effort cleanup, by its documentation; the
    call of [rmSync] in the first handler is outside any [try]. *)
Definition removeSessionWorktree (cwd worktreePath branchName : string) : M unit :=
  (* Force remove the worktree *)
  tryCatch
    (git cwd ["worktree"; "remove"; "--force"; worktreePath] ;;; ret tt)
    (fun _ =>
       stale <- existsSync worktreePath ;;
       (if stale then rmSync worktreePath else ret tt) ;;;
       tryCatch (git cwd ["worktree"; "prune"] ;;; ret tt) (fun _ => ret tt)) ;;;
  (* Delete the branch *)
  tryCatch (git cwd ["branch"; "-D"; branchName] ;;; ret tt) (fun _ => ret tt) ;;;
  (* Remove worktree directories if empty *)
  removeEmptyWorktreeDirs cwd.

(** [mergeSessionWorktree] *)
Definition mergeSessionWorktree (cwd worktreePath branchName : string)
    : M MergeResult :=
  (* Determine the original branch to switch back to *)
  head <-
    tryCatch
      (out <- git cwd ["rev-parse"; "--abbrev-ref"; "HEAD"] ;; ret (Some (trim out)))
      (fun _ => ret None) ;;
  match head with
  | None =>
      ret {| success := false;
             message := "Failed to determine original branch. Worktree preserved at: "
                        +:+ worktreePath +:+ " (branch: " +:+ branchName +:+ ")" |}
  | Some originalBranch =>
      (* If the original branch is the session branch, bail *)
      if String.eqb originalBranch branchName then
        ret {| success := false;
               message := "Original branch is the session branch (" +:+ branchName
                          +:+ "). Worktree preserved at: " +:+ worktreePath |}
      else
        (* Try fast-forward merge first *)
        merged <-
          tryCatch
            (git cwd ["merge"; "--ff-only"; branchName] ;;;
             consoleLog ("Merged " +:+ branchName +:+ " into " +:+ originalBranch
                         +:+ " (fast-forward)") ;;;
             ret true)
            (fun _ =>
               (* Fast-forward not possible, try regular merge *)
               tryCatch
                 (git cwd ["merge"; "--no-edit"; branchName] ;;;
                  consoleLog ("Merged " +:+ branchName +:+ " into " +:+ originalBranch
                              +:+ " (merge commit)") ;;;
                  ret true)
                 (fun _ =>
                    (* Merge failed: abort and preserve worktree *)
                    tryCatch (git cwd ["merge"; "--abort"] ;;; ret tt)
                      (fun _ => ret tt) ;;;
                    ret false)) ;;
        if merged then
          (* Merge succeeded: clean up worktree and branch *)
          removeSessionWorktree cwd worktreePath branchName ;;;
          ret {| success := true;
                 message := "Successfully merged " +:+ branchName +:+ " into "
                            +:+ originalBranch |}
        else
          ret {| success := false;
                 message :=
                   JsString.join (String "010"%char "")
                     ["Auto-merge failed due to conflicts.";
                      "  Worktree: " +:+ worktreePath;
                      "  Branch:   " +:+ branchName;
                      "Resolve manually with:";
                      "  cd " +:+ cwd;
                      "  git merge " +:+ branchName] |}
  end.

End WithProcesses.

(** The address of [<base>/.ralph-tui/iterations] for an absolute [base]. *)
Definition iterationsDir (base : string) : list string :=
  path.normalizeSegments false (split "/"%char base) ++ [".ralph-tui"; "iterations"].

(** The body of the loop of [preserveIterationLogs]. *)
Definition preserveLog (worktreeLogsDir mainLogsDir file : string) : M unit :=
  if endsWith file ".log" then
    let srcPath := path.join [worktreeLogsDir; file] in
    let destPath := path.join [mainLogsDir; file] in
    (* Don't overwrite if destination exists *)
    present <- existsSync destPath ;;
    if negb present then copyFileSync srcPath destPath else ret tt
  else ret tt.

(** [preserveIterationLogs]: best effort, never throws. *)
Definition preserveIterationLogs (mainCwd worktreePath : string) : M unit :=
  let worktreeLogsDir := path.join [worktreePath; ".ralph-tui"; "iterations"] in
  let mainLogsDir := path.join [mainCwd; ".ralph-tui"; "iterations"] in
  found <- existsSync worktreeLogsDir ;;
  if negb found then ret tt
  else
    tryCatch
      (mkdirSync mainLogsDir ;;;
       logFiles <- readdirSync worktreeLogsDir ;;
       forOf logFiles (preserveLog worktreeLogsDir mainLogsDir))
      (fun _ => ret tt).

(** The earlier revision of [copyTrackerData], still in the sources: the
    PRD goes to the path it has relative to the project, joined onto the
    worktree. *)
Module Legacy.

Definition copyTrackerDataJson (cwd worktreePath : string)
    (prdPath : option string) : M unit :=
  let prdFile := prdFileOf prdPath in
  processCwd <- getProcessCwd ;;
  let sourcePrd := path.resolve processCwd [cwd; prdFile] in
  found <- existsSync sourcePrd ;;
  if found then
    let targetPrd :=
      path.join [worktreePath; path.relative processCwd cwd sourcePrd] in
    let targetPrdDir := path.dirname targetPrd in
    mkdirSync targetPrdDir ;;;
    copyFileSync sourcePrd targetPrd
  else ret tt.

End Legacy.

End SessionWorktree.

(** ** What git is asked and what it answers *)

Module GitView.
Import JsString Sys SessionWorktree.

(** The record of [git -C cwd args]. *)
Definition gitCall (cwd : string) (args : list string) (ok : bool) : Spawn :=
  {| program := "git"; arguments := "-C" :: cwd :: args; succeeded := ok |}.

(** [ralph-session/{name}] and [{base}/{name}] of a session. *)
Definition sessionBranch (sessionName : string) : string :=
  "ralph-session/" +:+ sessionName.

Definition sessionPath (cwd sessionName : string) : string :=
  path.join [getWorktreeBaseDir cwd; sessionName].

(** No segment of a session name is [..]. *)
Definition climbsNowhere (sessionName : string) : bool :=
  forallb (fun s => negb (String.eqb s "..")) (split "/"%char sessionName).

(** The segments of a session name that count: not empty and not [.]. *)
Definition keptSegments (sessionName : string) : list string :=
  List.filter (fun s => truthy s && negb (String.eqb s "."))
    (split "/"%char sessionName).

(** What [mergeSessionWorktree] asks of git before any clean-up. *)
Definition revParse (cwd : string) : bool -> Spawn :=
  gitCall cwd ["rev-parse"; "--abbrev-ref"; "HEAD"].
Definition mergeFastForward (cwd branchName : string) : bool -> Spawn :=
  gitCall cwd ["merge"; "--ff-only"; branchName].
Definition mergeNoEdit (cwd branchName : string) : bool -> Spawn :=
  gitCall cwd ["merge"; "--no-edit"; branchName].
Definition mergeAbort (cwd : string) : bool -> Spawn :=
  gitCall cwd ["merge"; "--abort"].

Definition mergeRequests (branchName : string) : list (list string) :=
  [ ["rev-parse"; "--abbrev-ref"; "HEAD"];
    ["merge"; "--ff-only"; branchName];
    ["merge"; "--no-edit"; branchName];
    ["merge"; "--abort"] ].

(** What [removeSessionWorktree] asks of git: [prune] only when the removal
    failed. *)
Definition cleanupCalls (cwd worktreePath branchName : string)
    (removed pruned deleted : bool) : list Spawn :=
  gitCall cwd ["worktree"; "remove"; "--force"; worktreePath] removed
  :: (if removed then [] else [gitCall cwd ["worktree"; "prune"] pruned])
  ++ [gitCall cwd ["branch"; "-D"; branchName] deleted].

(** Whether [fs.rmSync(p, { recursive: true, force: true })] goes through
    in a world. *)
Definition removable (p : string) (w : World) : bool :=
  match rmSync p w with
  | Returned _ _ => true
  | Thrown _ _ => false
  end.

(** A computation that creates no file or directory. *)
Definition createsNothing {A} (m : M A) : Prop :=
  forall w q, fs.lookup q (root w) = None ->
    fs.lookup q (root (worldOf (m w))) = None.

(** A computation that touches nothing but the file system. *)
Definition filesOnly {A} (m : M A) : Prop :=
  forall w, sameButFiles w (worldOf (m w)).

Section WithProcesses.

Variable childProcess : string -> list string -> option string -> M string.

(** The worktrees [git worktree list --porcelain] reports; none when the
    command fails. *)
Definition listedWorktrees (cwd : string) (w : World) : list WorktreeEntry :=
  match git childProcess cwd ["worktree"; "list"; "--porcelain"] w with
  | Returned output w1 => parseWorktreeList (processCwd w1) output
  | Thrown _ _ => []
  end.

(** The first listed worktree that has the branch checked out. *)
Definition checkedOutAt (cwd branchName : string) (w : World) : option WorktreeEntry :=
  List.find (fun entry => bool_decide (entryBranch entry = Some branchName))
    (listedWorktrees cwd w).

(** The world once git has been asked for the list. *)
Definition afterListing (cwd : string) (w : World) : World :=
  worldOf (git childProcess cwd ["worktree"; "list"; "--porcelain"] w).

Definition showRef (cwd branchName : string) : M string :=
  git childProcess cwd
    ["show-ref"; "--verify"; "--quiet"; "refs/heads/" +:+ branchName].

(** Whether [git show-ref --verify] finds the branch. *)
Definition knowsBranch (cwd branchName : string) (w : World) : bool :=
  match showRef cwd branchName w with
  | Returned _ _ => true
  | Thrown _ _ => false
  end.

(** The branch that [git rev-parse --abbrev-ref HEAD] reports, trimmed;
    none when the command fails. *)
Definition headBranch (cwd : string) (w : World) : option string :=
  match git childProcess cwd ["rev-parse"; "--abbrev-ref"; "HEAD"] w with
  | Returned out _ => Some (trim out)
  | Thrown _ _ => None
  end.

(** The removal of a worktree is blocked: git refuses to remove it and, in
    the world git leaves, the directory cannot be deleted either. *)
Definition cleanupBlocked (cwd worktreePath : string) (w : World) : bool :=
  match git childProcess cwd ["worktree"; "remove"; "--force"; worktreePath] w with
  | Returned _ _ => false
  | Thrown _ w1 => negb (removable worktreePath w1)
  end.

(** What is expected of git where the clean-up is concerned: a successful
    [worktree remove] leaves nothing at the path, [worktree prune] and
    [branch -D] put nothing back there, and a successful [branch -D] leaves
    no such branch. *)
Definition removesWorktree (cwd worktreePath : string) : Prop :=
  forall w out w',
    childProcess "git" ["-C"; cwd; "worktree"; "remove"; "--force"; worktreePath]
      None w = Returned out w' ->
    fs.lookup (segmentsIn w' worktreePath) (root w') = None.

Definition keepsRemoved (cwd worktreePath branchName : string) : Prop :=
  forall args w,
    args = ["worktree"; "prune"] \/ args = ["branch"; "-D"; branchName] ->
    fs.lookup (segmentsIn w worktreePath) (root w) = None ->
    let w' := worldOf (childProcess "git" ("-C" :: cwd :: args) None w) in
    fs.lookup (segmentsIn w' worktreePath) (root w') = None.

Definition deletesBranch (cwd branchName : string) : Prop :=
  forall w out w',
    childProcess "git" ["-C"; cwd; "branch"; "-D"; branchName] None w
    = Returned out w' ->
    branchName ∉ branches w'.

(** What is expected of git where a merge is concerned: [rev-parse] and
    [merge] keep a property of the files and branches. *)
Definition mergeKeeps (cwd branchName : string)
    (P : fs.Node -> gset string -> Prop) : Prop :=
  forall args w,
    In args (mergeRequests branchName) ->
    P (root w) (branches w) ->
    let w' := worldOf (childProcess "git" ("-C" :: cwd :: args) None w) in
    P (root w') (branches w').

(** A run of [mergeSessionWorktree] that returns failure, and keeps what
    [rev-parse] and [merge] keep of the files and branches. *)
Definition returnsFailure (cwd branchName : string) (w : World)
    (run : Outcome MergeResult) : Prop :=
  exists result,
    run = Returned result (worldOf run)
    /\ success result = false
    /\ forall P : fs.Node -> gset string -> Prop,
         mergeKeeps cwd branchName P ->
         P (root w) (branches w) ->
         P (root (worldOf run)) (branches (worldOf run)).

End WithProcesses.

End GitView.

(** ** Properties of strings *)

Module Text.

(** No two adjacent occurrences of [c]. *)
Fixpoint noRun (c : ascii) (s : string) : bool :=
  match s with
  | String a (String b _ as s') =>
      negb (Ascii.eqb a c && Ascii.eqb b c) && noRun c s'
  | _ => true
  end.

End Text.

(** * Concrete file systems used to exercise [preserveIterationLogs] *)

Module LogScenario.
Import Sys SessionWorktree.

Definition iterations (entries : list (string * fs.Node)) : fs.Node :=
  fs.Dir [(".ralph-tui", fs.Dir [("iterations", fs.Dir entries)])].

Definition worldOf (tree : fs.Node) : World :=
  {| processCwd := "/main"; root := tree; branches := ∅;
     statfs := None; console := []; spawned := []; undeletable := [] |}.

(** Two logs in the worktree; the first one already exists in the project. *)
Definition twoLogs : World :=
  worldOf (fs.Dir
    [("main", iterations [("1.log", fs.File "kept")]);
     ("wt", iterations [("1.log", fs.File "one"); ("2.log", fs.File "two");
                        ("notes.txt", fs.File "n")])]).

(** A directory whose name ends in [.log] is listed before a log file. *)
Definition directoryFirst : World :=
  worldOf (fs.Dir
    [("main", fs.Dir []);
     ("wt", iterations [("a.log", fs.Dir []); ("b.log", fs.File "second")])]).

(** [.ralph-tui] of the project is a regular file. *)
Definition blockedProject : World :=
  worldOf (fs.Dir
    [("main", fs.Dir [(".ralph-tui", fs.File "")]);
     ("wt", iterations [("1.log", fs.File "one")])]).

End LogScenario.

(** * Scripted git, to exercise the worktree functions *)

Module GitScenario.
Import JsString Sys SessionWorktree GitView.

(** A git that answers the listed commands with the given output, fails on
    every other command, and changes nothing. *)
Fixpoint answerOf (answers : list (list string * string)) (args : list string)
    : option string :=
  match answers with
  | [] => None
  | (question, answer) :: rest =>
      if bool_decide (question = args) then Some answer else answerOf rest args
  end.

Definition scripted (answers : list (list string * string))
    (command : string) (args : list string) (cwd : option string) : M string :=
  fun w =>
    match answerOf answers (drop 2 args) with
    | Some out => if String.eqb command "git" then Returned out w
                  else Thrown "spawn ENOENT" w
    | None => Thrown "Command failed" w
    end.

Definition lines (l : list string) : string := JsString.join (String "010"%char "") l.

Definition porcelain : string :=
  lines ["worktree /p/proj"; "HEAD 1111"; "branch refs/heads/main"; "";
         "worktree /p/.ralph-worktrees/proj/s1"; "HEAD 2222";
         "branch refs/heads/ralph-session/s1"; ""].

Definition project (worktrees : list (string * fs.Node)) : World :=
  {| processCwd := "/p/proj";
     root := fs.Dir [("p", fs.Dir [("proj", fs.Dir []);
                                   (".ralph-worktrees",
                                    fs.Dir [("proj", fs.Dir worktrees)])])];
     branches := {["main"; "ralph-session/s1"]};
     statfs := Some (1000000, 4096); console := []; spawned := [];
     undeletable := [] |}.

(** Forty kilobytes free, and no [statfs] at all. *)
Definition lowDisk : World :=
  {| processCwd := "/"; root := fs.Dir []; branches := ∅;
     statfs := Some (10, 4096); console := []; spawned := []; undeletable := [] |}.

Definition noStatfs : World :=
  {| processCwd := "/"; root := fs.Dir []; branches := ∅;
     statfs := None; console := []; spawned := []; undeletable := [] |}.

(** The session branch is checked out in a worktree. *)
Definition listingGit := scripted [(["worktree"; "list"; "--porcelain"], porcelain)].

(** The session branch exists, no worktree has it, and git can attach one. *)
Definition attachingGit :=
  scripted
    [(["worktree"; "list"; "--porcelain"],
      lines ["worktree /p/proj"; "HEAD 1111"; "branch refs/heads/main"; ""]);
     (["show-ref"; "--verify"; "--quiet"; "refs/heads/ralph-session/s1"], "");
     (["worktree"; "prune"], "");
     (["worktree"; "add"; "/p/.ralph-worktrees/proj/s1"; "ralph-session/s1"], "")].

(** No session branch: git creates one with its worktree. *)
Definition creatingGit :=
  scripted
    [(["worktree"; "add"; "-b"; "ralph-session/s1";
       "/p/.ralph-worktrees/proj/s1"; "HEAD"], "")].

(** A git that does remove worktrees and delete branches, except for the
    requests listed as failing. *)
Definition actingGit (failing : list (list string))
    (command : string) (args : list string) (cwd : option string) : M string :=
  fun w =>
    let request := drop 2 args in
    if existsb (fun f => bool_decide (f = request)) failing then
      Thrown "Command failed" w
    else if bool_decide (take 3 request = ["worktree"; "remove"; "--force"]) then
      Returned "" (setRoot (fs.remove (segmentsIn w (nth 3 request "")) (root w)) w)
    else if bool_decide (take 2 request = ["branch"; "-D"]) then
      let name := nth 2 request "" in
      if bool_decide (name ∈ branches w) then
        Returned ("Deleted branch " +:+ name) (setBranches (branches w ∖ {[name]}) w)
      else Thrown ("error: branch '" +:+ name +:+ "' not found") w
    else if bool_decide (request = ["rev-parse"; "--abbrev-ref"; "HEAD"]) then
      Returned (lines ["main"; ""]) w
    else Returned "" w.

(** The worktree is locked: git refuses to remove it, and refuses to delete
    a branch that it still counts as checked out. *)
Definition lockedGit :=
  actingGit [ ["worktree"; "remove"; "--force"; "/p/.ralph-worktrees/proj/s1"];
              ["branch"; "-D"; "ralph-session/s1"] ].

Definition withWorktree : World :=
  project [("s1", fs.Dir [("README.md", fs.File "work")])].

(** The same, with a file of the worktree that cannot be removed. *)
Definition withPinnedFile : World :=
  {| processCwd := processCwd withWorktree; root := root withWorktree;
     branches := branches withWorktree; statfs := statfs withWorktree;
     console := []; spawned := [];
     undeletable := [["p"; ".ralph-worktrees"; "proj"; "s1"; "README.md"]] |}.

End GitScenario.

(** * A project with a PRD inside and a PRD outside *)

Module PrdScenario.
Import Sys.

Definition world : World :=
  {| processCwd := "/p/proj";
     root := fs.Dir [("p", fs.Dir [("proj", fs.Dir [("tasks",
                                      fs.Dir [("prd.json", fs.File "inside")])]);
                                   ("wt", fs.Dir [])]);
                     ("tmp", fs.Dir [("my prd.json", fs.File "outside")])];
     branches := ∅; statfs := None; console := []; spawned := [];
     undeletable := [] |}.

(** The same project once a session has run: the worktree holds its copy of
    the PRD. *)
Definition resumed : World :=
  {| processCwd := "/p/proj";
     root := fs.Dir [("p", fs.Dir [("proj", fs.Dir [("tasks",
                                      fs.Dir [("prd.json", fs.File "inside")])]);
                                   ("wt", fs.Dir [("tasks",
                                      fs.Dir [("prd.json", fs.File "copy")])])])];
     branches := ∅; statfs := None; console := []; spawned := [];
     undeletable := [] |}.

End PrdScenario.

(** A project with a configuration file, and an empty worktree. *)
Module ConfigScenario.
Import Sys.

Definition world : World :=
  {| processCwd := "/p/proj";
     root := fs.Dir [("p", fs.Dir [("proj", fs.Dir [(".ralph-tui",
                                      fs.Dir [("config.toml", fs.File "agent = 'claude'")])]);
                                   ("wt", fs.Dir [])])];
     branches := ∅; statfs := None; console := []; spawned := [];
     undeletable := [] |}.

End ConfigScenario.

(** ** src/sandbox/wrapper.ts *)

Module Sandbox.
Import JsString.

(** [SandboxConfig] of src/sandbox/types.ts, the fields the wrapper reads;
    every one of them is optional. *)
Inductive SandboxMode := auto | bwrap | sandboxExec | off.

Record SandboxConfig := {
  enabled : option bool;
  mode : option SandboxMode;
  network : option bool;
  allowPaths : option (list string);
  readOnlyPaths : option (list string);
}.

(** [AgentSandboxRequirements] *)
Record AgentSandboxRequirements := {
  authPaths : list string;
  binaryPaths : list string;
  runtimePaths : list string;
}.

(** [WrappedCommand] *)
Record WrappedCommand := {
  command : string;
  args : list string;
}.

Definition LINUX_SYSTEM_DIRS : list string :=
  ["/usr"; "/bin"; "/lib"; "/lib64"; "/sbin"; "/etc"].

Definition MACOS_SYSTEM_DIRS : list string :=
  ["/usr"; "/bin"; "/sbin"; "/System"; "/Library"; "/Applications";
   "/private/var/db"; "/private/etc"].

(** [new Set(values)]: the values in the order of their first insertion. *)
Fixpoint setAdd (seen : list string) (values : list string) : list string :=
  match values with
  | [] => seen
  | v :: rest =>
      if existsb (String.eqb v) seen then setAdd seen rest
      else setAdd (seen ++ [v]) rest
  end.

Definition newSet (values : list string) : list string := setAdd [] values.

(** [set.delete(v)] *)
Definition setDelete (v : string) (set : list string) : list string :=
  List.filter (fun x => negb (String.eqb x v)) set.

(** [a ?? b] *)
Definition orElse {A} (a : option A) (b : A) : A :=
  match a with Some x => x | None => b end.

Section WithHost.

(** [existsSync] of node:fs and [process.cwd()]. *)
Variable existsSync : string -> bool.
Variable processCwd : string.

(** [getRequirementPaths] *)
Definition getRequirementPaths (requirements : AgentSandboxRequirements)
    : list string :=
  authPaths requirements ++ binaryPaths requirements ++ runtimePaths requirements.

(** [normalizePaths] *)
Definition normalizePaths (paths : list string) (cwd : string) : list string :=
  let resolved :=
    map (fun p => if path.isAbsolute p then p else path.resolve processCwd [cwd; p])
      (List.filter (fun p => (0 <? String.length (trim p))%nat) paths) in
  newSet resolved.

(** The two sets of [wrapWithBwrap], the second one after the deletions. *)
Definition readWriteSet (config : SandboxConfig) (workDir : string) : list string :=
  newSet (workDir :: normalizePaths (orElse (allowPaths config) []) workDir).

Definition readOnlySet (config : SandboxConfig)
    (requirements : AgentSandboxRequirements) (workDir : string) : list string :=
  fold_left (fun readOnly p => setDelete p readOnly)
    (readWriteSet config workDir)
    (newSet (normalizePaths (orElse (readOnlyPaths config) []) workDir
             ++ normalizePaths (getRequirementPaths requirements) workDir)).

(** [wrapWithBwrap]; [cwd] is [options.cwd]. *)
Definition wrapWithBwrap (config : SandboxConfig)
    (requirements : AgentSandboxRequirements)
    (command : string) (args : list string) (cwd : option string)
    : WrappedCommand :=
  let cwd := orElse cwd processCwd in
  let workDir := path.resolve processCwd [cwd] in
  let bwrapArgs := ["--die-with-parent"; "--dev"; "/dev"; "--proc"; "/proc"] in
  let bwrapArgs :=
    if bool_decide (network config = Some false)
    then bwrapArgs ++ ["--unshare-net"] else bwrapArgs in
  let bwrapArgs :=
    fold_left
      (fun acc dir => if existsSync dir then acc ++ ["--ro-bind"; dir; dir] else acc)
      LINUX_SYSTEM_DIRS bwrapArgs in
  let readWritePaths := readWriteSet config workDir in
  let readOnlyPaths := readOnlySet config requirements workDir in
  let bwrapArgs :=
    fold_left (fun acc p => acc ++ ["--bind"; p; p]) readWritePaths bwrapArgs in
  let bwrapArgs :=
    fold_left (fun acc p => acc ++ ["--ro-bind"; p; p]) readOnlyPaths bwrapArgs in
  let bwrapArgs := bwrapArgs ++ ["--chdir"; workDir; "--"; command] ++ args in
  {| command := "bwrap"; args := bwrapArgs |}.

Definition quote : string := String "034"%char "".

(** [generateSeatbeltProfile]: its lines, before they are joined. *)
Definition seatbeltLines (config : SandboxConfig)
    (requirements : AgentSandboxRequirements) (workDir : string) : list string :=
  let lines :=
    ["(version 1)"; "(deny default)"; "";
     "; Allow process execution and signals";
     "(allow process-exec)"; "(allow process-fork)"; "(allow signal)"; "";
     "; Allow basic system operations";
     "(allow sysctl-read)"; "(allow mach-lookup)"; "(allow ipc-posix-shm)"; ""] in
  (* Network access *)
  let lines :=
    if negb (bool_decide (network config = Some false))
    then lines ++ ["; Allow network access"; "(allow network*)"; ""]
    else lines in
  (* System directories (read-only) *)
  let lines := lines ++ ["; System directories (read-only)"] in
  let lines :=
    fold_left
      (fun acc dir =>
         if existsSync dir
         then acc ++ ["(allow file-read* (subpath " +:+ quote +:+ dir +:+ quote +:+ "))"]
         else acc)
      MACOS_SYSTEM_DIRS lines in
  let lines := lines ++ [""] in
  (* Dev and tmp directories *)
  let lines :=
    lines ++ ["; Device and temporary directories";
              "(allow file-read* file-write* (subpath " +:+ quote +:+ "/dev" +:+ quote +:+ "))";
              "(allow file-read* file-write* (subpath " +:+ quote +:+ "/private/tmp" +:+ quote +:+ "))";
              "(allow file-read* file-write* (subpath " +:+ quote +:+ "/tmp" +:+ quote +:+ "))";
              "(allow file-read* file-write* (subpath " +:+ quote +:+ "/var/folders" +:+ quote +:+ "))";
              ""] in
  (* Working directory (read-write) *)
  let lines :=
    lines ++ ["; Working directory (read-write)";
              "(allow file-read* file-write* (subpath " +:+ quote +:+ workDir +:+ quote +:+ "))"] in
  (* Additional allowed paths (read-write) *)
  let allowed := normalizePaths (orElse (allowPaths config) []) workDir in
  let lines :=
    fold_left
      (fun acc p =>
         if negb (String.eqb p workDir)
         then acc ++ ["(allow file-read* file-write* (subpath " +:+ quote +:+ p +:+ quote +:+ "))"]
         else acc)
      allowed lines in
  let lines := lines ++ [""] in
  (* Read-only paths (from config and agent requirements) *)
  let lines := lines ++ ["; Read-only paths (auth, runtime, config)"] in
  let readOnly :=
    newSet (normalizePaths (orElse (readOnlyPaths config) []) workDir
            ++ normalizePaths (getRequirementPaths requirements) workDir) in
  fold_left
    (fun acc p =>
       if existsSync p
       then acc ++ ["(allow file-read* (subpath " +:+ quote +:+ p +:+ quote +:+ "))"]
       else acc)
    readOnly lines.

Definition generateSeatbeltProfile (config : SandboxConfig)
    (requirements : AgentSandboxRequirements) (workDir : string) : string :=
  JsString.join (String "010"%char "") (seatbeltLines config requirements workDir).

(** [wrapWithSandboxExec] *)
Definition wrapWithSandboxExec (config : SandboxConfig)
    (requirements : AgentSandboxRequirements)
    (command : string) (args : list string) (cwd : option string)
    : WrappedCommand :=
  let cwd := orElse cwd processCwd in
  let workDir := path.resolve processCwd [cwd] in
  let profile := generateSeatbeltProfile config requirements workDir in
  (* Use -p to pass profile inline *)
  {| command := "sandbox-exec"; args := ["-p"; profile; command] ++ args |}.

(** [wrapCommand] *)
Definition wrapCommand (config : SandboxConfig)
    (requirements : AgentSandboxRequirements)
    (command : string) (args : list string) (cwd : option string)
    : WrappedCommand :=
  if bool_decide (enabled config = Some false)
     || match mode config with Some off => true | _ => false end
  then {| command := command; args := args |}
  else
    let mode := orElse (mode config) auto in
    match mode with
    | bwrap => wrapWithBwrap config requirements command args cwd
    | sandboxExec => wrapWithSandboxExec config requirements command args cwd
    | _ => {| command := command; args := args |}
    end.

End WithHost.

End Sandbox.

(** ** src/session-worktree.ts: the name of a session *)

Module SessionName.
Import JsString.

(** [[\s~^:?*\[\\@{]] *)
Definition isInvalidChar (c : ascii) : bool :=
  isWhiteSpace c
  || existsb (Ascii.eqb c)
       ["~"; "^"; ":"; "?"; "*"; "["; "092"; "@"; "{"]%char.

(** [\p{Cc}]: the C0 controls, DEL and the C1 controls. *)
Definition isControl (c : ascii) : bool :=
  let n := nat_of_ascii c in
  (n <=? 31)%nat || ((127 <=? n)%nat && (n <=? 159)%nat).

(** [[./-]] *)
Definition isEdgeChar (c : ascii) : bool :=
  Ascii.eqb c "."%char || Ascii.eqb c "/"%char || Ascii.eqb c "-"%char.

(** [[a-zA-Z0-9]] *)
Definition isAlphaNumeric (c : ascii) : bool := isAlpha c || isDigit c.

(** [s.replace(/[class]/g, '')] *)
Fixpoint removeChars (p : ascii -> bool) (s : string) : string :=
  match s with
  | EmptyString => EmptyString
  | String c s' => if p c then removeChars p s' else String c (removeChars p s')
  end.

(** [s.replace(/^[class]+/, '')] *)
Fixpoint dropLeading (p : ascii -> bool) (s : string) : string :=
  match s with
  | EmptyString => EmptyString
  | String c s' => if p c then dropLeading p s' else s
  end.

(** [s.replace(/[class]+$/, '')] *)
Fixpoint dropTrailing (p : ascii -> bool) (s : string) : string :=
  match s with
  | EmptyString => EmptyString
  | String c s' =>
      match dropTrailing p s' with
      | EmptyString => if p c then EmptyString else String c EmptyString
      | rest => String c rest
      end
  end.

(** The alphabet of base64. *)
Definition base64Char (n : Z) : ascii :=
  ascii_of_nat (Z.to_nat
    (if n <? 26 then 65 + n
     else if n <? 52 then 97 + (n - 26)
     else if n <? 62 then 48 + (n - 52)
     else if n =? 62 then 43 else 47)).

(** [buffer.toString('base64')] *)
Fixpoint base64 (bytes : list Z) : string :=
  match bytes with
  | [] => EmptyString
  | [a] =>
      String (base64Char (Z.shiftr a 2))
        (String (base64Char (Z.shiftl (Z.land a 3) 4)) "==")
  | [a; b] =>
      String (base64Char (Z.shiftr a 2))
        (String (base64Char (Z.lor (Z.shiftl (Z.land a 3) 4) (Z.shiftr b 4)))
           (String (base64Char (Z.shiftl (Z.land b 15) 2)) "="))
  | a :: b :: c :: rest =>
      String (base64Char (Z.shiftr a 2))
        (String (base64Char (Z.lor (Z.shiftl (Z.land a 3) 4) (Z.shiftr b 4)))
           (String (base64Char (Z.lor (Z.shiftl (Z.land b 15) 2) (Z.shiftr c 6)))
              (String (base64Char (Z.land c 63)) (base64 rest))))
  end.

(** [sanitizeBranchSegment] *)
Definition sanitizeBranchSegment (input : string) : string :=
  (* Replace spaces and invalid characters with dashes *)
  let sanitized := replaceOutside (fun c => negb (isInvalidChar c)) "-"%char input in
  (* Remove control characters *)
  let sanitized := removeChars isControl sanitized in
  (* Collapse multiple slashes and dashes *)
  let sanitized := collapseRuns "-"%char (collapseRuns "/"%char sanitized) in
  (* Remove consecutive dots *)
  let sanitized := collapseRuns "."%char sanitized in
  (* Strip leading/trailing slashes, dots, and dashes *)
  let sanitized := dropTrailing isEdgeChar (dropLeading isEdgeChar sanitized) in
  (* Don't end with .lock *)
  let sanitized :=
    match stripSuffix ".lock" sanitized with
    | Some stem => stem
    | None => sanitized
    end in
  if truthy sanitized then sanitized
  else
    let fallback :=
      sliceTo 8
        (removeChars (fun c => negb (isAlphaNumeric c)) (base64 (crypto.utf8 input))) in
    if truthy fallback then fallback else "session".

(** The options of [deriveSessionName]. *)
Record SessionNameOptions := {
  customName : option string;
  epicId : option string;
  prdPath : option string;
  sessionId : string;
}.

(** [if (value)] for an optional string: given and not empty. *)
Definition given (value : option string) : option string :=
  match value with
  | Some s => if truthy s then Some s else None
  | None => None
  end.

(** [deriveSessionName] *)
Definition deriveSessionName (options : SessionNameOptions) : string :=
  match given (customName options) with
  | Some name => sanitizeBranchSegment name
  | None =>
      match given (epicId options) with
      | Some epic => sanitizeBranchSegment epic
      | None =>
          match given (prdPath options) with
          | Some prd =>
              let basename := path.basename prd (Some (path.extname prd)) in
              sanitizeBranchSegment basename
          | None =>
              (* Fallback: first 8 chars of session UUID *)
              sliceTo 8 (sessionId options)
          end
      end
  end.

(** What git refuses in a branch name and [sanitizeBranchSegment] takes care
    of: an invalid or control character. *)
Definition isBranchChar (c : ascii) : bool :=
  negb (isInvalidChar c) && negb (isControl c).

(** The first character, if there is one, is none of [.], [/] and [-]. *)
Definition startsClean (s : string) : bool :=
  match s with
  | EmptyString => true
  | String c _ => negb (isEdgeChar c)
  end.

(** The last character, if there is one, is none of [.], [/] and [-]. *)
Fixpoint endsClean (s : string) : bool :=
  match s with
  | EmptyString => true
  | String c EmptyString => negb (isEdgeChar c)
  | String _ s' => endsClean s'
  end.

(** A name that is not empty, is made of characters a branch name may hold,
    has neither two dots nor two slashes in a row and begins with none of
    [.], [/] and [-]. *)
Definition isBranchSegment (name : string) : bool :=
  truthy name && all isBranchChar name
  && Text.noRun "."%char name && Text.noRun "/"%char name
  && startsClean name.

(** A branch segment that, besides, has no two dashes in a row and ends with
    none of [.], [/] and [-]. *)
Definition isCleanName (name : string) : bool :=
  isBranchSegment name && Text.noRun "-"%char name && endsClean name.

End SessionName.

(** * Properties *)

(** ** Fast-path conflict resolution *)

Section FastPath.
Import JsString AiResolver.

Lemma trimEnd_empty_iff s : trimEnd s = "" <-> all isWhiteSpace s = true.
Proof.
  induction s as [|c s IH]; simpl; [tauto|].
  destruct (trimEnd s) eqn:E.
  - destruct (isWhiteSpace c); simpl; [tauto|].
    split; intros H; discriminate H.
  - split; [intros H; discriminate H|].
    intros [_ H]%andb_true_iff. apply IH in H. discriminate H.
Qed.

Lemma trimStart_all_ws s : all isWhiteSpace (trimStart s) = all isWhiteSpace s.
Proof.
  induction s as [|c s IH]; simpl; [reflexivity|].
  destruct (isWhiteSpace c) eqn:E; simpl; [exact IH|].
  rewrite E. reflexivity.
Qed.

(** A string trims to the empty string exactly when it is made of white
    space only. *)
Lemma trim_empty_iff s : trim s = "" <-> all isWhiteSpace s = true.
Proof. unfold trim. rewrite trimEnd_empty_iff, trimStart_all_ws. tauto. Qed.

Lemma blank_eqb s : String.eqb (trim s) "" = true <-> blank s.
Proof. apply String.eqb_eq. Qed.

Lemma tryFastPathResolution_cases (c : FileConflict) :
  tryFastPathResolution c =
    if String.eqb (trim (oursContent c)) "" then
      if String.eqb (trim (theirsContent c)) "" then
        if String.eqb (oursContent c) (theirsContent c)
        then Some (oursContent c) else None
      else Some (theirsContent c)
    else
      if String.eqb (trim (theirsContent c)) "" then Some (oursContent c)
      else if String.eqb (oursContent c) (theirsContent c)
           then Some (oursContent c) else None.
Proof.
  unfold tryFastPathResolution.
  destruct (String.eqb (trim (oursContent c)) ""),
           (String.eqb (trim (theirsContent c)) ""); reflexivity.
Qed.

(** The unit tests of [tryFastPathResolution]. *)
Example test_returns_theirs_when_ours_is_empty :
  tryFastPathResolution (conflictOf "" "const x = 1;") = Some "const x = 1;".
Proof. reflexivity. Qed.

Example test_returns_theirs_when_ours_is_whitespace_only :
  tryFastPathResolution
    (conflictOf ("   " +:+ nl +:+ "  " +:+ String "009"%char "  ") "const x = 1;")
  = Some "const x = 1;".
Proof. reflexivity. Qed.

Example test_returns_ours_when_theirs_is_whitespace_only :
  tryFastPathResolution
    (conflictOf "const x = 1;" ("  " +:+ nl +:+ String "009"%char "  "))
  = Some "const x = 1;".
Proof. reflexivity. Qed.

Example test_returns_ours_when_both_sides_are_identical :
  tryFastPathResolution (conflictOf "const x = 1;" "const x = 1;")
  = Some "const x = 1;".
Proof. reflexivity. Qed.

Example test_returns_null_when_both_sides_differ :
  tryFastPathResolution (conflictOf "const x = 1;" "const x = 2;") = None.
Proof. reflexivity. Qed.

(** The unit tests of [extractResolvedContent]. *)
Example test_returns_trimmed_content :
  extractResolvedContent ("  const x = 1;  " +:+ nl) = Some "const x = 1;".
Proof. reflexivity. Qed.

Example test_strips_markdown_code_fences :
  extractResolvedContent
    ("```typescript" +:+ nl +:+ "const x = 1;" +:+ nl +:+ "```")
  = Some "const x = 1;".
Proof. reflexivity. Qed.

Example test_strips_plain_markdown_fences :
  extractResolvedContent ("```" +:+ nl +:+ "const x = 1;" +:+ nl +:+ "```")
  = Some "const x = 1;".
Proof. reflexivity. Qed.

Example test_handles_multiline_content_within_fences :
  extractResolvedContent
    ("```typescript" +:+ nl +:+ "const x = 1;" +:+ nl +:+ "const y = 2;"
     +:+ nl +:+ "```")
  = Some ("const x = 1;" +:+ nl +:+ "const y = 2;").
Proof. reflexivity. Qed.

Example test_returns_null_for_whitespace_only_content :
  extractResolvedContent ("   " +:+ nl +:+ String "009"%char "  ") = None.
Proof. reflexivity. Qed.

Example test_content_that_looks_like_fences_but_is_not :
  extractResolvedContent "```not a fence because no closing"
  = Some "```not a fence because no closing".
Proof. reflexivity. Qed.

(** C2, as the specification states it, fails: both sides are made of white
    space only (so at least one is), they differ, and the fast path gives
    up.  Here ours is one space and theirs is empty. *)
Lemma fast_path_totality_fails :
  let c := conflictOf " " "" in
  (blank (oursContent c) \/ blank (theirsContent c)
   \/ oursContent c = theirsContent c)
  /\ tryFastPathResolution c = None.
Proof. split; [left|]; reflexivity. Qed.

(** C2, amended: the fast path resolves a conflict exactly when one side
    is white space only and the other is not, or when both sides are equal;
    it then returns the side that is not blank, respectively ours.  Two
    different blank sides are left to the agent. *)
Theorem fast_path_resolves_iff (c : FileConflict) :
  (is_Some (tryFastPathResolution c) <->
     (blank (oursContent c) /\ ~ blank (theirsContent c))
     \/ (~ blank (oursContent c) /\ blank (theirsContent c))
     \/ oursContent c = theirsContent c)
  /\ (blank (oursContent c) -> ~ blank (theirsContent c) ->
      tryFastPathResolution c = Some (theirsContent c))
  /\ (~ blank (oursContent c) -> blank (theirsContent c) ->
      tryFastPathResolution c = Some (oursContent c))
  /\ (oursContent c = theirsContent c ->
      tryFastPathResolution c = Some (oursContent c))
  /\ (blank (oursContent c) -> blank (theirsContent c) ->
      oursContent c <> theirsContent c ->
      tryFastPathResolution c = None).
Proof.
  rewrite tryFastPathResolution_cases. unfold blank.
  destruct (String.eqb_spec (trim (oursContent c)) "") as [Ho|Ho],
           (String.eqb_spec (trim (theirsContent c)) "") as [Ht|Ht],
           (String.eqb_spec (oursContent c) (theirsContent c)) as [E|E];
    repeat split; intros;
    try (eexists; reflexivity); try tauto; try congruence;
    try (rewrite E; reflexivity);
    try match goal with H : is_Some None |- _ => destruct H as [? H]; discriminate H end.
Qed.

(** The amended statement at a two-blank conflict and at the tests'
    conflicts. *)
Lemma fast_path_resolves_iff_witness :
  tryFastPathResolution (conflictOf "" "const x = 1;") = Some "const x = 1;"
  /\ tryFastPathResolution (conflictOf " " "") = None.
Proof.
  split.
  - destruct (fast_path_resolves_iff (conflictOf "" "const x = 1;"))
      as (_ & H & _).
    apply H; [reflexivity | intros E; discriminate E].
  - destruct (fast_path_resolves_iff (conflictOf " " ""))
      as (_ & _ & _ & _ & H).
    apply H; [reflexivity | reflexivity | intros E; discriminate E].
Defined.

(** [extractResolvedContent] never returns the empty string. *)
Lemma extractResolvedContent_nonempty stdout r :
  extractResolvedContent stdout = Some r -> r <> "".
Proof.
  unfold extractResolvedContent.
  destruct (fenceMatch (trim stdout)) as [inner|];
    [destruct inner | destruct (trim stdout)]; simpl; congruence.
Qed.

(** C10: two empty sides take the fast path and resolve to the empty
    file, whatever the other fields of the conflict are: the resolver
    returns the empty string without asking the agent.  The agent path
    could not have produced it: it rejects empty output. *)
Theorem fast_path_both_empty (path base markers : string) :
  let c := {| filePath := path; oursContent := ""; theirsContent := "";
              baseContent := base; conflictMarkers := markers |} in
  tryFastPathResolution c = Some ""
  /\ (forall agentRun taskId taskTitle,
        createAiResolver agentRun c taskId taskTitle = (Some "", false))
  /\ (forall stdout, extractResolvedContent stdout <> Some "")
  /\ (forall agentRun c' taskId taskTitle,
        tryFastPathResolution c' = None ->
        fst (createAiResolver agentRun c' taskId taskTitle) <> Some "").
Proof.
  simpl. repeat split.
  - intros stdout H. apply extractResolvedContent_nonempty in H. congruence.
  - intros agentRun c' taskId taskTitle Hfast.
    unfold createAiResolver. rewrite Hfast.
    destruct (agentRun _) as [res|]; simpl; [|discriminate].
    destruct (negb (isCompleted (status res)) || _); simpl; [discriminate|].
    intros H. apply extractResolvedContent_nonempty in H. congruence.
Qed.

Lemma fast_path_both_empty_witness :
  fst (createAiResolver
         (fun _ => Some {| status := completed; exitCode := Some 0; stdout := "" |})
         (conflictOf "a" "b") "T-1" "title") <> Some "".
Proof.
  destruct (fast_path_both_empty "test.ts" "" "") as (_ & _ & _ & H).
  apply H. reflexivity.
Defined.

End FastPath.

(** ** Resume: the tracker-mismatch warning *)

Section ResumeFacts.
Import Resume.

(** The cases of the test file and of section 8 of the specification. *)
Example mismatch_0_130 : shouldWarnAboutTrackerMismatch 0 130 = true.
Proof. reflexivity. Qed.
Example mismatch_0_1 : shouldWarnAboutTrackerMismatch 0 1 = true.
Proof. reflexivity. Qed.
Example mismatch_0_0 : shouldWarnAboutTrackerMismatch 0 0 = false.
Proof. reflexivity. Qed.
Example mismatch_1_1 : shouldWarnAboutTrackerMismatch 1 1 = false.
Proof. reflexivity. Qed.
Example mismatch_22_130 : shouldWarnAboutTrackerMismatch 22 130 = false.
Proof. reflexivity. Qed.
Example mismatch_150_130 : shouldWarnAboutTrackerMismatch 150 130 = false.
Proof. reflexivity. Qed.
Example mismatch_1_0 : shouldWarnAboutTrackerMismatch 1 0 = false.
Proof. reflexivity. Qed.

(** C1: the warning predicate is true exactly when the engine has no task
    and the session knows of at least one; it is false whenever the engine
    has a task (whatever the session knows), whenever the two counts are
    equal, and whenever the session knows of none. *)
Theorem shouldWarnAboutTrackerMismatch_iff (engine session : Z) :
  (shouldWarnAboutTrackerMismatch engine session = true
     <-> engine = 0 /\ 0 < session)
  /\ (engine <> 0 -> shouldWarnAboutTrackerMismatch engine session = false)
  /\ (session <= 0 -> shouldWarnAboutTrackerMismatch engine session = false)
  /\ shouldWarnAboutTrackerMismatch engine engine = false.
Proof.
  unfold shouldWarnAboutTrackerMismatch.
  destruct (Z.eqb_spec engine 0) as [E|E]; simpl.
  - subst engine. destruct (Z.ltb_spec 0 session) as [L|L].
    + repeat split; auto; lia.
    + repeat split; auto; try lia; intros H; discriminate H.
  - repeat split; auto; try lia; intros H; discriminate H.
Qed.

Lemma shouldWarnAboutTrackerMismatch_iff_witness :
  shouldWarnAboutTrackerMismatch 22 130 = false
  /\ shouldWarnAboutTrackerMismatch 1 0 = false.
Proof.
  split.
  - destruct (shouldWarnAboutTrackerMismatch_iff 22 130) as (_ & H & _).
    apply H. lia.
  - destruct (shouldWarnAboutTrackerMismatch_iff 1 0) as (_ & _ & H & _).
    apply H. lia.
Defined.

End ResumeFacts.

(** ** Flag ordering *)

Section FlagOrdering.
Import AgentFlags.

(** The three tests of "BaseAgentPlugin flag ordering". *)
Example test_engine_flags_come_after_buildArgs :
  let agent := setModel "agent-model" (setScriptPath "print-args.sh" (initialize [])) in
  let args := allArgs agent (withFlags ["--model"; "engine-model"]) in
  args = ["--model"; "agent-model"; "--model"; "engine-model"]
  /\ indexOf "agent-model" args = Some 1%nat
  /\ lastIndexOf "engine-model" args = Some 3%nat.
Proof. repeat split. Qed.

Example test_defaultFlags_come_before_buildArgs :
  let agent :=
    setModel "agent-model" (setScriptPath "print-args.sh" (initialize ["--default-flag"])) in
  let args := allArgs agent withoutFlags in
  indexOf "--default-flag" args = Some 0%nat
  /\ indexOf "agent-model" args = Some 2%nat.
Proof. repeat split. Qed.

Example test_full_ordering :
  let agent :=
    setModel "agent-model" (setScriptPath "print-args.sh" (initialize ["--verbose"])) in
  let argv := execute agent (withFlags ["--model"; "engine-model"]) in
  argv = ["print-args.sh"; "--verbose"; "--model"; "agent-model";
          "--model"; "engine-model"]
  /\ parseArgs (printArgs (tail argv)) = tail argv
  /\ indexOf "--verbose" (tail argv) = Some 0%nat
  /\ indexOf "agent-model" (tail argv) = Some 2%nat
  /\ lastIndexOf "engine-model" (tail argv) = Some 4%nat
  /\ lastFlagValue "--model" (tail argv) = Some "engine-model".
Proof. repeat split. Qed.

Lemma lastFlagValue_app_r flag pre args v :
  lastFlagValue flag args = Some v ->
  lastFlagValue flag (pre ++ args) = Some v.
Proof.
  intros H. induction pre as [|a pre IH]; simpl; [exact H|].
  rewrite IH. reflexivity.
Qed.

Lemma lastFlagValue_pair flag v : lastFlagValue flag [flag; v] = Some v.
Proof.
  simpl. rewrite String.eqb_refl.
  destruct (String.eqb v flag); reflexivity.
Qed.

(** C3: the merged argument list is the default flags, then what
    [buildArgs] returns, then the engine-injected flags, in that order, and
    the spawned command line is the command followed by that list.  Hence
    every engine flag sits behind every default and adapter flag, and a
    flag whose last occurrence among the engine flags has value [x] has
    value [x] in the whole list: an engine-injected [--model x] wins over
    any [--model y] of [buildArgs] under last-flag-wins. *)
Theorem engine_flags_come_last (p : FlagOrderTestPlugin)
    (options : option AgentExecuteOptions) :
  let d := defaultFlags p in
  let b := buildArgs p in
  let e := engineFlags options in
  allArgs p options = d ++ b ++ e
  /\ execute p options = command p :: d ++ b ++ e
  /\ (forall i a, d !! i = Some a -> allArgs p options !! i = Some a)
  /\ (forall i a, b !! i = Some a ->
        allArgs p options !! (length d + i)%nat = Some a)
  /\ (forall i a, e !! i = Some a ->
        allArgs p options !! (length d + length b + i)%nat = Some a)
  /\ (forall flag x, lastFlagValue flag e = Some x ->
        lastFlagValue flag (allArgs p options) = Some x)
  /\ (forall x y, b = ["--model"; y] -> e = ["--model"; x] ->
        allArgs p options = d ++ ["--model"; y; "--model"; x]
        /\ lastFlagValue "--model" (allArgs p options) = Some x).
Proof.
  intros d b e. unfold execute, allArgs. fold d b e.
  split; [reflexivity|]. split; [reflexivity|].
  split; [|split; [|split; [|split]]].
  - intros i a H. apply lookup_app_l_Some. exact H.
  - intros i a H. rewrite lookup_app_r by lia.
    replace (length d + i - length d)%nat with i by lia.
    apply lookup_app_l_Some. exact H.
  - intros i a H. rewrite lookup_app_r by lia.
    rewrite lookup_app_r by lia.
    replace (length d + length b + i - length d - length b)%nat with i by lia.
    exact H.
  - intros flag x H. rewrite app_assoc. apply lastFlagValue_app_r. exact H.
  - intros x y -> ->. split; [reflexivity|].
    rewrite app_assoc. apply lastFlagValue_app_r, lastFlagValue_pair.
Qed.

Lemma engine_flags_come_last_witness :
  lastFlagValue "--model"
    (allArgs (setModel "agent-model" (initialize ["--verbose"]))
       (withFlags ["--model"; "engine-model"]))
  = Some "engine-model".
Proof.
  destruct (engine_flags_come_last
              (setModel "agent-model" (initialize ["--verbose"]))
              (withFlags ["--model"; "engine-model"]))
    as (_ & _ & _ & _ & _ & _ & H).
  apply (H "engine-model" "agent-model"); reflexivity.
Defined.

End FlagOrdering.

(** ** Dotted-child ordering *)

Section OrderingExamples.
Import TaskOrdering.

Example parse_child : parseChildTaskId "epic-1.12"
  = Some {| rawId := "epic-1.12"; prefix := "epic-1"; issueNumber := 12 |}.
Proof. reflexivity. Qed.

Example parse_nested : parseChildTaskId "a.b.007"
  = Some {| rawId := "a.b.007"; prefix := "a.b"; issueNumber := 7 |}.
Proof. reflexivity. Qed.

Example parse_not_child : parseChildTaskId "epic-1" = None
  /\ parseChildTaskId "epic.1a" = None /\ parseChildTaskId "epic." = None.
Proof. repeat split. Qed.

Example round_exact : roundToDouble (2 ^ 53 + 1) = Some (2 ^ 53)
  /\ roundToDouble (2 ^ 53 + 3) = Some (2 ^ 53 + 4)
  /\ roundToDouble (2 ^ 1024 - 2 ^ 970 - 1) = Some (2 ^ 1024 - 2 ^ 971)
  /\ roundToDouble (2 ^ 1024 - 2 ^ 970) = None.
Proof. repeat split; vm_compute; reflexivity. Qed.

Example sort_mixed :
  sortDottedChildTaskIds codeUnitCompare
    ["e.10"; "other"; "e.2"; "solo"; "e.1"; "d.3"]
  = ["d.3"; "other"; "e.1"; "solo"; "e.2"; "e.10"].
Proof. vm_compute. reflexivity. Qed.

End OrderingExamples.

(** *** Sorting with a comparator that is a total preorder *)

Section ArraySortFacts.
Import TaskOrdering.
Context {A : Type} (compareFn : A -> A -> Z).

Local Abbreviation notAfter := (notAfter compareFn).

Hypothesis compare_total : forall a b, 0 < compareFn a b -> compareFn b a <= 0.
Hypothesis compare_trans : forall a b c,
  compareFn a b <= 0 -> compareFn b c <= 0 -> compareFn a c <= 0.

Lemma sortInsert_perm x l : Permutation (sortInsert compareFn x l) (x :: l).
Proof.
  induction l as [|y l IH]; simpl; [reflexivity|].
  destruct (compareFn x y <=? 0); [reflexivity|].
  rewrite IH. apply perm_swap.
Qed.

Lemma arraySort_perm l : Permutation (arraySort compareFn l) l.
Proof.
  induction l as [|x l IH]; simpl; [reflexivity|].
  rewrite sortInsert_perm, IH. reflexivity.
Qed.

Lemma arraySort_length l : length (arraySort compareFn l) = length l.
Proof. apply Permutation_length, arraySort_perm. Qed.

Lemma sortInsert_hd x y l :
  notAfter y x -> HdRel notAfter y l -> HdRel notAfter y (sortInsert compareFn x l).
Proof.
  intros Hyx Hhd. destruct l as [|z l]; simpl; [constructor; exact Hyx|].
  destruct (compareFn x z <=? 0); constructor; [exact Hyx|].
  inversion Hhd; assumption.
Qed.

Lemma sortInsert_sorted x l :
  Sorted notAfter l -> Sorted notAfter (sortInsert compareFn x l).
Proof.
  induction 1 as [|y l Hs IH Hhd]; simpl; [repeat constructor|].
  destruct (Z.leb_spec (compareFn x y) 0) as [Hle|Hgt].
  - constructor; [constructor; assumption|]. constructor. exact Hle.
  - constructor; [exact IH|].
    apply sortInsert_hd; [|exact Hhd]. apply compare_total. exact Hgt.
Qed.

Lemma arraySort_sorted l : Sorted notAfter (arraySort compareFn l).
Proof.
  induction l as [|x l IH]; simpl; [constructor|].
  apply sortInsert_sorted, IH.
Qed.

Lemma arraySort_strongly_sorted l : StronglySorted notAfter (arraySort compareFn l).
Proof.
  apply Sorted_StronglySorted; [|apply arraySort_sorted].
  intros a b c. apply compare_trans.
Qed.

(** Sorting is stable, so a sorted array is left as it is. *)
Lemma arraySort_sorted_id l : Sorted notAfter l -> arraySort compareFn l = l.
Proof.
  induction 1 as [|x l Hs IH Hhd]; simpl; [reflexivity|].
  rewrite IH. destruct Hhd as [|y l' Hxy]; simpl; [reflexivity|].
  unfold notAfter in Hxy. destruct (Z.leb_spec (compareFn x y) 0); [reflexivity|lia].
Qed.

Lemma arraySort_short l : (length l < 2)%nat -> arraySort compareFn l = l.
Proof.
  destruct l as [|x [|y l]]; simpl; intros Hl; try reflexivity. lia.
Qed.

End ArraySortFacts.

(** *** The comparator of parsed child ids *)

Section OrderingFacts.
Import TaskOrdering.
Variable localeCompare : string -> string -> Z.

(** What is assumed of the host's collation: it is a total preorder. *)
Hypothesis localeCompare_antisym : forall a b,
  Z.sgn (localeCompare a b) = - Z.sgn (localeCompare b a).
Hypothesis localeCompare_trans : forall a b c,
  localeCompare a b <= 0 -> localeCompare b c <= 0 -> localeCompare a c <= 0.

Local Abbreviation compareIds := (compareParsedChildIds localeCompare).

Lemma localeCompare_flip a b :
  (localeCompare a b < 0 <-> 0 < localeCompare b a)
  /\ (localeCompare a b = 0 <-> localeCompare b a = 0)
  /\ (0 < localeCompare a b <-> localeCompare b a < 0).
Proof.
  pose proof (localeCompare_antisym a b) as H.
  destruct (Z.sgn_spec (localeCompare a b)) as [[? E1]|[[? E1]|[? E1]]],
           (Z.sgn_spec (localeCompare b a)) as [[? E2]|[[? E2]|[? E2]]];
    rewrite E1, E2 in H; lia.
Qed.

Lemma localeCompare_refl a : localeCompare a a = 0.
Proof. pose proof (localeCompare_flip a a). lia. Qed.

Lemma compareIds_total a b : 0 < compareIds a b -> compareIds b a <= 0.
Proof.
  unfold compareParsedChildIds.
  pose proof (localeCompare_flip (prefix a) (prefix b)).
  pose proof (localeCompare_flip (rawId a) (rawId b)).
  destruct (Z.eqb_spec (localeCompare (prefix a) (prefix b)) 0),
           (Z.eqb_spec (localeCompare (prefix b) (prefix a)) 0),
           (Z.eqb_spec (issueNumber a) (issueNumber b)),
           (Z.eqb_spec (issueNumber b) (issueNumber a)); simpl; lia.
Qed.

Lemma compareIds_trans a b c :
  compareIds a b <= 0 -> compareIds b c <= 0 -> compareIds a c <= 0.
Proof.
  unfold compareParsedChildIds.
  pose proof (localeCompare_flip (prefix a) (prefix b)).
  pose proof (localeCompare_flip (prefix b) (prefix c)).
  pose proof (localeCompare_flip (prefix a) (prefix c)).
  pose proof (localeCompare_trans (prefix a) (prefix b) (prefix c)).
  pose proof (localeCompare_trans (prefix b) (prefix c) (prefix a)).
  pose proof (localeCompare_trans (prefix c) (prefix a) (prefix b)).
  pose proof (localeCompare_trans (rawId a) (rawId b) (rawId c)).
  destruct (Z.eqb_spec (localeCompare (prefix a) (prefix b)) 0),
           (Z.eqb_spec (localeCompare (prefix b) (prefix c)) 0),
           (Z.eqb_spec (localeCompare (prefix a) (prefix c)) 0),
           (Z.eqb_spec (issueNumber a) (issueNumber b)),
           (Z.eqb_spec (issueNumber b) (issueNumber c)),
           (Z.eqb_spec (issueNumber a) (issueNumber c)); simpl; lia.
Qed.

(** Two ids with the same prefix are compared by their issue numbers. *)
Lemma compareIds_same_prefix a b :
  prefix a = prefix b -> compareIds a b <= 0 -> issueNumber a <= issueNumber b.
Proof.
  unfold compareParsedChildIds. intros ->.
  rewrite localeCompare_refl. simpl.
  destruct (Z.eqb_spec (issueNumber a) (issueNumber b)); simpl; lia.
Qed.

(** *** Refilling the dotted positions *)

Context {T : Type} `{TaskWithId T}.

Local Abbreviation compareEntries :=
  (fun a b : ChildEntry (T:=T) => compareIds (parsed a) (parsed b)).
Local Abbreviation sortedEntries tasks :=
  (arraySort compareEntries (collectChildEntries 0 tasks)).

Lemma collect_wellParsed k (tasks : list T) :
  Forall wellParsed (collectChildEntries k tasks).
Proof.
  revert k. induction tasks as [|t tasks IH]; intros k; simpl; [constructor|].
  destruct (parseChildTaskId (id t)) eqn:E; [|apply IH].
  constructor; [exact E | apply IH].
Qed.

Lemma collect_tasks k (tasks : list T) :
  map task (collectChildEntries k tasks) = childTasks tasks.
Proof.
  revert k. induction tasks as [|t tasks IH]; intros k; simpl; [reflexivity|].
  unfold isChildTask. destruct (parseChildTaskId (id t)); simpl; rewrite IH; reflexivity.
Qed.

Lemma wellParsed_same_tasks (es1 es2 : list (ChildEntry (T:=T))) :
  Forall wellParsed es1 -> Forall wellParsed es2 ->
  map task es1 = map task es2 -> map parsed es1 = map parsed es2.
Proof.
  intros H1. revert es2. induction H1 as [|e1 es1 He1 _ IH]; intros es2 H2 Hm.
  - destruct es2; [reflexivity | discriminate Hm].
  - destruct H2 as [|e2 es2 He2 H2]; [discriminate Hm|].
    simpl in Hm. injection Hm as Ht Hm. simpl. f_equal; [|apply IH; assumption].
    unfold wellParsed in He1, He2. rewrite Ht in He1. congruence.
Qed.

Lemma sorted_by_parsed (es : list (ChildEntry (T:=T))) :
  Sorted (notAfter compareEntries) es
  <-> Sorted (notAfter compareIds) (map parsed es).
Proof.
  induction es as [|e es IH]; simpl; [split; constructor|].
  split; intros Hs; inversion Hs as [|? ? Hs' Hhd]; subst;
    (constructor; [apply IH; exact Hs'|]);
    destruct es; simpl in *; constructor; inversion Hhd; assumption.
Qed.

Lemma refill_nil (tasks : list T) : refill tasks [] = tasks.
Proof.
  induction tasks as [|t tasks IH]; simpl; [reflexivity|].
  rewrite IH. destruct (isChildTask t); reflexivity.
Qed.

Lemma refill_length (tasks children : list T) :
  length (refill tasks children) = length tasks.
Proof.
  revert children. induction tasks as [|t tasks IH]; intros children; simpl;
    [reflexivity|].
  destruct (isChildTask t); [destruct children|]; simpl; rewrite IH; reflexivity.
Qed.

Lemma refill_childTasks (tasks extra : list T) :
  refill tasks (childTasks tasks ++ extra) = tasks.
Proof.
  induction tasks as [|t tasks IH]; simpl; [reflexivity|].
  destruct (isChildTask t) eqn:E; simpl; rewrite ?E, IH; reflexivity.
Qed.

Lemma childTasks_cons (t : T) (tasks : list T) :
  childTasks (t :: tasks)
  = if isChildTask t then t :: childTasks tasks else childTasks tasks.
Proof. reflexivity. Qed.

Lemma childTasks_refill (tasks children : list T) :
  Forall (fun c => isChildTask c = true) children ->
  length children = length (childTasks tasks) ->
  childTasks (refill tasks children) = children.
Proof.
  revert children. induction tasks as [|t tasks IH]; intros children Hc Hl.
  - destruct children; [reflexivity | discriminate Hl].
  - rewrite childTasks_cons in Hl. simpl.
    destruct (isChildTask t) eqn:E.
    + destruct children as [|c children]; [discriminate Hl|].
      inversion Hc as [|? ? Hc0 Hc']; subst.
      rewrite childTasks_cons, Hc0. f_equal.
      apply IH; [exact Hc' | simpl in Hl; lia].
    + rewrite childTasks_cons, E. apply IH; assumption.
Qed.

Lemma refill_refill (tasks children children' : list T) :
  Forall (fun c => isChildTask c = true) children ->
  (length (childTasks tasks) <= length children')%nat ->
  refill (refill tasks children) children' = refill tasks children'.
Proof.
  revert children children'.
  induction tasks as [|t tasks IH]; intros children children' Hc Hl; simpl;
    [reflexivity|].
  rewrite childTasks_cons in Hl.
  destruct (isChildTask t) eqn:E.
  - destruct children' as [|c' children']; [simpl in Hl; lia|].
    destruct children as [|c children]; simpl.
    + rewrite E, refill_nil. reflexivity.
    + inversion Hc as [|? ? Hc0 Hc']; subst. rewrite Hc0.
      f_equal. apply IH; [exact Hc' | simpl in Hl; lia].
  - simpl. rewrite E. f_equal. apply IH; assumption.
Qed.

(** A position that does not hold a dotted id keeps its task. *)
Lemma refill_lookup_other (tasks children : list T) i t :
  tasks !! i = Some t -> isChildTask t = false ->
  refill tasks children !! i = Some t.
Proof.
  revert children i.
  induction tasks as [|t0 tasks IH]; intros children i Hi Ht; [discriminate Hi|].
  simpl. destruct i as [|i]; simpl in Hi.
  - injection Hi as ->. rewrite Ht. reflexivity.
  - destruct (isChildTask t0); [destruct children|]; simpl; apply IH; assumption.
Qed.

(** The assignments of the last loop fill the dotted positions in order. *)
Lemma fold_assign_refill (pre tasks sortedChildren : list T) :
  fold_left
    (fun result '(originalEntry, sortedTask) =>
       <[index originalEntry := sortedTask]> result)
    (zip (collectChildEntries (length pre) tasks) sortedChildren)
    (pre ++ tasks)
  = pre ++ refill tasks sortedChildren.
Proof.
  revert pre sortedChildren.
  induction tasks as [|t tasks IH]; intros pre sortedChildren; simpl;
    [reflexivity|].
  unfold isChildTask.
  destruct (parseChildTaskId (id t)) eqn:E.
  - destruct sortedChildren as [|c sortedChildren]; simpl.
    + rewrite refill_nil. reflexivity.
    + rewrite insert_app_r_alt by lia.
      replace (length pre - length pre)%nat with 0%nat by lia. simpl.
      specialize (IH (pre ++ [c]) sortedChildren).
      rewrite length_app in IH. simpl in IH.
      replace (length pre + 1)%nat with (S (length pre)) in IH by lia.
      rewrite <- !app_assoc in IH. simpl in IH. exact IH.
  - specialize (IH (pre ++ [t]) sortedChildren).
    rewrite length_app in IH. simpl in IH.
    replace (length pre + 1)%nat with (S (length pre)) in IH by lia.
    rewrite <- !app_assoc in IH. simpl in IH. exact IH.
Qed.

Lemma sortedEntries_tasks (tasks : list T) :
  Permutation (map task (sortedEntries tasks)) (childTasks tasks).
Proof.
  rewrite <- (collect_tasks 0). apply Permutation_map, arraySort_perm.
Qed.

Lemma sortedEntries_children (tasks : list T) :
  Forall (fun c => isChildTask c = true) (map task (sortedEntries tasks))
  /\ length (map task (sortedEntries tasks)) = length (childTasks tasks).
Proof.
  split.
  - eapply Permutation_Forall; [symmetry; apply sortedEntries_tasks|].
    unfold childTasks. apply List.Forall_forall. intros x Hx.
    apply filter_In in Hx. tauto.
  - apply Permutation_length, sortedEntries_tasks.
Qed.

Lemma sortedEntries_wellParsed (tasks : list T) :
  Forall wellParsed (sortedEntries tasks).
Proof.
  eapply Permutation_Forall; [symmetry; apply arraySort_perm|].
  apply collect_wellParsed.
Qed.

(** [sortDottedChildTaskIds] fills the dotted positions with the sorted
    dotted tasks; its two early returns are special cases. *)
Lemma sortDottedChildTaskIds_refill (tasks : list T) :
  sortDottedChildTaskIds localeCompare tasks
  = refill tasks (map task (sortedEntries tasks)).
Proof.
  unfold sortDottedChildTaskIds.
  assert (Hshort : (length (collectChildEntries 0 tasks) < 2)%nat ->
                   tasks = refill tasks (map task (sortedEntries tasks))).
  { intros Hl. rewrite arraySort_short by exact Hl.
    rewrite collect_tasks. rewrite <- (app_nil_r (childTasks tasks)).
    symmetry. apply refill_childTasks. }
  destruct (Nat.ltb_spec (length tasks) 2) as [Hl|Hl].
  - apply Hshort.
    rewrite <- (length_map task), collect_tasks. unfold childTasks.
    pose proof (filter_length_le isChildTask tasks). lia.
  - destruct (Nat.ltb_spec (length (collectChildEntries 0 tasks)) 2) as [Hc|Hc].
    + apply Hshort, Hc.
    + apply (fold_assign_refill [] tasks).
Qed.

Lemma lookup_split_two {B : Type} (l : list B) i j a b :
  (i < j)%nat -> l !! i = Some a -> l !! j = Some b ->
  exists l1 l2 l3, l = l1 ++ a :: l2 ++ b :: l3.
Proof.
  intros Hij Hi Hj.
  pose proof (take_drop_middle l i a Hi) as E1.
  assert (Hj' : drop (S i) l !! (j - S i)%nat = Some b).
  { rewrite lookup_drop. replace (S i + (j - S i))%nat with j by lia. exact Hj. }
  pose proof (take_drop_middle _ _ b Hj') as E2.
  exists (take i l), (take (j - S i) (drop (S i) l)),
         (drop (S (j - S i)) (drop (S i) l)).
  rewrite E2. symmetry. exact E1.
Qed.

Lemma strongly_sorted_before {B : Type} (R : B -> B -> Prop) l1 a l2 b l3 :
  StronglySorted R (l1 ++ a :: l2 ++ b :: l3) -> R a b.
Proof.
  induction l1 as [|x l1 IH]; simpl; intros Hs; inversion Hs as [|? ? Hs' Hall]; subst.
  - apply List.Forall_forall with (x := b) in Hall; [exact Hall|].
    apply in_or_app. right. left. reflexivity.
  - apply IH. exact Hs'.
Qed.

(** Two dotted tasks of the output, in the order they stand there, are in
    the order of the comparator. *)
Lemma output_children_ordered (tasks : list T) i j ti tj pi pj :
  (i < j)%nat ->
  sortDottedChildTaskIds localeCompare tasks !! i = Some ti ->
  sortDottedChildTaskIds localeCompare tasks !! j = Some tj ->
  parseChildTaskId (id ti) = Some pi ->
  parseChildTaskId (id tj) = Some pj ->
  compareIds pi pj <= 0.
Proof.
  intros Hij Hi Hj Hpi Hpj.
  destruct (lookup_split_two _ _ _ _ _ Hij Hi Hj) as (l1 & l2 & l3 & Hout).
  rewrite sortDottedChildTaskIds_refill in Hout.
  destruct (sortedEntries_children tasks) as [Hc Hl].
  pose proof (childTasks_refill tasks _ Hc Hl) as Hch.
  rewrite Hout in Hch. unfold childTasks in Hch.
  rewrite List.filter_app in Hch. simpl in Hch.
  rewrite List.filter_app in Hch. simpl in Hch.
  assert (Eti : isChildTask ti = true) by (unfold isChildTask; rewrite Hpi; reflexivity).
  assert (Etj : isChildTask tj = true) by (unfold isChildTask; rewrite Hpj; reflexivity).
  rewrite Eti, Etj in Hch. symmetry in Hch.
  apply map_eq_app in Hch as (e1 & r1 & He & _ & Hr1).
  apply map_eq_cons in Hr1 as (ei & r2 & -> & Hei & Hr2).
  apply map_eq_app in Hr2 as (e2 & r3 & -> & _ & Hr3).
  apply map_eq_cons in Hr3 as (ej & e3 & -> & Hej & _).
  pose proof (sortedEntries_wellParsed tasks) as Hwp.
  pose proof (arraySort_strongly_sorted compareEntries
                (fun a b => compareIds_total (parsed a) (parsed b))
                (fun a b c => compareIds_trans (parsed a) (parsed b) (parsed c))
                (collectChildEntries 0 tasks)) as Hs.
  rewrite He in Hwp, Hs.
  apply strongly_sorted_before in Hs. unfold TaskOrdering.notAfter in Hs.
  apply Forall_app in Hwp as [_ Hwp].
  inversion Hwp as [|? ? Hwi Hwp']; subst.
  apply Forall_app in Hwp' as [_ Hwp'].
  inversion Hwp' as [|? ? Hwj _]; subst.
  unfold wellParsed in Hwi, Hwj.
  assert (Ei : parsed ei = pi) by congruence.
  assert (Ej : parsed ej = pj) by congruence.
  rewrite <- Ei, <- Ej. exact Hs.
Qed.

(** In terms of what [parseChildTaskId] makes of an id: the routine is
    idempotent; its output has the length of its input and, at every
    position whose id does not parse, the very task of the input; and of
    two parsed ids of the output that share their prefix, the one that
    stands first has the smaller or equal number. *)
Lemma sortDottedChildTaskIds_parsed (tasks : list T) :
  let out := sortDottedChildTaskIds localeCompare tasks in
  sortDottedChildTaskIds localeCompare out = out
  /\ length out = length tasks
  /\ (forall i t, tasks !! i = Some t -> parseChildTaskId (id t) = None ->
        out !! i = Some t)
  /\ (forall i t, out !! i = Some t -> parseChildTaskId (id t) = None ->
        tasks !! i = Some t)
  /\ (forall i j ti tj pi pj,
        (i < j)%nat -> out !! i = Some ti -> out !! j = Some tj ->
        parseChildTaskId (id ti) = Some pi ->
        parseChildTaskId (id tj) = Some pj ->
        prefix pi = prefix pj ->
        issueNumber pi <= issueNumber pj).
Proof.
  intros out.
  destruct (sortedEntries_children tasks) as [Hc Hl].
  assert (Hout : out = refill tasks (map task (sortedEntries tasks)))
    by apply sortDottedChildTaskIds_refill.
  assert (Hother : forall i t, tasks !! i = Some t ->
            parseChildTaskId (id t) = None -> out !! i = Some t).
  { intros i t Hi Hp. rewrite Hout. apply refill_lookup_other; [exact Hi|].
    unfold isChildTask. rewrite Hp. reflexivity. }
  split; [|split; [|split; [|split]]].
  - (* idempotence *)
    rewrite sortDottedChildTaskIds_refill. fold out.
    assert (Hsame : map task (sortedEntries out) = map task (sortedEntries tasks)).
    { assert (Hch : childTasks out = map task (sortedEntries tasks))
        by (rewrite Hout; apply childTasks_refill; assumption).
      assert (Hid : sortedEntries out = collectChildEntries 0 out).
      { apply arraySort_sorted_id. apply sorted_by_parsed.
        rewrite (wellParsed_same_tasks (collectChildEntries 0 out)
                   (sortedEntries tasks)).
        - apply sorted_by_parsed.
          apply (arraySort_sorted compareEntries).
          intros a b. apply compareIds_total.
        - apply collect_wellParsed.
        - apply sortedEntries_wellParsed.
        - rewrite collect_tasks. exact Hch. }
      rewrite Hid, collect_tasks. exact Hch. }
    rewrite Hsame. rewrite Hout at 1.
    rewrite refill_refill; [symmetry; exact Hout | exact Hc | lia].
  - rewrite Hout. apply refill_length.
  - exact Hother.
  - intros i t Hi Hp.
    assert (Hlen : length out = length tasks) by (rewrite Hout; apply refill_length).
    destruct (tasks !! i) as [t'|] eqn:Hti.
    + destruct (parseChildTaskId (id t')) as [p'|] eqn:Hp'.
      * (* a dotted position of the input holds a dotted task in the output *)
        exfalso. clear Hother.
        assert (Hkeep : forall (l c : list T) k x y,
                  Forall (fun c => isChildTask c = true) c ->
                  l !! k = Some x -> isChildTask x = true ->
                  refill l c !! k = Some y -> isChildTask y = true).
        { clear. induction l as [|t0 l IH]; intros c k x y Hc Hk Hx Hy;
            [discriminate Hk|].
          simpl in Hy. destruct k as [|k]; simpl in Hk.
          - injection Hk as ->. rewrite Hx in Hy.
            destruct c as [|c0 c]; simpl in Hy; injection Hy as <-; [exact Hx|].
            inversion Hc; assumption.
          - destruct (isChildTask t0); [destruct c as [|c0 c]|]; simpl in Hy.
            + eapply IH; eauto.
            + inversion Hc; subst. eapply IH; eauto.
            + eapply IH; eauto. }
        rewrite Hout in Hi.
        assert (isChildTask t = true).
        { eapply Hkeep; [exact Hc | exact Hti | | exact Hi].
          unfold isChildTask. rewrite Hp'. reflexivity. }
        unfold isChildTask in *. rewrite Hp in *. discriminate.
      * rewrite (Hother i t' Hti Hp') in Hi. exact Hi.
    + apply lookup_ge_None in Hti. apply lookup_lt_Some in Hi. lia.
  - intros i j ti tj pi pj Hij Hi Hj Hpi Hpj Hpre.
    apply compareIds_same_prefix; [exact Hpre|].
    eapply output_children_ordered; eauto.
Qed.

End OrderingFacts.

(** *** The code-unit collation is a total preorder *)

Section CodeUnitCollation.
Import TaskOrdering.

Lemma codeUnitCompare_le a b : codeUnitCompare a b <= 0 <-> String.le a b.
Proof.
  unfold codeUnitCompare, String.le, String.leb.
  destruct (String.compare a b); simpl; split; intros Hle; try lia; try exact I;
    destruct Hle.
Qed.

Lemma codeUnitCompare_antisym a b :
  Z.sgn (codeUnitCompare a b) = - Z.sgn (codeUnitCompare b a).
Proof.
  unfold codeUnitCompare. rewrite (String.compare_antisym b a).
  destruct (String.compare a b); reflexivity.
Qed.

Lemma codeUnitCompare_trans a b c :
  codeUnitCompare a b <= 0 -> codeUnitCompare b c <= 0 ->
  codeUnitCompare a c <= 0.
Proof.
  rewrite !codeUnitCompare_le. intros Hab Hbc.
  exact (transitivity (R := String.le) Hab Hbc).
Qed.


End CodeUnitCollation.

(** ** Paths *)

Section PathExamples.

Example path_resolve :
  path.resolve "/work" ["/p/proj"; "tasks/prd.json"] = "/p/proj/tasks/prd.json"
  /\ path.resolve "/work" ["/p/proj"; "../x/./y//z.json"] = "/p/x/y/z.json"
  /\ path.resolve "/work" ["/p/proj"; "/tmp/prd.json"] = "/tmp/prd.json"
  /\ path.resolve "/work" ["rel"; "a/.."] = "/work/rel"
  /\ path.resolve "/work" ["/.."] = "/".
Proof. repeat split. Qed.

Example path_join :
  path.join ["/p/wt"; ".ralph-tui"; "external-prd"; "prd-0a1b2c3d.json"]
    = "/p/wt/.ralph-tui/external-prd/prd-0a1b2c3d.json"
  /\ path.join ["/p/wt"; "../../tmp/prd.json"] = "/tmp/prd.json"
  /\ path.join ["a"; ""; "../.."; "b/"] = "../b/"
  /\ path.join [""; ""] = ".".
Proof. repeat split. Qed.

Example path_relative :
  path.relative "/work" "/p/proj" "/p/proj/tasks/prd.json" = "tasks/prd.json"
  /\ path.relative "/work" "/p/proj" "/tmp/prd.json" = "../../tmp/prd.json"
  /\ path.relative "/work" "/p/proj" "/p/proj" = ""
  /\ path.relative "/work" "/p/proj/" "/p/proj" = ""
  /\ path.relative "/work" "/p/proj" "/p" = ".."
  /\ path.relative "/work" "/" "/a" = "a"
  /\ path.relative "/work" "/a" "/b" = "../b".
Proof. repeat split. Qed.

Example path_dirname :
  path.dirname "/a/b" = "/a" /\ path.dirname "/a" = "/"
  /\ path.dirname "/a/b/" = "/a" /\ path.dirname "a" = "."
  /\ path.dirname "//a" = "//" /\ path.dirname "/a//b" = "/a/"
  /\ path.dirname "" = "." /\ path.dirname "a/b" = "a".
Proof. repeat split. Qed.

Example path_basename_extname :
  path.basename "/tmp/my prd.json" (Some ".json") = "my prd"
  /\ path.extname "/tmp/my prd.json" = ".json"
  /\ path.extname "/tmp/.hidden" = "" /\ path.basename "/tmp/.hidden" (Some "") = ".hidden"
  /\ path.extname "/tmp/a.b.c" = ".c" /\ path.extname "/tmp/a." = "."
  /\ path.extname "/tmp/.." = "" /\ path.extname "/tmp/noext" = ""
  /\ path.basename "/tmp/dir/" None = "dir" /\ path.basename "/" None = "".
Proof. repeat split. Qed.

End PathExamples.

(** *** Splitting and joining *)

Section PathFacts.
Import JsString.

Lemma append_cons c s t : String c s +:+ t = String c (s +:+ t).
Proof. reflexivity. Qed.

Lemma append_nil_l t : "" +:+ t = t.
Proof. reflexivity. Qed.

Lemma append_nil_r s : s +:+ "" = s.
Proof.
  induction s as [|c s IH]; [reflexivity|].
  rewrite append_cons, IH. reflexivity.
Qed.

Lemma append_assoc a b c : (a +:+ b) +:+ c = a +:+ (b +:+ c).
Proof.
  induction a as [|x a IH]; [reflexivity|].
  rewrite !append_cons, IH. reflexivity.
Qed.

Lemma all_append p a b : all p (a +:+ b) = all p a && all p b.
Proof.
  induction a as [|x a IH]; [reflexivity|].
  rewrite append_cons. simpl. rewrite IH, andb_assoc. reflexivity.
Qed.

Lemma split_nonempty sep s : split sep s <> [].
Proof.
  induction s as [|c s IH]; simpl; [discriminate|].
  destruct (Ascii.eqb c sep); [discriminate|].
  destruct (split sep s); discriminate.
Qed.

Lemma split_noSlash s : path.noSlash s = true -> split "/"%char s = [s].
Proof.
  unfold path.noSlash. induction s as [|c s IH]; simpl; [reflexivity|].
  intros [Hc Hs]%andb_true_iff. unfold path.isSlash in Hc.
  destruct (Ascii.eqb c "/"); [discriminate Hc|].
  rewrite (IH Hs). reflexivity.
Qed.

Lemma split_app_slash a b :
  split "/"%char (a +:+ String "/"%char b) = split "/"%char a ++ split "/"%char b.
Proof.
  induction a as [|c a IH]; [reflexivity|].
  rewrite append_cons. simpl.
  rewrite IH. destruct (Ascii.eqb c "/"); [reflexivity|].
  pose proof (split_nonempty "/"%char a) as Hne.
  destruct (split "/"%char a); [contradiction | reflexivity].
Qed.

Lemma split_pieces_noSlash s : Forall (fun x => path.noSlash x = true) (split "/"%char s).
Proof.
  induction s as [|c s IH]; simpl; [repeat constructor|].
  destruct (Ascii.eqb c "/") eqn:E; [constructor; [reflexivity | exact IH]|].
  destruct (split "/"%char s) as [|w ws]; [repeat constructor|].
  - unfold path.noSlash, path.isSlash. simpl. rewrite E. reflexivity.
  - inversion IH as [|? ? Hw Hws]; subst. constructor; [|exact Hws].
    unfold path.noSlash, path.isSlash in *. simpl. rewrite E. exact Hw.
Qed.

Lemma join_cons sep x y l :
  JsString.join sep (x :: y :: l) = x +:+ sep +:+ JsString.join sep (y :: l).
Proof. reflexivity. Qed.

Lemma split_join l :
  l <> [] -> Forall (fun x => path.noSlash x = true) l ->
  split "/"%char (JsString.join "/" l) = l.
Proof.
  induction l as [|x l IH]; [congruence|]. intros _ Hl.
  inversion Hl as [|? ? Hx Hl']; subst.
  destruct l as [|y l]; [apply split_noSlash, Hx|].
  rewrite join_cons. change ("/" +:+ ?r) with (String "/"%char r).
  rewrite split_app_slash, (split_noSlash x Hx), IH; [reflexivity | discriminate | exact Hl'].
Qed.

Lemma isPlain_spec s :
  path.isPlain s = true <->
  s <> "" /\ s <> "." /\ s <> ".." /\ path.noSlash s = true.
Proof.
  unfold path.isPlain. rewrite !andb_true_iff, !negb_true_iff, !String.eqb_neq.
  destruct s; simpl; intuition congruence.
Qed.

Lemma plain_noSlash l :
  Forall (fun x => path.isPlain x = true) l ->
  Forall (fun x => path.noSlash x = true) l.
Proof.
  intros H. eapply List.Forall_impl; [|exact H].
  intros x Hx. apply isPlain_spec in Hx. tauto.
Qed.

Lemma plain_truthy l :
  Forall (fun x => path.isPlain x = true) l -> List.filter truthy l = l.
Proof.
  induction 1 as [|x l Hx _ IH]; simpl; [reflexivity|].
  apply isPlain_spec in Hx. destruct x; [tauto|]. simpl. rewrite IH. reflexivity.
Qed.

(** *** Normalization *)

Lemma normalizeStep_plain allow stack x :
  path.isPlain x = true -> path.normalizeStep allow stack x = x :: stack.
Proof.
  intros Hx. apply isPlain_spec in Hx as (H1 & H2 & H3 & _).
  unfold path.normalizeStep.
  apply String.eqb_neq in H1, H2, H3. rewrite H1, H2, H3. reflexivity.
Qed.

Lemma fold_normalizeStep_plain allow stack l :
  Forall (fun x => path.isPlain x = true) l ->
  fold_left (path.normalizeStep allow) l stack = rev l ++ stack.
Proof.
  intros Hl. revert stack. induction Hl as [|x l Hx _ IH]; intros stack; simpl;
    [reflexivity|].
  rewrite normalizeStep_plain by exact Hx. rewrite IH, <- app_assoc. reflexivity.
Qed.

Lemma normalizeStep_keeps_plain stack x :
  path.noSlash x = true ->
  Forall (fun y => path.isPlain y = true) stack ->
  Forall (fun y => path.isPlain y = true) (path.normalizeStep false stack x).
Proof.
  intros Hx Hs. unfold path.normalizeStep.
  destruct (String.eqb_spec x ""); simpl; [exact Hs|].
  destruct (String.eqb_spec x "."); simpl; [exact Hs|].
  destruct (String.eqb_spec x "..").
  - destruct Hs as [|top below Htop Hbelow]; [constructor|].
    destruct (String.eqb top ".."); [constructor|]; assumption.
  - constructor; [|exact Hs]. apply isPlain_spec. tauto.
Qed.

Lemma fold_normalizeStep_keeps_plain l stack :
  Forall (fun x => path.noSlash x = true) l ->
  Forall (fun y => path.isPlain y = true) stack ->
  Forall (fun y => path.isPlain y = true)
    (fold_left (path.normalizeStep false) l stack).
Proof.
  intros Hl. revert stack. induction Hl as [|x l Hx _ IH]; intros stack Hs; simpl;
    [exact Hs|].
  apply IH, normalizeStep_keeps_plain; assumption.
Qed.

(** The segments an absolute path normalizes to are plain. *)
Lemma normalizeSegments_plain l :
  Forall (fun x => path.noSlash x = true) l ->
  Forall (fun y => path.isPlain y = true) (path.normalizeSegments false l).
Proof.
  intros Hl. unfold path.normalizeSegments. apply Forall_rev.
  apply fold_normalizeStep_keeps_plain; [exact Hl | constructor].
Qed.

Lemma normalizeSegments_app_plain allow l names :
  Forall (fun x => path.isPlain x = true) names ->
  path.normalizeSegments allow (l ++ names)
  = path.normalizeSegments allow l ++ names.
Proof.
  intros Hn. unfold path.normalizeSegments.
  rewrite fold_left_app, fold_normalizeStep_plain by exact Hn.
  rewrite rev_app_distr, rev_involutive. reflexivity.
Qed.

Lemma normalizeSegments_skip allow l :
  path.normalizeSegments allow (l ++ [""]) = path.normalizeSegments allow l
  /\ path.normalizeSegments allow ("" :: l) = path.normalizeSegments allow l.
Proof.
  unfold path.normalizeSegments. rewrite fold_left_app. split; reflexivity.
Qed.

Lemma normalizeSegments_of_plain allow l :
  Forall (fun x => path.isPlain x = true) l ->
  path.normalizeSegments allow l = l.
Proof.
  intros Hl. apply (normalizeSegments_app_plain allow [] l Hl).
Qed.

(** *** Resolved paths *)

Local Abbreviation plainList := (Forall (fun x => path.isPlain x = true)).
Local Abbreviation normal p := (path.normalizeSegments false (split "/"%char p)).

Lemma normal_plain p : plainList (normal p).
Proof. apply normalizeSegments_plain, split_pieces_noSlash. Qed.

Lemma isAbsolute_cons p :
  path.isAbsolute p = true -> exists rest, p = String "/"%char rest.
Proof.
  destruct p as [|c rest]; simpl; [discriminate|].
  intros H. apply Ascii.eqb_eq in H. subst c. eauto.
Qed.

Lemma isAbsolute_render l : path.isAbsolute (path.render l) = true.
Proof. reflexivity. Qed.

Lemma slash_append r : "/" +:+ r = String "/"%char r.
Proof. reflexivity. Qed.

Lemma split_slash_cons r :
  split "/"%char (String "/"%char r) = "" :: split "/"%char r.
Proof. reflexivity. Qed.

Lemma split_empty : split "/"%char "" = [""].
Proof. reflexivity. Qed.

Lemma split_render l : plainList l -> normal (path.render l) = l.
Proof.
  intros Hl. unfold path.render.
  change ("/" +:+ ?r) with (String "/"%char r).
  rewrite split_slash_cons.
  rewrite (proj2 (normalizeSegments_skip false _)).
  destruct l as [|x l]; [reflexivity|].
  rewrite split_join; [|discriminate | apply plain_noSlash, Hl].
  apply normalizeSegments_of_plain, Hl.
Qed.

Lemma normalizeString_slash p :
  path.normalizeString (p +:+ "/") false = JsString.join "/" (normal p).
Proof.
  unfold path.normalizeString. change "/" with (String "/"%char "").
  rewrite split_app_slash, split_empty.
  rewrite (proj1 (normalizeSegments_skip false _)). reflexivity.
Qed.

(** [path.resolve] of one absolute path. *)
Lemma resolve_absolute processCwd p :
  path.isAbsolute p = true ->
  path.resolve processCwd [p] = path.render (normal p).
Proof.
  intros Hp. destruct (isAbsolute_cons p Hp) as [rest ->].
  unfold path.resolve. simpl. rewrite append_nil_r.
  change (String "/" (rest +:+ "/")) with (String "/" rest +:+ "/").
  rewrite normalizeString_slash. reflexivity.
Qed.

Local Abbreviation resolvedSegments := path.resolvedSegments.

Lemma resolvedSegments_plain cwd p : plainList (resolvedSegments cwd p).
Proof.
  unfold path.resolvedSegments.
  destruct (String.eqb p ""); [apply normal_plain|].
  destruct (path.isAbsolute p); [apply normal_plain|].
  apply normalizeSegments_plain, Forall_app; split; apply split_pieces_noSlash.
Qed.

Lemma resolve_in_absolute processCwd cwd p :
  path.isAbsolute cwd = true ->
  path.resolve processCwd [cwd; p] = path.render (resolvedSegments cwd p).
Proof.
  intros Hc. destruct (isAbsolute_cons cwd Hc) as [crest ->].
  unfold path.resolve, path.resolvedSegments. simpl rev. simpl app.
  unfold path.resolveLoop. fold path.resolveLoop.
  destruct (String.eqb_spec p "") as [->|Hp].
  - simpl. rewrite append_nil_r.
    change (String "/" (crest +:+ "/")) with (String "/" crest +:+ "/").
    rewrite normalizeString_slash. reflexivity.
  - destruct (path.isAbsolute p) eqn:Hab.
    + simpl. rewrite append_nil_r, normalizeString_slash. reflexivity.
    + change (String.eqb (String "/"%char crest) "") with false.
      change (path.isAbsolute (String "/"%char crest)) with true.
      cbv iota beta. simpl negb. rewrite append_nil_r.
      unfold path.normalizeString, path.render. f_equal. f_equal.
      rewrite !slash_append, !split_app_slash, split_empty.
      rewrite app_assoc, (proj1 (normalizeSegments_skip false _)). reflexivity.
Qed.

Lemma segmentsOf_render l : plainList l -> path.segmentsOf (path.render l) = l.
Proof.
  intros Hl. unfold path.segmentsOf, path.render.
  change ("/" +:+ ?r) with (String "/"%char r).
  rewrite split_slash_cons. simpl List.filter.
  destruct l as [|x l]; [reflexivity|].
  rewrite split_join; [|discriminate | apply plain_noSlash, Hl].
  apply plain_truthy, Hl.
Qed.

(** The file system address of an absolute path. *)
Lemma segments_absolute processCwd p :
  path.isAbsolute p = true -> path.segments processCwd p = normal p.
Proof.
  intros Hp. unfold path.segments. rewrite resolve_absolute by exact Hp.
  apply segmentsOf_render, normal_plain.
Qed.

Lemma segments_render processCwd l :
  plainList l -> path.segments processCwd (path.render l) = l.
Proof.
  intros Hl. rewrite segments_absolute by reflexivity. apply split_render, Hl.
Qed.

Lemma render_inj l1 l2 :
  plainList l1 -> plainList l2 -> path.render l1 = path.render l2 -> l1 = l2.
Proof.
  intros H1 H2 E. rewrite <- (segmentsOf_render l1 H1), <- (segmentsOf_render l2 H2), E.
  reflexivity.
Qed.

(** *** Joining plain names onto an absolute path *)

Lemma endsWith_slash s : endsWith s "/" = path.endsInSlash s.
Proof.
  unfold endsWith. induction s as [|c s IH]; [reflexivity|].
  cbn [stripSuffix path.endsInSlash].
  destruct (String.eqb_spec "/" (String c s)) as [E|E].
  - injection E as <- <-. reflexivity.
  - destruct s as [|c' s'].
    + cbn [stripSuffix]. change (String.eqb "/" "") with false. cbv iota.
      unfold path.isSlash. destruct (Ascii.eqb_spec c "/"%char) as [->|]; [congruence | reflexivity].
    + destruct (stripSuffix "/" (String c' s')); exact IH.
Qed.

Lemma endsInSlash_append a x :
  x <> "" -> path.endsInSlash (a +:+ x) = path.endsInSlash x.
Proof.
  intros Hx. induction a as [|c a IH]; [reflexivity|].
  rewrite append_cons. cbn [path.endsInSlash].
  destruct (a +:+ x) eqn:E; [|exact IH].
  destruct a; [rewrite append_nil_l in E; congruence | discriminate E].
Qed.

Lemma endsInSlash_noSlash x : path.noSlash x = true -> path.endsInSlash x = false.
Proof.
  unfold path.noSlash. induction x as [|c x IH]; [reflexivity|].
  cbn [all path.endsInSlash]. intros [Hc Hx]%andb_true_iff.
  destruct x; [apply negb_true_iff, Hc | apply IH, Hx].
Qed.

Lemma join_snoc sep l x :
  JsString.join sep (l ++ [x])
  = match l with
    | [] => x
    | _ => (JsString.join sep l +:+ sep) +:+ x
    end.
Proof.
  induction l as [|y l IH]; [reflexivity|].
  destruct l as [|z l]; [simpl; rewrite append_assoc; reflexivity|].
  change (JsString.join sep ((y :: z :: l) ++ [x]))
    with (y +:+ sep +:+ JsString.join sep ((z :: l) ++ [x])).
  rewrite IH, join_cons, !append_assoc. reflexivity.
Qed.

Lemma join_plain_ends l x :
  path.isPlain x = true -> endsWith (JsString.join "/" (l ++ [x])) "/" = false.
Proof.
  intros Hx. apply isPlain_spec in Hx as (Hne & _ & _ & Hns).
  rewrite endsWith_slash, join_snoc.
  destruct l; [|rewrite endsInSlash_append by exact Hne];
    apply endsInSlash_noSlash, Hns.
Qed.

Lemma join_plain_truthy x names :
  plainList (x :: names) -> JsString.join "/" (x :: names) <> "".
Proof.
  intros Hl. inversion Hl as [|? ? Hx _]; subst.
  apply isPlain_spec in Hx as (Hne & _). destruct x; [congruence|].
  destruct names; discriminate.
Qed.

(** [path.join] of an absolute path and plain names. *)
Lemma join_absolute base names :
  path.isAbsolute base = true -> names <> [] -> plainList names ->
  path.join (base :: names) = path.render (normal base ++ names).
Proof.
  intros Hb Hne Hn. destruct (isAbsolute_cons base Hb) as [rest ->].
  unfold path.join. simpl List.filter. rewrite (plain_truthy names Hn).
  destruct names as [|n0 names]; [congruence|].
  set (joined := JsString.join "/" (String "/"%char rest :: n0 :: names)).
  assert (Hj : joined = String "/"%char rest +:+ String "/"%char
                          (JsString.join "/" (n0 :: names))) by reflexivity.
  unfold path.normalize.
  assert (Habs : path.isAbsolute joined = true) by (rewrite Hj; reflexivity).
  assert (Hnz : String.eqb joined "" = false) by (rewrite Hj; reflexivity).
  rewrite Hnz, Habs. simpl negb.
  assert (Hend : endsWith joined "/" = false).
  { destruct (exists_last (l := n0 :: names) ltac:(discriminate)) as (l' & x & E).
    unfold joined. rewrite E, app_comm_cons. apply join_plain_ends.
    rewrite E in Hn. apply Forall_app in Hn as [_ Hx].
    inversion Hx; assumption. }
  rewrite Hend.
  unfold path.normalizeString. rewrite Hj, split_app_slash.
  rewrite split_join; [|discriminate | apply plain_noSlash, Hn].
  rewrite normalizeSegments_app_plain by exact Hn.
  assert (Hnonempty : JsString.join "/" (normal (String "/"%char rest) ++ n0 :: names) <> "").
  { pose proof (normal_plain (String "/"%char rest)) as Hp.
    destruct (normal (String "/"%char rest)) as [|s0 ss].
    - apply join_plain_truthy, Hn.
    - apply (join_plain_truthy s0 (ss ++ n0 :: names)).
      rewrite app_comm_cons. apply Forall_app. split; assumption. }
  apply String.eqb_neq in Hnonempty. rewrite Hnonempty. reflexivity.
Qed.

Lemma segments_join processCwd base names :
  path.isAbsolute base = true -> names <> [] -> plainList names ->
  path.segments processCwd (path.join (base :: names)) = normal base ++ names.
Proof.
  intros Hb Hne Hn. rewrite join_absolute by assumption.
  apply segments_render, Forall_app. split; [apply normal_plain | exact Hn].
Qed.

Lemma normal_join base names :
  path.isAbsolute base = true -> names <> [] -> plainList names ->
  normal (path.join (base :: names)) = normal base ++ names.
Proof.
  intros Hb Hne Hn. rewrite join_absolute by assumption.
  apply split_render, Forall_app. split; [apply normal_plain | exact Hn].
Qed.

Lemma isAbsolute_join base names :
  path.isAbsolute base = true -> names <> [] -> plainList names ->
  path.isAbsolute (path.join (base :: names)) = true.
Proof. intros Hb Hne Hn. rewrite join_absolute by assumption. reflexivity. Qed.

(** *** The directory and the last segment of a resolved path *)

Lemma hasNonSlash_plain x : path.isPlain x = true -> path.hasNonSlash x = true.
Proof.
  intros Hx. apply isPlain_spec in Hx as (Hne & _ & _ & Hns).
  destruct x as [|c x]; [congruence|].
  unfold path.noSlash in Hns. cbn [all] in Hns.
  apply andb_true_iff in Hns as [Hc _]. cbn [path.hasNonSlash]. rewrite Hc. reflexivity.
Qed.

Lemma hasNonSlash_append a b :
  path.hasNonSlash b = true -> path.hasNonSlash (a +:+ b) = true.
Proof.
  intros Hb. induction a as [|c a IH]; [exact Hb|].
  rewrite append_cons. cbn [path.hasNonSlash]. rewrite IH. apply orb_true_r.
Qed.

Lemma splitAtLastSlash_noSlash x :
  path.noSlash x = true -> path.splitAtLastSlash x = None.
Proof.
  unfold path.noSlash. induction x as [|c x IH]; [reflexivity|].
  cbn [all path.splitAtLastSlash]. intros [Hc Hx]%andb_true_iff.
  rewrite (IH Hx). apply negb_true_iff in Hc. rewrite Hc. reflexivity.
Qed.

Lemma splitAtLastSlash_append a b :
  path.hasNonSlash b = true ->
  path.splitAtLastSlash (a +:+ String "/"%char b)
  = match path.splitAtLastSlash b with
    | Some (before, after) => Some (a +:+ String "/"%char before, after)
    | None => Some (a, b)
    end.
Proof.
  intros Hb. induction a as [|c a IH].
  - rewrite append_nil_l. cbn [path.splitAtLastSlash].
    destruct (path.splitAtLastSlash b) as [[before after]|]; [reflexivity|].
    rewrite Hb. reflexivity.
  - rewrite append_cons. cbn [path.splitAtLastSlash]. rewrite IH.
    destruct (path.splitAtLastSlash b) as [[before after]|]; reflexivity.
Qed.

Lemma hasNonSlash_join l x :
  path.isPlain x = true -> path.hasNonSlash (JsString.join "/" (l ++ [x])) = true.
Proof.
  intros Hx. rewrite join_snoc.
  destruct l; [|apply hasNonSlash_append]; apply hasNonSlash_plain, Hx.
Qed.

Lemma splitAtLastSlash_join l x :
  plainList l -> path.isPlain x = true ->
  path.splitAtLastSlash (JsString.join "/" (l ++ [x]))
  = match l with
    | [] => None
    | _ => Some (JsString.join "/" l, x)
    end.
Proof.
  intros Hl Hx.
  assert (Hxn : path.noSlash x = true) by (apply isPlain_spec in Hx; tauto).
  induction Hl as [|y l Hy Hl IH]; [apply splitAtLastSlash_noSlash, Hxn|].
  destruct l as [|z l].
  - change (JsString.join "/" ([y] ++ [x])) with (y +:+ "/" +:+ x).
    rewrite slash_append, splitAtLastSlash_append by (apply hasNonSlash_plain, Hx).
    rewrite splitAtLastSlash_noSlash by exact Hxn. reflexivity.
  - change (JsString.join "/" ((y :: z :: l) ++ [x]))
      with (y +:+ "/" +:+ JsString.join "/" ((z :: l) ++ [x])).
    rewrite slash_append, splitAtLastSlash_append by (apply hasNonSlash_join, Hx).
    rewrite IH. rewrite join_cons, slash_append. reflexivity.
Qed.

Lemma dirname_render l x :
  plainList l -> path.isPlain x = true ->
  path.dirname (path.render (l ++ [x])) = path.render l.
Proof.
  intros Hl Hx. unfold path.render, path.dirname.
  rewrite slash_append, splitAtLastSlash_join by assumption.
  destruct l as [|y l]; [reflexivity|].
  assert (Hne : JsString.join "/" (y :: l) <> "") by (apply join_plain_truthy, Hl).
  apply String.eqb_neq in Hne. rewrite Hne, andb_false_r. reflexivity.
Qed.

Lemma dirname_root : path.dirname (path.render []) = path.render [].
Proof. reflexivity. Qed.

Lemma dropTrailingSlashes_noSlash x :
  path.noSlash x = true -> path.dropTrailingSlashes x = x.
Proof.
  unfold path.noSlash. induction x as [|c x IH]; [reflexivity|].
  cbn [all path.dropTrailingSlashes]. intros [Hc Hx]%andb_true_iff.
  rewrite (IH Hx). apply negb_true_iff in Hc. rewrite Hc.
  destruct x; reflexivity.
Qed.

Lemma lastSegment_render l x :
  plainList l -> path.isPlain x = true ->
  path.lastSegment (path.render (l ++ [x])) = x.
Proof.
  intros Hl Hx.
  assert (Hxn : path.noSlash x = true) by (apply isPlain_spec in Hx; tauto).
  unfold path.lastSegment, path.render.
  rewrite slash_append. change (String "/"%char ?r) with ("" +:+ String "/"%char r).
  rewrite splitAtLastSlash_append by (apply hasNonSlash_join, Hx).
  rewrite splitAtLastSlash_join by assumption.
  destruct l; apply dropTrailingSlashes_noSlash, Hxn.
Qed.

End PathFacts.

(** ** [path.relative] and containment *)

Section RelativeFacts.
Import JsString.

Local Abbreviation plainList := (Forall (fun x => path.isPlain x = true)).
Local Abbreviation normal p := (path.normalizeSegments false (split "/"%char p)).

Lemma dropCommonPrefix_same l : path.dropCommonPrefix l l = ([], []).
Proof.
  induction l as [|x l IH]; [reflexivity|]. simpl. rewrite String.eqb_refl. exact IH.
Qed.

Lemma dropCommonPrefix_spec a b f t :
  path.dropCommonPrefix a b = (f, t) ->
  exists common, a = common ++ f /\ b = common ++ t.
Proof.
  revert b f t. induction a as [|x a IH]; intros b f t H.
  - simpl in H. injection H as <- <-. exists []. split; reflexivity.
  - destruct b as [|y b].
    + simpl in H. injection H as <- <-. exists []. split; reflexivity.
    + simpl in H. destruct (String.eqb_spec x y) as [->|Hne].
      * destruct (IH _ _ _ H) as (common & -> & ->). exists (y :: common).
        split; reflexivity.
      * injection H as <- <-. exists []. split; reflexivity.
Qed.

Lemma dropCommonPrefix_app a t : path.dropCommonPrefix a (a ++ t) = ([], t).
Proof.
  induction a as [|x a IH]; simpl; [destruct t; reflexivity|].
  rewrite String.eqb_refl. exact IH.
Qed.

(** The first segments that differ, when the common prefix is neither. *)
Lemma dropCommonPrefix_diverge a b f t :
  path.dropCommonPrefix a b = (f, t) ->
  match f, t with
  | x :: _, y :: _ => x <> y
  | _, _ => True
  end.
Proof.
  revert b f t. induction a as [|x a IH]; intros b f t H.
  - simpl in H. injection H as <- <-. exact I.
  - destruct b as [|y b].
    + simpl in H. injection H as <- <-. exact I.
    + simpl in H. destruct (String.eqb_spec x y) as [->|Hne].
      * apply (IH _ _ _ H).
      * injection H as <- <-. exact Hne.
Qed.

(** [path.relative] between two absolute paths: one [..] for each segment
    of [from] below the common ancestor, then what is left of [to]. *)
Lemma relative_absolute processCwd from to :
  path.isAbsolute from = true -> path.isAbsolute to = true ->
  path.relative processCwd from to
  = JsString.join "/"
      (map (fun _ => "..") (fst (path.dropCommonPrefix (normal from) (normal to)))
       ++ snd (path.dropCommonPrefix (normal from) (normal to))).
Proof.
  intros Hf Ht. unfold path.relative.
  destruct (String.eqb_spec from to) as [->|Hne].
  { rewrite dropCommonPrefix_same. reflexivity. }
  rewrite !resolve_absolute by assumption.
  rewrite !segmentsOf_render by apply normal_plain.
  destruct (String.eqb_spec (path.render (normal from)) (path.render (normal to)))
    as [E|_].
  - apply render_inj in E; [|apply normal_plain..]. rewrite E, dropCommonPrefix_same.
    reflexivity.
  - destruct (path.dropCommonPrefix (normal from) (normal to)). reflexivity.
Qed.

End RelativeFacts.

Section Sha1Examples.

Example sha1_empty :
  crypto.sha1Hex "" = "da39a3ee5e6b4b0d3255bfef95601890afd80709".
Proof. vm_compute. reflexivity. Qed.

Example sha1_abc :
  crypto.sha1Hex "abc" = "a9993e364706816aba3e25717850c26c9cd0d89d".
Proof. vm_compute. reflexivity. Qed.

Example sha1_two_blocks :
  crypto.sha1Hex "abcdbcdecdefdefgefghfghighijhijkijkljklmklmnlmnomnopnopq"
  = "84983e441c3bd26ebaae4aa1f95129e5e54670f1".
Proof. vm_compute. reflexivity. Qed.

Example sha1_of_a_path :
  crypto.sha1Hex "/tmp/my prd.json" = "c2a5c8e77c45c1095f0f0cca194afc4267836b19".
Proof. vm_compute. reflexivity. Qed.

End Sha1Examples.

(** ** The file system *)

Section FsFacts.

Lemma assoc_upsert_eq name node entries :
  fs.assoc name (fs.upsert name node entries) = Some node.
Proof.
  induction entries as [|[n old] rest IH]; simpl.
  - rewrite String.eqb_refl. reflexivity.
  - destruct (String.eqb_spec n name) as [->|Hne]; simpl.
    + rewrite String.eqb_refl. reflexivity.
    + apply String.eqb_neq in Hne. rewrite Hne. exact IH.
Qed.

Lemma assoc_upsert_ne name other node entries :
  name <> other ->
  fs.assoc other (fs.upsert name node entries) = fs.assoc other entries.
Proof.
  intros Hne. induction entries as [|[n old] rest IH]; simpl.
  - apply String.eqb_neq in Hne. rewrite Hne. reflexivity.
  - destruct (String.eqb_spec n name) as [->|Hn]; simpl.
    + apply String.eqb_neq in Hne. rewrite Hne. reflexivity.
    + destruct (String.eqb n other); [reflexivity | exact IH].
Qed.

Lemma lookup_cons s rest entries :
  fs.lookup (s :: rest) (fs.Dir entries)
  = match fs.assoc s entries with
    | Some child => fs.lookup rest child
    | None => None
    end.
Proof. reflexivity. Qed.

Lemma lookup_upsert_eq s rest child entries :
  fs.lookup (s :: rest) (fs.Dir (fs.upsert s child entries)) = fs.lookup rest child.
Proof. rewrite lookup_cons, assoc_upsert_eq. reflexivity. Qed.

Lemma lookup_upsert_ne s s' rest child entries :
  s <> s' ->
  fs.lookup (s' :: rest) (fs.Dir (fs.upsert s child entries))
  = fs.lookup (s' :: rest) (fs.Dir entries).
Proof. intros Hne. rewrite !lookup_cons, assoc_upsert_ne by exact Hne. reflexivity. Qed.

Lemma stat_file q content :
  q <> [] -> fs.stat q (fs.File content) = None.
Proof. destruct q; [congruence | reflexivity]. Qed.

Lemma lookup_prefix_exists q1 q2 node :
  fs.lookup (q1 ++ q2) node <> None -> fs.lookup q1 node <> None.
Proof.
  revert node. induction q1 as [|s q1 IH]; intros node; simpl; [discriminate|].
  destruct node as [|entries]; [congruence|].
  destruct (fs.assoc s entries); [apply IH | congruence].
Qed.

(** [mkdir -p] leaves what exists as it is, and what it adds are
    directories on the way to its argument. *)
Lemma mkdirp_stat dir node node' :
  fs.mkdirp dir node = Some node' ->
  forall q,
    fs.stat q node' = fs.stat q node
    \/ (fs.lookup q node = None /\ q `prefix_of` dir /\ fs.stat q node' = Some None).
Proof.
  revert node node'. induction dir as [|s rest IH]; intros node node' Hmk q.
  - destruct node; simpl in Hmk; [discriminate|]. injection Hmk as <-. left. reflexivity.
  - destruct node as [|entries]; simpl in Hmk; [discriminate|].
    destruct (fs.mkdirp rest _) as [child'|] eqn:Hchild; [|discriminate].
    injection Hmk as <-.
    destruct q as [|s' q']; [left; reflexivity|].
    unfold fs.stat.
    destruct (String.eqb_spec s s') as [<-|Hne].
    + rewrite lookup_upsert_eq, lookup_cons.
      specialize (IH _ _ Hchild q'). unfold fs.stat in IH.
      destruct (fs.assoc s entries) as [child|] eqn:Ha.
      * destruct IH as [IH|(Hn & Hp & Hs)]; [left; exact IH|].
        right. split; [exact Hn|]. split; [|exact Hs].
        destruct Hp as [k ->]. exists k. reflexivity.
      * destruct q' as [|s'' q''].
        -- right. split; [reflexivity|]. split.
           ++ exists rest. reflexivity.
           ++ destruct IH as [IH|(_ & _ & Hs)]; [exact IH | exact Hs].
        -- destruct IH as [IH|(Hn & Hp & Hs)]; [left; exact IH|].
           right. split; [reflexivity|]. split; [|exact Hs].
           destruct Hp as [k ->]. exists k. reflexivity.
    + rewrite lookup_upsert_ne by exact Hne. left. reflexivity.
Qed.

Lemma mkdirp_isDirectory dir node node' :
  fs.mkdirp dir node = Some node' -> fs.stat dir node' = Some None.
Proof.
  revert node node'. induction dir as [|s rest IH]; intros node node' Hmk.
  - destruct node; simpl in Hmk; [discriminate|]. injection Hmk as <-. reflexivity.
  - destruct node as [|entries]; simpl in Hmk; [discriminate|].
    destruct (fs.mkdirp rest _) as [child'|] eqn:Hchild; [|discriminate].
    injection Hmk as <-. unfold fs.stat. rewrite lookup_upsert_eq.
    apply (IH _ _ Hchild).
Qed.

Lemma writeFile_cons s s2 rest content entries :
  fs.writeFile (s :: s2 :: rest) content (fs.Dir entries)
  = match fs.assoc s entries with
    | Some child =>
        match fs.writeFile (s2 :: rest) content child with
        | Some child' => Some (fs.Dir (fs.upsert s child' entries))
        | None => None
        end
    | None => None
    end.
Proof. reflexivity. Qed.

(** Writing a file changes that path only. *)
Lemma writeFile_stat p content node node' :
  fs.writeFile p content node = Some node' ->
  fs.stat p node' = Some (Some content)
  /\ forall q, q <> p -> fs.stat q node' = fs.stat q node.
Proof.
  revert node node'. induction p as [|s rest IH]; intros node node' Hw.
  - destruct node; simpl in Hw; discriminate Hw.
  - destruct node as [|entries]; [destruct rest; simpl in Hw; discriminate Hw|].
    destruct rest as [|s2 rest].
    + simpl in Hw.
      assert (Hold : forall q', q' <> [] ->
                match fs.assoc s entries with
                | Some child => fs.lookup q' child
                | None => None
                end = None).
      { intros q' Hq'. destruct (fs.assoc s entries) as [[c|es]|];
          [destruct q'; [congruence | reflexivity] | discriminate Hw | reflexivity]. }
      assert (Hn' : node' = fs.Dir (fs.upsert s (fs.File content) entries)).
      { destruct (fs.assoc s entries) as [[c|es]|]; congruence. }
      subst node'. split.
      * unfold fs.stat. rewrite lookup_upsert_eq. reflexivity.
      * intros q Hq. destruct q as [|s' q']; [reflexivity|].
        unfold fs.stat. destruct (String.eqb_spec s s') as [<-|Hne].
        -- assert (Hq' : q' <> []) by congruence.
           rewrite lookup_upsert_eq, lookup_cons, (Hold q' Hq').
           destruct q'; [congruence | reflexivity].
        -- rewrite lookup_upsert_ne by exact Hne. reflexivity.
    + rewrite writeFile_cons in Hw.
      destruct (fs.assoc s entries) as [child|] eqn:Ha; [|discriminate].
      destruct (fs.writeFile (s2 :: rest) content child) as [child'|] eqn:Hc;
        [|discriminate].
      injection Hw as <-. destruct (IH _ _ Hc) as [Hp Hother]. split.
      * unfold fs.stat. rewrite lookup_upsert_eq. exact Hp.
      * intros q Hq. destruct q as [|s' q']; [reflexivity|].
        unfold fs.stat. destruct (String.eqb_spec s s') as [<-|Hne].
        -- rewrite lookup_upsert_eq, lookup_cons, Ha.
           apply Hother. congruence.
        -- rewrite lookup_upsert_ne by exact Hne. reflexivity.
Qed.

(** A file can be written where the directory exists and the path is not a
    directory. *)
Lemma writeFile_succeeds dir name content node :
  fs.stat dir node = Some None ->
  fs.stat (dir ++ [name]) node <> Some None ->
  exists node', fs.writeFile (dir ++ [name]) content node = Some node'.
Proof.
  revert node. induction dir as [|s rest IH]; intros node Hd Hf.
  - destruct node as [|entries]; [discriminate Hd|]. simpl.
    unfold fs.stat in Hf. simpl app in Hf. rewrite lookup_cons in Hf.
    destruct (fs.assoc name entries) as [[c|es]|]; eauto.
    simpl in Hf. congruence.
  - destruct node as [|entries]; [discriminate Hd|].
    unfold fs.stat in Hd, Hf. simpl app in Hf. rewrite lookup_cons in Hd, Hf.
    change ((s :: rest) ++ [name]) with (s :: (rest ++ [name])).
    assert (Hshape : exists s2 rest2, rest ++ [name] = s2 :: rest2)
      by (destruct rest; simpl; eauto).
    destruct Hshape as (s2 & rest2 & E).
    rewrite E, writeFile_cons, <- E.
    destruct (fs.assoc s entries) as [child|]; [|discriminate Hd].
    destruct (IH child Hd Hf) as [child' ->]. eauto.
Qed.

Lemma lookup_app q1 q2 node :
  fs.lookup (q1 ++ q2) node
  = match fs.lookup q1 node with
    | Some inner => fs.lookup q2 inner
    | None => None
    end.
Proof.
  revert node. induction q1 as [|s q1 IH]; intros node; [reflexivity|].
  simpl. destruct node as [|entries]; [reflexivity|].
  destruct (fs.assoc s entries); [apply IH | reflexivity].
Qed.

Lemma lookup_snoc dir name entries node :
  fs.lookup dir node = Some (fs.Dir entries) ->
  fs.lookup (dir ++ [name]) node = fs.assoc name entries.
Proof.
  intros H. rewrite lookup_app, H. simpl.
  destruct (fs.assoc name entries); reflexivity.
Qed.

Lemma lookup_snoc_exists dir name node :
  fs.lookup (dir ++ [name]) node <> None ->
  exists entries, fs.lookup dir node = Some (fs.Dir entries)
                  /\ fs.assoc name entries <> None.
Proof.
  rewrite lookup_app. destruct (fs.lookup dir node) as [[c|entries]|]; simpl;
    try congruence.
  intros H. exists entries. split; [reflexivity|].
  destruct (fs.assoc name entries); congruence.
Qed.

Lemma assoc_removeEntry_eq name entries :
  fs.assoc name (fs.removeEntry name entries) = None.
Proof.
  induction entries as [|[n old] rest IH]; simpl; [reflexivity|].
  destruct (String.eqb n name) eqn:E; [exact IH|].
  simpl. rewrite E. exact IH.
Qed.

Lemma assoc_removeEntry_ne name other entries :
  name <> other ->
  fs.assoc other (fs.removeEntry name entries) = fs.assoc other entries.
Proof.
  intros Hne. induction entries as [|[n old] rest IH]; simpl; [reflexivity|].
  destruct (String.eqb_spec n name) as [->|Hn].
  - apply String.eqb_neq in Hne. rewrite Hne. exact IH.
  - simpl. destruct (String.eqb n other); [reflexivity | exact IH].
Qed.

Lemma remove_cons s s2 rest entries :
  fs.remove (s :: s2 :: rest) (fs.Dir entries)
  = match fs.assoc s entries with
    | Some child => fs.Dir (fs.upsert s (fs.remove (s2 :: rest) child) entries)
    | None => fs.Dir entries
    end.
Proof. reflexivity. Qed.

(** What [rm -rf] removes is gone. *)
Lemma lookup_remove_eq q node :
  q <> [] -> fs.lookup q (fs.remove q node) = None.
Proof.
  revert node. induction q as [|s rest IH]; intros node Hq; [congruence|].
  destruct node as [content|entries]; [destruct rest; reflexivity|].
  destruct rest as [|s2 rest].
  - simpl. rewrite assoc_removeEntry_eq. reflexivity.
  - rewrite remove_cons. destruct (fs.assoc s entries) as [child|] eqn:E.
    + rewrite lookup_upsert_eq. apply IH. discriminate.
    + rewrite lookup_cons, E. reflexivity.
Qed.

(** Removing creates nothing. *)
Lemma lookup_remove_none p q node :
  fs.lookup q node = None -> fs.lookup q (fs.remove p node) = None.
Proof.
  revert q node. induction p as [|s rest IH]; intros q node Hq; [exact Hq|].
  destruct node as [content|entries]; [destruct rest; exact Hq|].
  destruct q as [|t q']; [discriminate Hq|].
  destruct rest as [|s2 rest].
  - simpl. destruct (String.eqb_spec s t) as [->|Hne].
    + rewrite assoc_removeEntry_eq. reflexivity.
    + rewrite assoc_removeEntry_ne by exact Hne. exact Hq.
  - rewrite remove_cons. destruct (fs.assoc s entries) as [child|] eqn:E; [|exact Hq].
    destruct (String.eqb_spec s t) as [->|Hne].
    + rewrite lookup_upsert_eq. apply IH.
      rewrite lookup_cons, E in Hq. exact Hq.
    + rewrite lookup_upsert_ne by exact Hne. exact Hq.
Qed.

(** Induction on a tree, with the property at hand for every entry of a
    directory. *)
Lemma tree_ind (P : fs.Node -> Prop) :
  (forall content, P (fs.File content)) ->
  (forall entries, Forall (fun entry => P (snd entry)) entries -> P (fs.Dir entries)) ->
  forall node, P node.
Proof.
  intros HF HD. fix IH 1. intros [content|entries]; [apply HF|].
  apply HD. induction entries as [|[name child] rest IHrest];
    constructor; [apply IH | exact IHrest].
Qed.

(** The removal stops at the first entry that is refused: what stands
    before it is gone, the entry and what stands after it are left. *)
Example removeTree_stops :
  fs.removeTree (fun q => bool_decide (q = ["d"; "b"])) ["d"]
    (fs.Dir [("a", fs.File "1"); ("b", fs.File "2"); ("c", fs.File "3")])
  = Some (fs.Dir [("b", fs.File "2"); ("c", fs.File "3")])
  /\ fs.removeTree (fun _ => false) ["d"]
       (fs.Dir [("a", fs.File "1"); ("sub", fs.Dir [("b", fs.File "2")])])
     = None.
Proof. vm_compute. split; reflexivity. Qed.

(** Where nothing at or below a place is refused, the removal goes
    through. *)
Lemma removeTree_free refused node :
  forall location,
    (forall q, location `prefix_of` q -> refused q = false) ->
    fs.removeTree refused location node = None.
Proof.
  induction node as [content|entries IH] using tree_ind; intros location Hfree;
    cbn [fs.removeTree].
  - rewrite Hfree by reflexivity. reflexivity.
  - match goal with
    | |- match ?g entries with _ => _ end = None => set (removeEntries := g)
    end.
    assert (Hall : removeEntries entries = []).
    { induction IH as [|[name child] rest Hchild _ IHrest]; [reflexivity|].
      cbn [snd] in Hchild. unfold removeEntries. cbn.
      rewrite Hchild; [exact IHrest|].
      intros q Hq. apply Hfree. etransitivity; [|exact Hq].
      apply prefix_app_r. reflexivity. }
    rewrite Hall. rewrite Hfree by reflexivity. reflexivity.
Qed.

End FsFacts.

(** ** Iteration-log preservation *)

Section IterationLogs.
Import JsString Sys SessionWorktree.

Local Abbreviation plainList := (Forall (fun x => path.isPlain x = true)).

Lemma sameButFiles_refl w : sameButFiles w w.
Proof. repeat split. Qed.

Lemma sameButFiles_trans w1 w2 w3 :
  sameButFiles w1 w2 -> sameButFiles w2 w3 -> sameButFiles w1 w3.
Proof.
  unfold sameButFiles. intros (? & ? & ? & ? & ? & ?) (? & ? & ? & ? & ? & ?).
  repeat split; congruence.
Qed.

Lemma sameButFiles_setRoot w w' r : sameButFiles w w' -> sameButFiles w (setRoot r w').
Proof. intros H. exact H. Qed.

Lemma stat_exists q node : fs.stat q node <> None <-> fs.lookup q node <> None.
Proof. unfold fs.stat. destruct (fs.lookup q node) as [[|]|]; split; congruence. Qed.

(** One pass of the loop leaves every existing path as it is. *)
Lemma preserveLog_existing wdir mdir file w :
  let w' := worldOf (preserveLog wdir mdir file w) in
  sameButFiles w w'
  /\ forall q, fs.lookup q (root w) <> None -> fs.stat q (root w') = fs.stat q (root w).
Proof.
  unfold preserveLog. destruct (endsWith file ".log"); [|split; [apply sameButFiles_refl | reflexivity]].
  unfold bind, existsSync.
  destruct (fs.lookup (segmentsIn w (path.join [mdir; file])) (root w)) as [present|] eqn:Hdest;
    simpl; [split; [apply sameButFiles_refl | reflexivity]|].
  unfold copyFileSync.
  destruct (fs.lookup (segmentsIn w (path.join [wdir; file])) (root w)) as [[content|entries]|];
    simpl; try (split; [apply sameButFiles_refl | reflexivity]).
  destruct (fs.writeFile _ content (root w)) as [r|] eqn:Hw; simpl;
    [|split; [apply sameButFiles_refl | reflexivity]].
  split; [repeat split|].
  intros q Hq. apply (writeFile_stat _ _ _ _ Hw). congruence.
Qed.

Lemma stat_preserved_exists q node node' :
  fs.stat q node' = fs.stat q node -> fs.lookup q node <> None ->
  fs.lookup q node' <> None.
Proof. intros E H. apply stat_exists. rewrite E. apply stat_exists, H. Qed.

Lemma preserveLogs_existing wdir mdir files w :
  let w' := worldOf (forOf files (preserveLog wdir mdir) w) in
  sameButFiles w w'
  /\ forall q, fs.lookup q (root w) <> None -> fs.stat q (root w') = fs.stat q (root w).
Proof.
  revert w. induction files as [|file files IH]; intros w; simpl;
    [split; [apply sameButFiles_refl | reflexivity]|].
  pose proof (preserveLog_existing wdir mdir file w) as [Hsame Hstep].
  unfold bind. destruct (preserveLog wdir mdir file w) as [[] w1|msg w1] eqn:E;
    simpl in *; [|split; assumption].
  destruct (IH w1) as [Hsame' Hrest]. split.
  - eapply sameButFiles_trans; eassumption.
  - intros q Hq. rewrite Hrest; [apply Hstep, Hq|].
    eapply stat_preserved_exists; [apply Hstep, Hq | exact Hq].
Qed.

Lemma names_plain : plainList [".ralph-tui"; "iterations"].
Proof. repeat constructor. Qed.

Lemma logsDir_segments base w :
  path.isAbsolute base = true ->
  segmentsIn w (path.join [base; ".ralph-tui"; "iterations"]) = iterationsDir base.
Proof.
  intros Hb. apply segments_join; [exact Hb | discriminate | apply names_plain].
Qed.

Lemma logFile_segments base file w :
  path.isAbsolute base = true -> path.isPlain file = true ->
  segmentsIn w (path.join [path.join [base; ".ralph-tui"; "iterations"]; file])
  = iterationsDir base ++ [file].
Proof.
  intros Hb Hf. unfold segmentsIn.
  rewrite segments_join.
  - rewrite normal_join; [reflexivity | exact Hb | discriminate | apply names_plain].
  - apply isAbsolute_join; [exact Hb | discriminate | apply names_plain].
  - discriminate.
  - constructor; [exact Hf | constructor].
Qed.

Lemma assoc_In name entries :
  fs.assoc name entries <> None <-> In name (map fst entries).
Proof.
  induction entries as [|[n node] rest IH]; simpl; [split; [congruence | tauto]|].
  destruct (String.eqb_spec n name) as [->|Hne].
  - split; [auto | congruence].
  - rewrite IH. split; [auto | intros [E|H]; [congruence | exact H]].
Qed.

Variables mainCwd worktreePath : string.
Hypothesis main_absolute : path.isAbsolute mainCwd = true.
Hypothesis worktree_absolute : path.isAbsolute worktreePath = true.

Local Abbreviation wdir := (path.join [worktreePath; ".ralph-tui"; "iterations"]).
Local Abbreviation mdir := (path.join [mainCwd; ".ralph-tui"; "iterations"]).
Local Abbreviation W := (iterationsDir worktreePath).
Local Abbreviation M := (iterationsDir mainCwd).

(** What one pass of the loop does, by cases. *)
Local Abbreviation logsPlain :=
  (Forall (fun f => endsWith f ".log" = true -> path.isPlain f = true)).

Lemma preserveLog_cases file w :
  (endsWith file ".log" = true -> path.isPlain file = true) ->
  let o := preserveLog wdir mdir file w in
  (endsWith file ".log" = false /\ o = Returned tt w)
  \/ (endsWith file ".log" = true /\ fs.lookup (M ++ [file]) (root w) <> None
      /\ o = Returned tt w)
  \/ (endsWith file ".log" = true /\ fs.lookup (M ++ [file]) (root w) = None
      /\ fs.stat (W ++ [file]) (root w) = None /\ exists msg, o = Thrown msg w)
  \/ (endsWith file ".log" = true /\ fs.lookup (M ++ [file]) (root w) = None
      /\ fs.stat (W ++ [file]) (root w) = Some None /\ exists msg, o = Thrown msg w)
  \/ (endsWith file ".log" = true /\ fs.lookup (M ++ [file]) (root w) = None
      /\ exists content,
           fs.stat (W ++ [file]) (root w) = Some (Some content)
           /\ ((fs.writeFile (M ++ [file]) content (root w) = None
                /\ exists msg, o = Thrown msg w)
               \/ exists r, fs.writeFile (M ++ [file]) content (root w) = Some r
                            /\ o = Returned tt (setRoot r w))).
Proof.
  intros Hf o. subst o. unfold preserveLog.
  destruct (endsWith file ".log"); [|left; split; reflexivity].
  specialize (Hf eq_refl).
  right. unfold bind, existsSync, copyFileSync.
  rewrite !logFile_segments by assumption.
  unfold fs.stat.
  destruct (fs.lookup (M ++ [file]) (root w)) as [present|] eqn:Hd; simpl.
  - left. repeat split. congruence.
  - right. rewrite !logFile_segments by assumption.
    destruct (fs.lookup (W ++ [file]) (root w)) as [[content|entries]|] eqn:Hs.
    + right. right. repeat split. exists content. split; [reflexivity|].
      destruct (fs.writeFile (M ++ [file]) content (root w)) as [r|]; eauto.
    + right. left. repeat split. eauto.
    + left. repeat split. eauto.
Qed.

(** The files the loop adds are copies of [.log] files of the worktree. *)
Lemma preserveLogs_only_logs files w :
  logsPlain files ->
  (forall file, In file files -> fs.lookup (W ++ [file]) (root w) <> None) ->
  let w' := worldOf (forOf files (preserveLog wdir mdir) w) in
  forall q content,
    fs.stat q (root w') = Some (Some content) ->
    fs.stat q (root w) = Some (Some content)
    \/ exists file,
         In file files /\ endsWith file ".log" = true /\ q = M ++ [file]
         /\ fs.lookup q (root w) = None
         /\ fs.stat (W ++ [file]) (root w) = Some (Some content).
Proof.
  intros Hplain. revert w. induction Hplain as [|file files Hf Hfs IH];
    intros w Hexist w' q content Hq; [left; exact Hq|].
  subst w'. simpl in Hq. unfold bind in Hq.
  pose proof (preserveLog_existing wdir mdir file w) as [_ Hstep].
  assert (Hnext : forall w1, worldOf (preserveLog wdir mdir file w) = w1 ->
            fs.stat q (root (worldOf (forOf files (preserveLog wdir mdir) w1)))
              = Some (Some content) ->
            fs.stat q (root w1) = Some (Some content)
            \/ exists file',
                 In file' files /\ endsWith file' ".log" = true /\ q = M ++ [file']
                 /\ fs.lookup q (root w) = None
                 /\ fs.stat (W ++ [file']) (root w) = Some (Some content)).
  { intros w1 Hw1 Hq1.
    assert (Hexist1 : forall f, In f files -> fs.lookup (W ++ [f]) (root w1) <> None).
    { intros f Hin. subst w1. eapply stat_preserved_exists;
        [apply Hstep | ]; apply Hexist; right; exact Hin. }
    destruct (IH w1 Hexist1 q content Hq1) as [Hl|(f & Hin & He & -> & Hnone & Hsrc)];
      [left; exact Hl|].
    right. exists f. repeat split; try assumption.
    - destruct (fs.lookup (M ++ [f]) (root w)) eqn:E; [|reflexivity].
      exfalso.
      assert (Hex : fs.lookup (M ++ [f]) (root w1) <> None).
      { subst w1. eapply stat_preserved_exists; [apply Hstep |]; congruence. }
      congruence.
    - subst w1. rewrite <- Hstep; [exact Hsrc|]. apply Hexist. right. exact Hin. }
  destruct (preserveLog_cases file w Hf)
    as [(He & Ho)|[(He & Hd & Ho)|[(He & Hd & Hs & msg & Ho)|[(He & Hd & Hs & msg & Ho)
        |(He & Hd & c & Hs & [(Hw & msg & Ho)|(r & Hw & Ho)])]]]];
    rewrite Ho in Hq; simpl in Hq;
    try (destruct (Hnext w ltac:(rewrite Ho; reflexivity) Hq) as [Hl|(f & Hin & Hrest)];
         [left; exact Hl | right; exists f; split; [right; exact Hin | exact Hrest]]);
    try (left; exact Hq).
  destruct (Hnext (setRoot r w) ltac:(rewrite Ho; reflexivity) Hq)
    as [Hl|(f & Hin & Hrest)];
    [|right; exists f; split; [right; exact Hin | exact Hrest]].
  change (root (setRoot r w)) with r in Hl.
  destruct (writeFile_stat _ _ _ _ Hw) as [Hnew Hother].
  destruct (decide (q = M ++ [file])) as [->|Hne].
  - right. exists file. rewrite Hnew in Hl. injection Hl as <-.
    repeat split; try assumption. left. reflexivity.
  - left. rewrite <- (Hother q Hne). exact Hl.
Qed.

(** Where nothing fails, every [.log] file of the worktree ends up in the
    main directory: copied if there was nothing, and left alone otherwise. *)
Lemma preserveLogs_complete files w :
  logsPlain files ->
  fs.stat M (root w) = Some None ->
  (forall file, In file files -> endsWith file ".log" = true ->
     fs.lookup (M ++ [file]) (root w) <> None
     \/ exists content, fs.stat (W ++ [file]) (root w) = Some (Some content)) ->
  exists w',
    forOf files (preserveLog wdir mdir) w = Returned tt w'
    /\ forall file, In file files -> endsWith file ".log" = true ->
         fs.lookup (M ++ [file]) (root w') <> None
         /\ (fs.lookup (M ++ [file]) (root w) = None ->
             fs.stat (M ++ [file]) (root w') = fs.stat (W ++ [file]) (root w)).
Proof.
  intros Hplain. revert w. induction Hplain as [|file files Hf Hfs IH];
    intros w HM Hnf; [exists w; split; [reflexivity | intros ? []]|].
  assert (Hnf' : forall f, In f files -> endsWith f ".log" = true ->
            fs.lookup (M ++ [f]) (root w) <> None
            \/ exists content, fs.stat (W ++ [f]) (root w) = Some (Some content))
    by (intros f Hin; apply Hnf; right; exact Hin).
  assert (Hsame : forall w', forOf files (preserveLog wdir mdir) w = Returned tt w' ->
            forall q, fs.lookup q (root w) <> None ->
                      fs.stat q (root w') = fs.stat q (root w)).
  { intros w' Hrun q Hq.
    pose proof (preserveLogs_existing wdir mdir files w) as [_ H].
    rewrite Hrun in H. apply H, Hq. }
  simpl. unfold bind.
  destruct (preserveLog_cases file w Hf)
    as [(He & Ho)|[(He & Hd & Ho)|[(He & Hd & Hs & msg & Ho)|[(He & Hd & Hs & msg & Ho)
        |(He & Hd & c & Hs & [(Hw & msg & Ho)|(r & Hw & Ho)])]]]]; rewrite Ho.
  - (* not a log *)
    destruct (IH w HM Hnf') as (w' & Hrun & Hall). exists w'. split; [exact Hrun|].
    intros f [<-|Hin] Hlog; [congruence | apply Hall; assumption].
  - (* already there *)
    destruct (IH w HM Hnf') as (w' & Hrun & Hall). exists w'. split; [exact Hrun|].
    intros f [<-|Hin] Hlog; [|apply Hall; assumption].
    split; [|congruence].
    eapply stat_preserved_exists; [apply (Hsame w' Hrun) |]; exact Hd.
  - (* the source is missing *)
    exfalso. destruct (Hnf file (or_introl eq_refl) He) as [H|[c H]]; congruence.
  - (* the source is a directory *)
    exfalso. destruct (Hnf file (or_introl eq_refl) He) as [H|[c H]]; congruence.
  - (* the file cannot be written *)
    exfalso. destruct (writeFile_succeeds M file c (root w) HM) as [r Hr]; [|congruence].
    unfold fs.stat. rewrite Hd. discriminate.
  - (* the copy *)
    destruct (writeFile_stat _ _ _ _ Hw) as [Hnew Hother].
    assert (HM1 : fs.stat M (root (setRoot r w)) = Some None).
    { change (root (setRoot r w)) with r. rewrite Hother; [exact HM|].
      intros E. apply (f_equal (@length string)) in E.
      rewrite length_app in E. simpl in E. lia. }
    assert (Hkeep : forall q, fs.lookup q (root w) <> None ->
              fs.stat q r = fs.stat q (root w)).
    { intros q Hq. apply Hother. congruence. }
    assert (Hnf1 : forall f, In f files -> endsWith f ".log" = true ->
              fs.lookup (M ++ [f]) (root (setRoot r w)) <> None
              \/ exists content,
                   fs.stat (W ++ [f]) (root (setRoot r w)) = Some (Some content)).
    { intros f Hin Hlog. change (root (setRoot r w)) with r.
      destruct (Hnf' f Hin Hlog) as [Hex|[c' Hc']].
      - left. eapply stat_preserved_exists; [apply Hkeep |]; exact Hex.
      - right. exists c'. rewrite Hkeep; [exact Hc'|].
        apply stat_exists. congruence. }
    destruct (IH (setRoot r w) HM1 Hnf1) as (w' & Hrun & Hall).
    exists w'. split; [exact Hrun|].
    pose proof (preserveLogs_existing wdir mdir files (setRoot r w)) as [_ Hlater].
    rewrite Hrun in Hlater. change (root (setRoot r w)) with r in Hlater.
    simpl worldOf in Hlater.
    assert (Hhere : fs.lookup (M ++ [file]) r <> None)
      by (apply stat_exists; congruence).
    intros f [<-|Hin] Hlog.
    + split; [eapply stat_preserved_exists; [apply Hlater |]; exact Hhere|].
      intros _. rewrite Hlater by exact Hhere. congruence.
    + destruct (Hall f Hin Hlog) as [Hex Hcopy]. split; [exact Hex|].
      intros Hnone. change (root (setRoot r w)) with r in Hcopy.
      destruct (decide (M ++ [f] = M ++ [file])) as [E|Hne].
      * rewrite E. rewrite Hlater by exact Hhere.
        apply app_inv_head in E. injection E as ->. congruence.
      * assert (Hn1 : fs.lookup (M ++ [f]) r = None).
        { destruct (fs.lookup (M ++ [f]) r) eqn:E1; [|reflexivity].
          exfalso. pose proof (Hother (M ++ [f]) Hne) as Hst.
          unfold fs.stat in Hst. rewrite E1, Hnone in Hst.
          destruct n; discriminate Hst. }
        rewrite (Hcopy Hn1).
        destruct (Hnf' f Hin Hlog) as [Hex'|[c' Hc']]; [congruence|].
        apply Hkeep. apply stat_exists. congruence.
Qed.

Lemma iterationsDir_plain base : plainList (iterationsDir base).
Proof.
  apply Forall_app. split; [|apply names_plain].
  apply normalizeSegments_plain, split_pieces_noSlash.
Qed.

Lemma prefix_snoc_In {A} (l : list A) x (m : list A) :
  (l ++ [x]) `prefix_of` m -> In x m /\ l `prefix_of` m.
Proof.
  intros [k ->]. split.
  - apply in_or_app. left. apply in_or_app. right. left. reflexivity.
  - exists ([x] ++ k). rewrite <- app_assoc. reflexivity.
Qed.

Lemma not_prefix_longer {A} (m : list A) x : ~ (m ++ [x]) `prefix_of` m.
Proof.
  intros [k E]. apply (f_equal (@length A)) in E.
  rewrite !length_app in E. simpl in E. lia.
Qed.


End IterationLogs.

Section IterationLogScenarios.
Import JsString Sys SessionWorktree LogScenario.

Example preserve_two_logs :
  let after := root (Sys.worldOf (preserveIterationLogs "/main" "/wt" twoLogs)) in
  fs.stat ["main"; ".ralph-tui"; "iterations"; "1.log"] after = Some (Some "kept")
  /\ fs.stat ["main"; ".ralph-tui"; "iterations"; "2.log"] after = Some (Some "two")
  /\ fs.lookup ["main"; ".ralph-tui"; "iterations"; "notes.txt"] after = None.
Proof. vm_compute. repeat split. Qed.



End IterationLogScenarios.

(** * Where the PRD of a JSON tracker goes *)

Section PrdPathFacts.
Import JsString Sys SessionWorktree.

Local Abbreviation plainList := (Forall (fun x => path.isPlain x = true)).
Local Abbreviation normal p := (path.normalizeSegments false (split "/"%char p)).

Lemma all_sliceTo p n s : all p s = true -> all p (sliceTo n s) = true.
Proof.
  revert s. induction n as [|n IH]; intros s H; [reflexivity|].
  destruct s as [|c s]; [reflexivity|]. simpl in *.
  apply andb_true_iff in H as [Hc Hs]. rewrite Hc. apply IH, Hs.
Qed.

Lemma length_sliceTo n s : (String.length (sliceTo n s) <= n)%nat.
Proof.
  revert s. induction n as [|n IH]; intros s; [simpl; lia|].
  destruct s as [|c s]; simpl; [lia|]. specialize (IH s). lia.
Qed.

Lemma all_collapseRuns p c s : all p s = true -> all p (collapseRuns c s) = true.
Proof.
  induction s as [|a s IH]; intros H; [reflexivity|].
  simpl in H. apply andb_true_iff in H as [Ha Hs]. specialize (IH Hs).
  simpl. destruct s as [|b s']; [simpl; rewrite Ha; reflexivity|].
  destruct (Ascii.eqb a c && Ascii.eqb b c); [exact IH|].
  change (p a && all p (collapseRuns c (String b s')) = true).
  rewrite Ha. exact IH.
Qed.

Lemma all_replaceOutside keep r s :
  keep r = true -> all keep (replaceOutside keep r s) = true.
Proof.
  intros Hr. induction s as [|c s IH]; [reflexivity|]. simpl.
  rewrite IH. destruct (keep c) eqn:E; [rewrite E | rewrite Hr]; reflexivity.
Qed.

Lemma all_impl (p q : ascii -> bool) s :
  (forall c, p c = true -> q c = true) -> all p s = true -> all q s = true.
Proof.
  intros Hpq. induction s as [|c s IH]; intros H; [reflexivity|].
  simpl in *. apply andb_true_iff in H as [Hc Hs].
  rewrite (Hpq _ Hc). apply IH, Hs.
Qed.

Lemma safeBaseChar_noSlash c : isSafeBaseChar c = true -> negb (path.isSlash c) = true.
Proof.
  intros H. destruct (path.isSlash c) eqn:E; [|reflexivity].
  apply Ascii.eqb_eq in E. subst c. discriminate H.
Qed.

Lemma startsWith_append s t p : startsWith s p = true -> startsWith (s +:+ t) p = true.
Proof.
  unfold startsWith. revert s. induction p as [|a p IH]; intros s H; [reflexivity|].
  destruct s as [|b s]; [discriminate H|]. rewrite append_cons. simpl in *.
  destruct (Ascii.eqb a b); [apply IH, H | discriminate H].
Qed.

Lemma join_head_startsWith x l p :
  startsWith x p = true -> startsWith (JsString.join "/" (x :: l)) p = true.
Proof.
  intros H. destruct l as [|y l]; [exact H|].
  rewrite join_cons. apply startsWith_append, H.
Qed.

Lemma join_head_prefix x l p :
  path.noSlash x = true -> path.noSlash p = true ->
  startsWith (JsString.join "/" (x :: l)) p = startsWith x p.
Proof.
  intros Hx Hp. destruct l as [|y l]; [reflexivity|]. rewrite join_cons.
  generalize (JsString.join "/" (y :: l)) as rest. intros rest.
  unfold startsWith. revert x Hx. induction p as [|a p IH]; intros x Hx; [reflexivity|].
  simpl in Hp. apply andb_true_iff in Hp as [Ha Hp].
  destruct x as [|b x].
  - rewrite append_nil_l. change ("/" +:+ rest) with (String "/"%char rest). simpl.
    destruct (Ascii.eqb_spec a "/"%char) as [->|Hne]; [discriminate Ha | reflexivity].
  - rewrite append_cons. simpl. simpl in Hx. apply andb_true_iff in Hx as [_ Hx].
    destruct (Ascii.eqb a b); [apply IH; assumption | reflexivity].
Qed.

Lemma join_plain_not_absolute x l :
  path.isPlain x = true -> path.isAbsolute (JsString.join "/" (x :: l)) = false.
Proof.
  intros Hx. apply isPlain_spec in Hx as (Hne & _ & _ & Hns).
  destruct x as [|c x]; [congruence|].
  assert (Hc : Ascii.eqb c "/"%char = false).
  { simpl in Hns. apply andb_true_iff in Hns as [Hc _].
    unfold path.isSlash in Hc. destruct (Ascii.eqb c "/"%char); [discriminate|reflexivity]. }
  destruct l as [|y l]; [exact Hc|]. rewrite join_cons, append_cons. exact Hc.
Qed.

(** [isPathInside] between absolute paths: the candidate lies at or below
    the base, and its first segment below the base does not start with two
    dots. *)
Lemma isPathInside_absolute processCwd baseDir candidate :
  path.isAbsolute baseDir = true -> path.isAbsolute candidate = true ->
  isPathInside processCwd baseDir candidate = true
  <-> exists rest,
        normal candidate = normal baseDir ++ rest
        /\ match rest with
           | [] => True
           | x :: _ => startsWith x ".." = false
           end.
Proof.
  intros Hb Hc. unfold isPathInside. rewrite relative_absolute by assumption.
  destruct (path.dropCommonPrefix (normal baseDir) (normal candidate)) as [f t] eqn:E.
  pose proof (dropCommonPrefix_spec _ _ _ _ E) as (common & Hbase & Hcand).
  pose proof (dropCommonPrefix_diverge _ _ _ _ E) as Hdiv.
  assert (Hplain : plainList (f ++ t)).
  { apply Forall_app. pose proof (normal_plain baseDir) as H1.
    pose proof (normal_plain candidate) as H2. rewrite Hbase in H1. rewrite Hcand in H2.
    apply Forall_app in H1 as [_ H1]. apply Forall_app in H2 as [_ H2]. split; assumption. }
  cbn [fst snd]. split.
  - intros H. destruct f as [|x f].
    + exists t. rewrite app_nil_r in Hbase. subst common. split; [exact Hcand|].
      destruct t as [|y t]; [exact I|]. cbn [map app] in H.
      apply Forall_cons in Hplain as [Hy Hplain'].
      pose proof Hy as Hy'. apply isPlain_spec in Hy' as (_ & _ & _ & Hns).
      rewrite (join_head_prefix y t ".." Hns eq_refl) in H.
      destruct (startsWith y ".."); [|reflexivity].
      rewrite andb_false_l, orb_false_r in H. apply String.eqb_eq in H.
      exfalso. revert H. apply join_plain_truthy.
      apply Forall_cons. split; [exact Hy|]. exact Hplain'.
    + exfalso. cbn [map app] in H.
      assert (Hs : startsWith (JsString.join "/" (".." :: map (fun _ => "..") f ++ t)) ".."
                   = true) by (apply join_head_startsWith; reflexivity).
      rewrite Hs in H. rewrite andb_false_l, orb_false_r in H.
      apply String.eqb_eq in H.
      destruct (map (fun _ => "..") f ++ t) as [|z zs]; [discriminate H|].
      rewrite join_cons in H. discriminate H.
  - intros (rest & Hrest & Hhead).
    assert (Hf : f = [] /\ t = rest).
    { rewrite Hbase in Hrest. rewrite Hcand in Hrest. rewrite <- app_assoc in Hrest.
      apply app_inv_head in Hrest. destruct f as [|x f]; [split; [reflexivity|exact Hrest]|].
      exfalso. destruct t as [|y t].
      - apply (f_equal (@length string)) in Hrest. simpl in Hrest.
        rewrite length_app in Hrest. simpl in Hrest. lia.
      - simpl in Hrest. injection Hrest as Hxy _. apply Hdiv. congruence. }
    destruct Hf as [-> ->]. cbn [map app].
    destruct rest as [|y rest]; [reflexivity|].
    apply Forall_cons in Hplain as [Hy _].
    pose proof Hy as Hy'. apply isPlain_spec in Hy' as (_ & _ & _ & Hns).
    rewrite (join_head_prefix y rest ".." Hns eq_refl), Hhead.
    rewrite (join_plain_not_absolute y rest Hy). apply orb_true_r.
Qed.

Lemma hexDigit_noSlash y :
  negb (path.isSlash (crypto.hexDigit (Z.land y 15))) = true.
Proof.
  change 15 with (Z.ones 4). rewrite Z.land_ones by lia.
  pose proof (Z.mod_pos_bound y (2 ^ 4) eq_refl) as Hb.
  set (n := y mod 2 ^ 4) in *. change (2 ^ 4) with 16 in Hb.
  assert (Hall : forallb (fun k => negb (path.isSlash (crypto.hexDigit (Z.of_nat k))))
                   (seq 0 16) = true) by reflexivity.
  rewrite forallb_forall in Hall.
  rewrite <- (Z2Nat.id n) by lia. apply Hall, in_seq. lia.
Qed.

Lemma hexOf_noSlash digits x : path.noSlash (crypto.hexOf digits x) = true.
Proof.
  induction digits as [|d IH]; [reflexivity|].
  unfold path.noSlash in *. cbn [crypto.hexOf all].
  rewrite hexDigit_noSlash. exact IH.
Qed.

Lemma noSlash_append a b :
  path.noSlash (a +:+ b) = path.noSlash a && path.noSlash b.
Proof. apply all_append. Qed.

Lemma sha1Hex_noSlash text : path.noSlash (crypto.sha1Hex text) = true.
Proof.
  unfold crypto.sha1Hex.
  destruct (fold_left crypto.compress _ crypto.initial) as [[[[h0 h1] h2] h3] h4].
  rewrite !noSlash_append, !hexOf_noSlash. reflexivity.
Qed.

Lemma safeBaseOf_chars rawBase : all isSafeBaseChar (safeBaseOf rawBase) = true.
Proof.
  unfold safeBaseOf.
  destruct (truthy (sliceTo 64 _)); [|reflexivity].
  apply all_sliceTo, all_collapseRuns, all_replaceOutside. reflexivity.
Qed.

Lemma safeBaseOf_truthy rawBase : truthy (safeBaseOf rawBase) = true.
Proof.
  unfold safeBaseOf. destruct (truthy (sliceTo 64 _)) eqn:E; [exact E | reflexivity].
Qed.

Lemma splitLast_after p c s before after :
  splitLast c s = Some (before, after) -> all p s = true -> all p after = true.
Proof.
  revert before. induction s as [|a s IH]; intros before H Hall; [discriminate H|].
  simpl in *. apply andb_true_iff in Hall as [Ha Hs].
  destruct (splitLast c s) as [[b d]|].
  - injection H as _ <-. eapply IH; [reflexivity | exact Hs].
  - destruct (Ascii.eqb a c); [|discriminate H]. injection H as _ <-. exact Hs.
Qed.

Lemma lastSegment_render_noSlash l :
  plainList l -> path.noSlash (path.lastSegment (path.render l)) = true.
Proof.
  intros Hl. destruct l as [|y l0]; [reflexivity|].
  destruct (@exists_last _ (y :: l0)) as (l' & x & E); [discriminate|].
  rewrite E in *.
  apply Forall_app in Hl as [Hl' Hx]. apply Forall_cons in Hx as [Hx _].
  rewrite lastSegment_render by assumption.
  apply isPlain_spec in Hx. tauto.
Qed.

Lemma extname_render_noSlash l :
  plainList l -> path.noSlash (path.extname (path.render l)) = true.
Proof.
  intros Hl. unfold path.extname.
  pose proof (lastSegment_render_noSlash l Hl) as Hbase.
  destruct (splitLast "."%char (path.lastSegment (path.render l))) as [[b a]|] eqn:E;
    [|reflexivity].
  destruct (_ || _); [reflexivity|].
  unfold path.noSlash. cbn [all]. apply (splitLast_after _ _ _ _ _ E Hbase).
Qed.

(** The file name of a rebased PRD is a single path segment. *)
Lemma external_name_plain safeBase hash ext :
  path.noSlash safeBase = true -> path.noSlash hash = true ->
  path.noSlash ext = true ->
  path.isPlain (safeBase +:+ "-" +:+ hash +:+ ext) = true.
Proof.
  intros Hs Hh He.
  set (name := safeBase +:+ "-" +:+ hash +:+ ext).
  assert (Hdash : all (fun c => Ascii.eqb c "."%char) name = false).
  { unfold name. rewrite all_append. apply andb_false_iff. right.
    rewrite append_cons. reflexivity. }
  apply isPlain_spec. repeat split.
  - intros E. rewrite E in Hdash. discriminate Hdash.
  - intros E. rewrite E in Hdash. discriminate Hdash.
  - intros E. rewrite E in Hdash. discriminate Hdash.
  - unfold name. rewrite !noSlash_append, Hs, Hh, He. reflexivity.
Qed.

Lemma segments_normalize processCwd p :
  path.isAbsolute p = true ->
  path.segments processCwd (path.normalize p) = normal p.
Proof.
  intros Hp. unfold path.normalize.
  destruct (String.eqb_spec p "") as [->|_]; [discriminate Hp|].
  rewrite Hp. cbn [negb]. unfold path.normalizeString.
  pose proof (normal_plain p) as Hplain.
  destruct (normal p) as [|x l] eqn:E.
  - reflexivity.
  - assert (Hne : JsString.join "/" (x :: l) <> "") by (apply join_plain_truthy, Hplain).
    destruct (String.eqb_spec (JsString.join "/" (x :: l)) "") as [E0|_]; [congruence|].
    destruct (endsWith p "/").
    + rewrite <- append_assoc. fold (path.render (x :: l)).
      rewrite segments_absolute
        by (unfold path.render; rewrite slash_append, append_cons; reflexivity).
      change (path.render (x :: l) +:+ "/")
        with (path.render (x :: l) +:+ String "/"%char "").
      rewrite split_app_slash, split_empty.
      rewrite (proj1 (normalizeSegments_skip false _)).
      apply split_render, Hplain.
    + fold (path.render (x :: l)). apply segments_render, Hplain.
Qed.

Lemma relative_below processCwd base rest :
  path.isAbsolute base = true -> plainList rest ->
  path.relative processCwd base (path.render (normal base ++ rest))
  = JsString.join "/" rest.
Proof.
  intros Hb Hrest.
  rewrite relative_absolute by (assumption || apply isAbsolute_render).
  rewrite split_render by (apply Forall_app; split; [apply normal_plain | exact Hrest]).
  rewrite dropCommonPrefix_app. reflexivity.
Qed.

Lemma join_joined base rest :
  rest <> [] -> plainList rest -> path.isAbsolute base = true ->
  path.join [base; JsString.join "/" rest] = path.join (base :: rest).
Proof.
  intros Hne Hrest Hb. unfold path.join.
  assert (Hbt : truthy base = true) by (destruct base; [discriminate Hb | reflexivity]).
  destruct rest as [|x rest]; [congruence|].
  assert (Hj : truthy (JsString.join "/" (x :: rest)) = true).
  { pose proof (join_plain_truthy x rest Hrest) as H.
    destruct (JsString.join "/" (x :: rest)); [congruence | reflexivity]. }
  cbn [List.filter]. rewrite Hbt, Hj.
  change (if truthy x then x :: List.filter truthy rest else List.filter truthy rest)
    with (List.filter truthy (x :: rest)).
  rewrite (plain_truthy (x :: rest) Hrest).
  rewrite (join_cons "/" base x rest). reflexivity.
Qed.

Lemma length_truthy s : (0 <? String.length s)%nat = truthy s.
Proof. destruct s; reflexivity. Qed.

(** The three cases of [resolveWorktreePrdPath] for absolute directories,
    in terms of the segments the PRD path resolves to. *)
Lemma resolveWorktreePrdPath_cases processCwd cwd worktreePath prdPath :
  path.isAbsolute cwd = true -> path.isAbsolute worktreePath = true ->
  let source := path.resolvedSegments cwd prdPath in
  let resolved := resolveWorktreePrdPath processCwd cwd worktreePath prdPath in
  sourcePrd resolved = path.render source
  /\ ((isPathInside processCwd worktreePath (path.render source) = true
       /\ targetPrd resolved = path.render source
       /\ isExternal resolved = false)
      \/ (isPathInside processCwd worktreePath (path.render source) = false
          /\ isPathInside processCwd cwd (path.render source) = true
          /\ isExternal resolved = false
          /\ exists rest,
               source = normal cwd ++ rest
               /\ path.segments processCwd (targetPrd resolved)
                  = normal worktreePath
                    ++ match rest with
                       | [] => match last (normal cwd) with
                               | Some x => [x]
                               | None => []
                               end
                       | _ => rest
                       end
               /\ (rest <> [] \/ normal cwd <> [] ->
                   targetPrd resolved
                   = path.render
                       (normal worktreePath
                        ++ match rest with
                           | [] => match last (normal cwd) with
                                   | Some x => [x]
                                   | None => []
                                   end
                           | _ => rest
                           end)))
      \/ (isPathInside processCwd worktreePath (path.render source) = false
          /\ isPathInside processCwd cwd (path.render source) = false
          /\ isExternal resolved = true
          /\ exists name,
               path.isPlain name = true
               /\ name
                  = safeBaseOf (path.basename (path.render source)
                                  (Some (path.extname (path.render source))))
                    +:+ "-" +:+ sliceTo 8 (crypto.sha1Hex (path.render source))
                    +:+ (if truthy (path.extname (path.render source))
                         then path.extname (path.render source) else ".json")
               /\ targetPrd resolved
                  = path.render (normal worktreePath
                                 ++ [".ralph-tui"; "external-prd"; name]))).
Proof.
  intros Hc Hw source resolved.
  assert (Hsrc : plainList source) by apply resolvedSegments_plain.
  unfold resolved, resolveWorktreePrdPath.
  rewrite (resolve_in_absolute processCwd cwd prdPath Hc). fold source.
  destruct (isPathInside processCwd worktreePath (path.render source)) eqn:Hin.
  { split; [reflexivity|]. left. repeat split. }
  destruct (isPathInside processCwd cwd (path.render source)) eqn:Hproj.
  - split; [reflexivity|]. right. left. repeat split.
    apply (isPathInside_absolute processCwd cwd _ Hc (isAbsolute_render source)) in Hproj
      as (rest & Hrest & _).
    rewrite split_render in Hrest by exact Hsrc.
    exists rest. split; [exact Hrest|]. cbn [targetPrd].
    assert (Hplain : plainList rest).
    { rewrite Hrest in Hsrc. apply Forall_app in Hsrc. tauto. }
    rewrite Hrest, (relative_below processCwd cwd rest Hc Hplain), length_truthy.
    destruct rest as [|x rest].
    + cbn [JsString.join truthy]. rewrite app_nil_r.
      unfold path.basename.
      destruct (normal cwd) as [|y l0] eqn:E.
      * cbn [last]. rewrite app_nil_r.
        change (path.lastSegment (path.render [])) with "".
        unfold path.join.
        assert (Hbt : truthy worktreePath = true)
          by (destruct worktreePath; [discriminate Hw | reflexivity]).
        cbn [List.filter truthy]. rewrite Hbt. cbn [JsString.join].
        split; [apply segments_normalize, Hw | intros [H|H]; congruence].
      * destruct (@exists_last _ (y :: l0)) as (l' & z & El); [discriminate|].
        rewrite El. rewrite last_snoc.
        pose proof (normal_plain cwd) as Hcp. rewrite E, El in Hcp.
        apply Forall_app in Hcp as [Hl' Hz]. apply Forall_cons in Hz as [Hz _].
        rewrite lastSegment_render by assumption.
        assert (Hzl : plainList [z]) by (constructor; [exact Hz | constructor]).
        split; [apply segments_join | intros _; apply join_absolute];
          (exact Hw || discriminate || exact Hzl).
    + assert (Ht : truthy (JsString.join "/" (x :: rest)) = true).
      { pose proof (join_plain_truthy x rest Hplain) as H.
        destruct (JsString.join "/" (x :: rest)); [congruence | reflexivity]. }
      rewrite Ht. rewrite join_joined by (assumption || discriminate).
      split; [apply segments_join | intros _; apply join_absolute];
        (exact Hw || discriminate || exact Hplain).
  - split; [reflexivity|]. right. right. repeat split.
    eexists. split; [|split; [reflexivity|]].
    + apply external_name_plain.
      * eapply all_impl; [apply safeBaseChar_noSlash | apply safeBaseOf_chars].
      * apply all_sliceTo, sha1Hex_noSlash.
      * pose proof (extname_render_noSlash source Hsrc) as He.
        destruct (truthy (path.extname (path.render source))); [exact He | reflexivity].
    + cbn [targetPrd]. apply join_absolute; [exact Hw | discriminate |].
      constructor; [reflexivity|]. constructor; [reflexivity|].
      constructor; [|constructor].
      apply external_name_plain.
      * eapply all_impl; [apply safeBaseChar_noSlash | apply safeBaseOf_chars].
      * apply all_sliceTo, sha1Hex_noSlash.
      * pose proof (extname_render_noSlash source Hsrc) as He.
        destruct (truthy (path.extname (path.render source))); [exact He | reflexivity].
Qed.

Lemma prefix_app_cases {A} (q a b : list A) :
  q `prefix_of` a ++ b -> q `prefix_of` a \/ a `prefix_of` q.
Proof.
  revert a. induction q as [|x q IH]; intros a H.
  - left. apply prefix_nil.
  - destruct a as [|y a]; [right; apply prefix_nil|].
    destruct H as [k E]. simpl in E. injection E as -> E.
    destruct (IH a) as [[k1 ->]|[k2 ->]]; [eexists; exact E | |].
    + left. exists k1. reflexivity.
    + right. exists k2. reflexivity.
Qed.

(** Whatever the PRD path is, [resolveWorktreePrdPath] returns a target
    inside the worktree: the segments the target resolves to start with
    those of the worktree. *)
Theorem resolveWorktreePrdPath_target_in_worktree processCwd cwd worktreePath prdPath :
  path.isAbsolute cwd = true -> path.isAbsolute worktreePath = true ->
  let resolved := resolveWorktreePrdPath processCwd cwd worktreePath prdPath in
  sourcePrd resolved = path.resolve processCwd [cwd; prdPath]
  /\ path.segments processCwd worktreePath
       `prefix_of` path.segments processCwd (targetPrd resolved).
Proof.
  intros Hc Hw resolved.
  destruct (resolveWorktreePrdPath_cases processCwd cwd worktreePath prdPath Hc Hw)
    as (Hsrc & Hcases).
  fold resolved in Hsrc, Hcases.
  split; [rewrite Hsrc; symmetry; apply resolve_in_absolute, Hc|].
  rewrite (segments_absolute processCwd worktreePath Hw).
  destruct Hcases as [(Hin & -> & _)|[(_ & _ & _ & rest & _ & -> & _)
                                     |(_ & _ & _ & name & Hname & _ & ->)]].
  - apply isPathInside_absolute in Hin as (rest & Hrest & _);
      [|exact Hw | apply isAbsolute_render].
    rewrite segments_absolute by apply isAbsolute_render. rewrite Hrest.
    apply prefix_app_r. reflexivity.
  - apply prefix_app_r. reflexivity.
  - rewrite segments_render; [apply prefix_app_r; reflexivity|].
    apply Forall_app. split; [apply normal_plain|].
    constructor; [reflexivity|]. constructor; [reflexivity|].
    constructor; [exact Hname | constructor].
Qed.

Lemma not_inside_worktree processCwd worktreePath source :
  path.isAbsolute worktreePath = true -> plainList source ->
  ~ normal worktreePath `prefix_of` source ->
  isPathInside processCwd worktreePath (path.render source) = false.
Proof.
  intros Hw Hsrc Hnot.
  destruct (isPathInside processCwd worktreePath (path.render source)) eqn:E;
    [|reflexivity].
  exfalso. apply Hnot.
  apply isPathInside_absolute in E as (rest & Hrest & _);
    [|exact Hw | apply isAbsolute_render].
  rewrite split_render in Hrest by exact Hsrc. exists rest. exact Hrest.
Qed.

Lemma inside_base processCwd base source rest :
  path.isAbsolute base = true -> plainList source ->
  source = normal base ++ rest ->
  (forall x, head rest = Some x -> startsWith x ".." = false) ->
  isPathInside processCwd base (path.render source) = true.
Proof.
  intros Hb Hsrc Hrest Hhead.
  apply isPathInside_absolute; [exact Hb | apply isAbsolute_render|].
  exists rest. rewrite split_render by exact Hsrc. split; [exact Hrest|].
  destruct rest as [|x rest]; [exact I | apply Hhead; reflexivity].
Qed.

Lemma source_segments processCwd cwd worktreePath prdPath :
  path.isAbsolute cwd = true ->
  path.segments processCwd
    (sourcePrd (resolveWorktreePrdPath processCwd cwd worktreePath prdPath))
  = path.resolvedSegments cwd prdPath.
Proof.
  intros Hc.
  assert (E : sourcePrd (resolveWorktreePrdPath processCwd cwd worktreePath prdPath)
              = path.resolve processCwd [cwd; prdPath]).
  { unfold resolveWorktreePrdPath.
    destruct (isPathInside _ worktreePath _); [reflexivity|].
    destruct (isPathInside _ cwd _); reflexivity. }
  rewrite E, resolve_in_absolute by exact Hc.
  apply segments_render, resolvedSegments_plain.
Qed.

(** A PRD below the project keeps its layout: it goes to the worktree
    under the path it has relative to the project. *)
Theorem resolveWorktreePrdPath_keeps_layout processCwd cwd worktreePath prdPath rest :
  path.isAbsolute cwd = true -> path.isAbsolute worktreePath = true ->
  let resolved := resolveWorktreePrdPath processCwd cwd worktreePath prdPath in
  path.segments processCwd (sourcePrd resolved)
  = path.segments processCwd cwd ++ rest ->
  rest <> [] ->
  (forall x, head rest = Some x -> startsWith x ".." = false) ->
  ~ path.segments processCwd worktreePath
      `prefix_of` path.segments processCwd (sourcePrd resolved) ->
  targetPrd resolved = path.render (path.segments processCwd worktreePath ++ rest)
  /\ isExternal resolved = false.
Proof.
  intros Hc Hw resolved Hsrc Hne Hhead Hnot. unfold resolved in *.
  rewrite source_segments in Hsrc, Hnot by exact Hc.
  rewrite (segments_absolute processCwd cwd Hc) in Hsrc.
  rewrite (segments_absolute processCwd worktreePath Hw) in Hnot |- *.
  pose proof (resolvedSegments_plain cwd prdPath) as Hplain.
  destruct (resolveWorktreePrdPath_cases processCwd cwd worktreePath prdPath Hc Hw)
    as (_ & [(Hin & _)|[(_ & _ & Hext & rest' & Hrest' & _ & Htarget)|(_ & Hout & _)]]).
  - rewrite (not_inside_worktree processCwd worktreePath _ Hw Hplain Hnot) in Hin.
    discriminate Hin.
  - assert (rest' = rest) by (rewrite Hsrc in Hrest'; apply app_inv_head in Hrest'; congruence).
    subst rest'. split; [|exact Hext]. rewrite Htarget by (left; exact Hne).
    destruct rest; [congruence | reflexivity].
  - rewrite (inside_base processCwd cwd _ rest Hc Hplain Hsrc Hhead) in Hout.
    discriminate Hout.
Qed.

(** A PRD that lies neither below the project nor below the worktree is
    rebased: it goes to [.ralph-tui/external-prd] of the worktree, under a
    single-segment name made of the sanitized base name, eight hexadecimal
    digits of the SHA-1 of the source path, and the extension ([.json] when
    there is none). *)
Theorem resolveWorktreePrdPath_rebases_external processCwd cwd worktreePath prdPath :
  path.isAbsolute cwd = true -> path.isAbsolute worktreePath = true ->
  let resolved := resolveWorktreePrdPath processCwd cwd worktreePath prdPath in
  let source := sourcePrd resolved in
  ~ path.segments processCwd worktreePath `prefix_of` path.segments processCwd source ->
  ~ path.segments processCwd cwd `prefix_of` path.segments processCwd source ->
  let name :=
    safeBaseOf (path.basename source (Some (path.extname source)))
    +:+ "-" +:+ sliceTo 8 (crypto.sha1Hex source)
    +:+ (if truthy (path.extname source) then path.extname source else ".json") in
  isExternal resolved = true
  /\ path.isPlain name = true
  /\ targetPrd resolved
     = path.render (path.segments processCwd worktreePath
                    ++ [".ralph-tui"; "external-prd"; name]).
Proof.
  intros Hc Hw resolved source Hnotw Hnotc name.
  unfold source, resolved in Hnotw, Hnotc.
  rewrite source_segments in Hnotw, Hnotc by exact Hc.
  rewrite (segments_absolute processCwd cwd Hc) in Hnotc.
  rewrite (segments_absolute processCwd worktreePath Hw) in Hnotw |- *.
  pose proof (resolvedSegments_plain cwd prdPath) as Hplain.
  destruct (resolveWorktreePrdPath_cases processCwd cwd worktreePath prdPath Hc Hw)
    as (Hs & [(Hin & _)|[(_ & Hproj & _)|(_ & _ & Hext & name' & Hname & Hdef & Htarget)]]).
  - rewrite (not_inside_worktree processCwd worktreePath _ Hw Hplain Hnotw) in Hin.
    discriminate Hin.
  - rewrite (not_inside_worktree processCwd cwd _ Hc Hplain Hnotc) in Hproj.
    discriminate Hproj.
  - fold resolved in Hs, Hext, Htarget.
    assert (name' = name) by (unfold name, source; rewrite Hs; exact Hdef).
    rewrite H in Hname, Htarget. split; [exact Hext|]. split; [exact Hname|].
    exact Htarget.
Qed.

(** A PRD that is already below the worktree stays where it is (the resume
    path): source and target are the same file. *)
Theorem resolveWorktreePrdPath_keeps_worktree_prd processCwd cwd worktreePath prdPath rest :
  path.isAbsolute cwd = true -> path.isAbsolute worktreePath = true ->
  let resolved := resolveWorktreePrdPath processCwd cwd worktreePath prdPath in
  path.segments processCwd (sourcePrd resolved)
  = path.segments processCwd worktreePath ++ rest ->
  (forall x, head rest = Some x -> startsWith x ".." = false) ->
  targetPrd resolved = sourcePrd resolved /\ isExternal resolved = false.
Proof.
  intros Hc Hw resolved Hsrc Hhead. unfold resolved in *.
  rewrite source_segments in Hsrc by exact Hc.
  rewrite (segments_absolute processCwd worktreePath Hw) in Hsrc.
  pose proof (resolvedSegments_plain cwd prdPath) as Hplain.
  pose proof (inside_base processCwd worktreePath _ rest Hw Hplain Hsrc Hhead) as Hin.
  destruct (resolveWorktreePrdPath_cases processCwd cwd worktreePath prdPath Hc Hw)
    as (Hs & [(_ & Ht & Hext)|[(Hout & _)|(Hout & _)]]);
    [|rewrite Hin in Hout; discriminate Hout..].
  rewrite Hs, Ht. split; [reflexivity | exact Hext].
Qed.

(** Where source and target differ, the target is a file strictly below
    the worktree. *)
Lemma target_below_worktree processCwd cwd worktreePath prdPath :
  path.isAbsolute cwd = true -> path.isAbsolute worktreePath = true ->
  normal cwd <> [] ->
  let resolved := resolveWorktreePrdPath processCwd cwd worktreePath prdPath in
  sourcePrd resolved <> targetPrd resolved ->
  exists init x,
    plainList (init ++ [x])
    /\ targetPrd resolved = path.render (normal worktreePath ++ init ++ [x]).
Proof.
  intros Hc Hw Hroot resolved Hdiff.
  pose proof (resolvedSegments_plain cwd prdPath) as Hplain.
  destruct (resolveWorktreePrdPath_cases processCwd cwd worktreePath prdPath Hc Hw)
    as (Hs & [(_ & Ht & _)|[(_ & _ & _ & rest & Hrest & _ & Htarget)
                            |(_ & _ & _ & name & Hname & _ & Htarget)]]);
    fold resolved in Hs.
  - fold resolved in Ht. congruence.
  - fold resolved in Htarget. rewrite Htarget by (right; exact Hroot).
    destruct rest as [|y rest].
    + destruct (@exists_last _ (normal cwd) Hroot) as (l' & z & El).
      rewrite El, last_snoc. exists [], z. split; [|reflexivity].
      pose proof (normal_plain cwd) as Hcp. rewrite El in Hcp.
      apply Forall_app in Hcp. tauto.
    + destruct (@exists_last _ (y :: rest)) as (init & x & El); [discriminate|].
      exists init, x. rewrite <- El. split; [|reflexivity].
      rewrite Hrest in Hplain. apply Forall_app in Hplain. tauto.
  - fold resolved in Htarget. rewrite Htarget.
    exists [".ralph-tui"; "external-prd"], name. split; [|reflexivity].
    constructor; [reflexivity|]. constructor; [reflexivity|].
    constructor; [exact Hname | constructor].
Qed.

End PrdPathFacts.

Section TrackerCopy.
Import JsString Sys SessionWorktree.

Local Abbreviation plainList := (Forall (fun x => path.isPlain x = true)).
Local Abbreviation normal p := (path.normalizeSegments false (split "/"%char p)).

(** Creating a directory below an existing one and copying a file into it
    leaves everything that is not below that directory as it was. *)
Lemma mkdir_copy_frame base init x srcPath w :
  plainList (base ++ init ++ [x]) ->
  fs.lookup base (root w) <> None ->
  let dirPath := path.dirname (path.render (base ++ init ++ [x])) in
  let filePath := path.render (base ++ init ++ [x]) in
  let o := bind (mkdirSync dirPath) (fun _ => copyFileSync srcPath filePath) w in
  sameButFiles w (worldOf o)
  /\ forall q, ~ base `prefix_of` q -> fs.stat q (root (worldOf o)) = fs.stat q (root w).
Proof.
  intros Hplain Hbase dirPath filePath o.
  assert (Hd : forall w', segmentsIn w' dirPath = base ++ init).
  { intros w'. unfold dirPath, segmentsIn. rewrite app_assoc.
    rewrite app_assoc in Hplain. apply Forall_app in Hplain as [Hl Hx].
    apply Forall_cons in Hx as [Hx _].
    rewrite dirname_render by assumption. apply segments_render, Hl. }
  assert (Hf : forall w', segmentsIn w' filePath = base ++ init ++ [x]).
  { intros w'. apply segments_render, Hplain. }
  unfold o, bind, mkdirSync. rewrite Hd.
  destruct (fs.mkdirp (base ++ init) (root w)) as [r1|] eqn:Hmk;
    [|split; [apply sameButFiles_refl | reflexivity]].
  assert (K : forall q, ~ base `prefix_of` q -> fs.stat q r1 = fs.stat q (root w)).
  { intros q Hq. destruct (mkdirp_stat _ _ _ Hmk q) as [E|(Hnone & Hpre & _)]; [exact E|].
    exfalso. apply prefix_app_cases in Hpre as [Hpre|Hpre]; [|contradiction].
    destruct Hpre as [k ->]. apply lookup_prefix_exists in Hbase. contradiction. }
  unfold copyFileSync. rewrite Hf. cbn [root setRoot].
  destruct (fs.lookup (segmentsIn (setRoot r1 w) srcPath) r1) as [[content|entries]|];
    try (split; [repeat split | exact K]).
  destruct (fs.writeFile (base ++ init ++ [x]) content r1) as [r2|] eqn:Hwr;
    cbn [worldOf root setRoot]; (split; [repeat split|]); [|exact K].
  intros q Hq. destruct (writeFile_stat _ _ _ _ Hwr) as [_ Hother].
  rewrite Hother; [apply K, Hq|].
  intros ->. apply Hq. apply prefix_app_r. reflexivity.
Qed.

Variable childProcess : string -> list string -> option string -> M string.

Local Abbreviation copyTrackerData := (SessionWorktree.copyTrackerData childProcess).

(** What [copyTrackerData] does for the JSON tracker. *)
Lemma copyTrackerData_json cwd worktreePath prdPath w :
  let resolved :=
    resolveWorktreePrdPath (processCwd w) cwd worktreePath (prdFileOf prdPath) in
  let result := {| jsonPrdPath := Some (targetPrd resolved);
                   jsonPrdIsExternal := Some (isExternal resolved) |} in
  copyTrackerData cwd worktreePath "json" prdPath w
  = match fs.lookup (segmentsIn w (sourcePrd resolved)) (root w) with
    | Some _ =>
        if String.eqb (sourcePrd resolved) (targetPrd resolved) then Returned result w
        else
          bind (bind (mkdirSync (path.dirname (targetPrd resolved)))
                  (fun _ => copyFileSync (sourcePrd resolved) (targetPrd resolved)))
            (fun _ => ret result) w
    | None => Returned result w
    end.
Proof.
  intros resolved result. unfold SessionWorktree.copyTrackerData.
  change (String.eqb "json" "beads-rust") with false.
  change (String.eqb "json" "beads" || String.eqb "json" "beads-bv") with false.
  change (String.eqb "json" "json") with true. cbv iota.
  unfold bind at 1, getProcessCwd. fold resolved. unfold bind at 1, existsSync.
  destruct (fs.lookup (segmentsIn w (sourcePrd resolved)) (root w)); [|reflexivity].
  destruct (String.eqb (sourcePrd resolved) (targetPrd resolved)); reflexivity.
Qed.

(** For the JSON tracker, [copyTrackerData] writes nowhere but below the
    worktree: whether it returns or throws, it runs no command, and every
    path that is not below the worktree is afterwards what it was; in
    particular the source PRD is never written through. *)
Theorem copyTrackerData_json_stays_in_worktree cwd worktreePath prdPath w :
  path.isAbsolute cwd = true -> path.isAbsolute worktreePath = true ->
  path.segments (processCwd w) cwd <> [] ->
  fs.lookup (path.segments (processCwd w) worktreePath) (root w) <> None ->
  let w' := worldOf (copyTrackerData cwd worktreePath "json" prdPath w) in
  sameButFiles w w'
  /\ forall q,
       ~ path.segments (processCwd w) worktreePath `prefix_of` q ->
       fs.stat q (root w') = fs.stat q (root w).
Proof.
  intros Hc Hw Hroot Hexists.
  rewrite (segments_absolute _ cwd Hc) in Hroot.
  rewrite (segments_absolute _ worktreePath Hw) in Hexists |- *.
  rewrite copyTrackerData_json.
  set (resolved := resolveWorktreePrdPath _ _ _ _).
  destruct (fs.lookup (segmentsIn w (sourcePrd resolved)) (root w));
    [|split; [apply sameButFiles_refl | reflexivity]].
  destruct (String.eqb_spec (sourcePrd resolved) (targetPrd resolved)) as [|Hdiff];
    [split; [apply sameButFiles_refl | reflexivity]|].
  destruct (target_below_worktree (processCwd w) cwd worktreePath (prdFileOf prdPath)
              Hc Hw Hroot Hdiff) as (init & x & Hplain & Htarget).
  fold resolved in Htarget. rewrite Htarget.
  assert (Hall : plainList (normal worktreePath ++ init ++ [x])).
  { apply Forall_app. split; [apply normal_plain | exact Hplain]. }
  pose proof (mkdir_copy_frame (normal worktreePath) init x (sourcePrd resolved) w
                Hall Hexists) as Hframe.
  cbv zeta in Hframe. unfold bind at 1.
  destruct (bind (mkdirSync _) _ w) as [[] w1|msg w1]; exact Hframe.
Qed.

(** The copy itself: the directory of the target is created and the PRD
    is copied to the target. *)
Lemma copyTrackerData_json_copy cwd worktreePath prdPath w content dir :
  path.isAbsolute cwd = true -> path.isAbsolute worktreePath = true ->
  path.segments (processCwd w) cwd <> [] ->
  let resolved :=
    resolveWorktreePrdPath (processCwd w) cwd worktreePath (prdFileOf prdPath) in
  let source := path.segments (processCwd w) (sourcePrd resolved) in
  let target := path.segments (processCwd w) (targetPrd resolved) in
  fs.stat source (root w) = Some (Some content) ->
  sourcePrd resolved <> targetPrd resolved ->
  fs.mkdirp (path.segments (processCwd w) (path.dirname (targetPrd resolved))) (root w)
  = Some dir ->
  fs.stat target dir <> Some None ->
  exists w',
    copyTrackerData cwd worktreePath "json" prdPath w
    = Returned {| jsonPrdPath := Some (targetPrd resolved);
                  jsonPrdIsExternal := Some (isExternal resolved) |} w'
    /\ fs.stat target (root w') = Some (Some content)
    /\ fs.stat source (root w') = Some (Some content).
Proof.
  intros Hc Hw Hroot resolved source target Hsrc Hdiff Hmk Hfree.
  rewrite (segments_absolute _ cwd Hc) in Hroot.
  destruct (target_below_worktree (processCwd w) cwd worktreePath (prdFileOf prdPath)
              Hc Hw Hroot Hdiff) as (init & x & Hplain & Htarget).
  fold resolved in Htarget.
  assert (Hall : plainList (normal worktreePath ++ init ++ [x])).
  { apply Forall_app. split; [apply normal_plain | exact Hplain]. }
  assert (Ht : target = (normal worktreePath ++ init) ++ [x]).
  { unfold target. rewrite Htarget, <- app_assoc. apply segments_render, Hall. }
  assert (Hdir : path.segments (processCwd w) (path.dirname (targetPrd resolved))
                 = normal worktreePath ++ init).
  { rewrite Htarget. rewrite app_assoc. rewrite app_assoc in Hall.
    apply Forall_app in Hall as [Hl Hx]. apply Forall_cons in Hx as [Hx _].
    rewrite dirname_render by assumption. apply segments_render, Hl. }
  rewrite Hdir in Hmk. rewrite Ht in Hfree.
  assert (Hsrc1 : fs.stat source dir = Some (Some content)).
  { destruct (mkdirp_stat _ _ _ Hmk source) as [E|(Hnone & _)]; [congruence|].
    unfold fs.stat in Hsrc. rewrite Hnone in Hsrc. discriminate Hsrc. }
  destruct (writeFile_succeeds (normal worktreePath ++ init) x content dir
              (mkdirp_isDirectory _ _ _ Hmk) Hfree) as (r2 & Hwr).
  destruct (writeFile_stat _ _ _ _ Hwr) as [Hnew Hother].
  exists (setRoot r2 w). rewrite copyTrackerData_json. fold resolved.
  change (segmentsIn w (sourcePrd resolved)) with source.
  assert (Hlook : fs.lookup source (root w) = Some (fs.File content)).
  { unfold fs.stat in Hsrc. destruct (fs.lookup source (root w)) as [[c|]|];
      congruence. }
  assert (Hlook1 : fs.lookup source dir = Some (fs.File content)).
  { unfold fs.stat in Hsrc1. destruct (fs.lookup source dir) as [[c|]|]; congruence. }
  rewrite Hlook.
  destruct (String.eqb_spec (sourcePrd resolved) (targetPrd resolved)) as [|_];
    [contradiction|].
  unfold bind, mkdirSync, copyFileSync.
  replace (segmentsIn w (path.dirname (targetPrd resolved)))
    with (normal worktreePath ++ init) by (symmetry; exact Hdir).
  rewrite Hmk. cbn [root setRoot].
  change (segmentsIn (setRoot dir w) (sourcePrd resolved)) with source.
  rewrite Hlook1.
  change (segmentsIn (setRoot dir w) (targetPrd resolved)) with target.
  rewrite Ht, Hwr.
  split; [reflexivity|]. cbn [root setRoot]. rewrite <- Ht in *.
  split; [exact Hnew|].
  rewrite Hother; [exact Hsrc1|].
  intros E. apply Hdiff.
  assert (Hsp : sourcePrd resolved
                = path.render (path.resolvedSegments cwd (prdFileOf prdPath))).
  { destruct (resolveWorktreePrdPath_cases (processCwd w) cwd worktreePath
                (prdFileOf prdPath) Hc Hw) as (Hs & _). exact Hs. }
  rewrite Htarget, Hsp. f_equal.
  unfold source in E. rewrite Hsp in E.
  rewrite segments_render in E by apply resolvedSegments_plain.
  rewrite E, Ht, <- app_assoc. reflexivity.
Qed.

(** For the JSON tracker, when the PRD exists and is not already the target,
    the directory of the target can be created and the target is not a
    directory, [copyTrackerData] returns the target path and the target
    then holds the content of the PRD. *)
Theorem copyTrackerData_json_copies cwd worktreePath prdPath w content dir :
  path.isAbsolute cwd = true -> path.isAbsolute worktreePath = true ->
  path.segments (processCwd w) cwd <> [] ->
  let resolved :=
    resolveWorktreePrdPath (processCwd w) cwd worktreePath (prdFileOf prdPath) in
  let source := path.segments (processCwd w) (sourcePrd resolved) in
  let target := path.segments (processCwd w) (targetPrd resolved) in
  fs.stat source (root w) = Some (Some content) ->
  sourcePrd resolved <> targetPrd resolved ->
  fs.mkdirp (path.segments (processCwd w) (path.dirname (targetPrd resolved))) (root w)
  = Some dir ->
  fs.stat target dir <> Some None ->
  exists w',
    copyTrackerData cwd worktreePath "json" prdPath w
    = Returned {| jsonPrdPath := Some (targetPrd resolved);
                  jsonPrdIsExternal := Some (isExternal resolved) |} w'
    /\ fs.stat target (root w') = Some (Some content)
    /\ fs.stat source (root w') = Some (Some content).
Proof. apply copyTrackerData_json_copy. Qed.


End TrackerCopy.

Section PrdScenarios.
Import JsString Sys SessionWorktree GitScenario.

Example resolve_external :
  resolveWorktreePrdPath "/p/proj" "/p/proj" "/p/wt" "/tmp/my prd.json"
  = {| sourcePrd := "/tmp/my prd.json";
       targetPrd := "/p/wt/.ralph-tui/external-prd/my-prd-c2a5c8e7.json";
       isExternal := true |}.
Proof. vm_compute. reflexivity. Qed.

Example resolve_internal :
  resolveWorktreePrdPath "/p/proj" "/p/proj" "/p/wt" "tasks/prd.json"
  = {| sourcePrd := "/p/proj/tasks/prd.json";
       targetPrd := "/p/wt/tasks/prd.json"; isExternal := false |}.
Proof. vm_compute. reflexivity. Qed.

(** The earlier revision of [copyTrackerData] joins the path of the PRD
    relative to the project onto the worktree: for a PRD outside the
    project that can be the PRD itself. *)
Example legacy_target :
  path.join ["/p/wt"; path.relative "/p/proj" "/p/proj" "/tmp/my prd.json"]
  = "/tmp/my prd.json".
Proof. vm_compute. reflexivity. Qed.

Lemma resolveWorktreePrdPath_target_in_worktree_witness :
  ["p"; "wt"] `prefix_of`
    path.segments "/p/proj"
      (targetPrd (resolveWorktreePrdPath "/p/proj" "/p/proj" "/p/wt" "../../tmp/x.json")).
Proof.
  apply (proj2 (resolveWorktreePrdPath_target_in_worktree "/p/proj" "/p/proj" "/p/wt"
                  "../../tmp/x.json" eq_refl eq_refl)).
Defined.

Lemma resolveWorktreePrdPath_keeps_layout_witness :
  targetPrd (resolveWorktreePrdPath "/p/proj" "/p/proj" "/p/wt" "tasks/prd.json")
  = "/p/wt/tasks/prd.json".
Proof.
  apply (resolveWorktreePrdPath_keeps_layout "/p/proj" "/p/proj" "/p/wt" "tasks/prd.json"
           ["tasks"; "prd.json"] eq_refl eq_refl).
  - vm_compute. reflexivity.
  - discriminate.
  - intros x H. injection H as <-. reflexivity.
  - intros [k E]. vm_compute in E. discriminate E.
Defined.

Lemma resolveWorktreePrdPath_rebases_external_witness :
  targetPrd (resolveWorktreePrdPath "/p/proj" "/p/proj" "/p/wt" "/tmp/my prd.json")
  = "/p/wt/.ralph-tui/external-prd/my-prd-c2a5c8e7.json".
Proof.
  destruct (resolveWorktreePrdPath_rebases_external "/p/proj" "/p/proj" "/p/wt"
              "/tmp/my prd.json" eq_refl eq_refl) as (_ & _ & H).
  - intros [k E]. vm_compute in E. discriminate E.
  - intros [k E]. vm_compute in E. discriminate E.
  - rewrite H. vm_compute. reflexivity.
Defined.

Lemma resolveWorktreePrdPath_keeps_worktree_prd_witness :
  targetPrd (resolveWorktreePrdPath "/p/proj" "/p/proj" "/p/wt" "/p/wt/prd.json")
  = "/p/wt/prd.json".
Proof.
  destruct (resolveWorktreePrdPath_keeps_worktree_prd "/p/proj" "/p/proj" "/p/wt"
              "/p/wt/prd.json" ["prd.json"] eq_refl eq_refl) as (H & _).
  - vm_compute. reflexivity.
  - intros x Hx. injection Hx as <-. reflexivity.
  - rewrite H. vm_compute. reflexivity.
Defined.

Lemma copyTrackerData_json_stays_in_worktree_witness :
  fs.stat ["tmp"; "my prd.json"]
    (root (worldOf (copyTrackerData (scripted []) "/p/proj" "/p/wt" "json"
                      (Some "/tmp/my prd.json") PrdScenario.world)))
  = Some (Some "outside").
Proof.
  destruct (copyTrackerData_json_stays_in_worktree (scripted []) "/p/proj" "/p/wt"
              (Some "/tmp/my prd.json") PrdScenario.world eq_refl eq_refl) as (_ & H).
  - vm_compute. discriminate.
  - vm_compute. discriminate.
  - rewrite H; [vm_compute; reflexivity|].
    intros [k E]. vm_compute in E. discriminate E.
Defined.

Lemma copyTrackerData_json_copies_witness :
  exists w',
    copyTrackerData (scripted []) "/p/proj" "/p/wt" "json" (Some "/tmp/my prd.json")
      PrdScenario.world
    = Returned
        {| jsonPrdPath := Some "/p/wt/.ralph-tui/external-prd/my-prd-c2a5c8e7.json";
           jsonPrdIsExternal := Some true |} w'
    /\ fs.stat ["p"; "wt"; ".ralph-tui"; "external-prd"; "my-prd-c2a5c8e7.json"] (root w')
       = Some (Some "outside").
Proof.
  edestruct (copyTrackerData_json_copies (scripted []) "/p/proj" "/p/wt"
               (Some "/tmp/my prd.json") PrdScenario.world "outside")
    as (w' & Hrun & Htarget & _).
  - reflexivity.
  - reflexivity.
  - vm_compute. discriminate.
  - vm_compute. reflexivity.
  - vm_compute. discriminate.
  - vm_compute. reflexivity.
  - vm_compute. discriminate.
  - exists w'. split; [exact Hrun | exact Htarget].
Defined.



End PrdScenarios.

(** * Names and places chosen for a session *)

Section SafeBase.
Import JsString Sys SessionWorktree Text.

Lemma collapseRuns_cons c a b s :
  collapseRuns c (String a (String b s))
  = if Ascii.eqb a c && Ascii.eqb b c then collapseRuns c (String b s)
    else String a (collapseRuns c (String b s)).
Proof. reflexivity. Qed.

Lemma noRun_cons c a b s :
  noRun c (String a (String b s))
  = negb (Ascii.eqb a c && Ascii.eqb b c) && noRun c (String b s).
Proof. reflexivity. Qed.

Lemma collapseRuns_head c a s :
  exists t, collapseRuns c (String a s) = String a t.
Proof.
  revert a. induction s as [|b s IH]; intros a; [eexists; reflexivity|].
  rewrite collapseRuns_cons. destruct (Ascii.eqb a c && Ascii.eqb b c) eqn:E.
  - apply andb_true_iff in E as [Ea Eb].
    apply Ascii.eqb_eq in Ea, Eb. subst a b. apply IH.
  - eexists. reflexivity.
Qed.

Lemma collapseRuns_noRun c s : noRun c (collapseRuns c s) = true.
Proof.
  induction s as [|a s IH]; [reflexivity|].
  destruct s as [|b s]; [reflexivity|].
  rewrite collapseRuns_cons.
  destruct (Ascii.eqb a c && Ascii.eqb b c) eqn:E; [exact IH|].
  destruct (collapseRuns_head c b s) as (t & Ht). rewrite Ht in IH |- *.
  rewrite noRun_cons.
  destruct (Ascii.eqb a c) eqn:Ea; [|exact IH]. simpl in E.
  rewrite E in *. destruct (Ascii.eqb_spec b c) as [->|_]; [discriminate E|].
  exact IH.
Qed.

Lemma collapseRuns_id c s : noRun c s = true -> collapseRuns c s = s.
Proof.
  induction s as [|a s IH]; intros H; [reflexivity|].
  destruct s as [|b s]; [reflexivity|].
  rewrite noRun_cons in H. apply andb_true_iff in H as [Hab Hs].
  rewrite collapseRuns_cons. apply negb_true_iff in Hab. rewrite Hab, IH by exact Hs.
  reflexivity.
Qed.

Lemma noRun_sliceTo c n s : noRun c s = true -> noRun c (sliceTo n s) = true.
Proof.
  revert s. induction n as [|n IH]; intros s H; [reflexivity|].
  destruct s as [|a s]; [reflexivity|].
  destruct s as [|b s]; [destruct n; reflexivity|].
  rewrite noRun_cons in H. apply andb_true_iff in H as [Hab Hs].
  specialize (IH _ Hs). destruct n as [|n]; [reflexivity|].
  change (sliceTo (S (S n)) (String a (String b s)))
    with (String a (String b (sliceTo n s))).
  change (sliceTo (S n) (String b s)) with (String b (sliceTo n s)) in IH.
  rewrite noRun_cons, Hab. exact IH.
Qed.

Lemma replaceOutside_id keep r s : all keep s = true -> replaceOutside keep r s = s.
Proof.
  induction s as [|a s IH]; intros H; [reflexivity|].
  simpl in *. apply andb_true_iff in H as [Ha Hs]. rewrite Ha, IH by exact Hs.
  reflexivity.
Qed.

Lemma sliceTo_id n s : (String.length s <= n)%nat -> sliceTo n s = s.
Proof.
  revert s. induction n as [|n IH]; intros s H.
  - destruct s; [reflexivity | simpl in H; lia].
  - destruct s as [|a s]; [reflexivity|]. simpl in *. rewrite IH by lia. reflexivity.
Qed.

(** The base name given to a rebased PRD is never empty, is at most 64
    characters long, is made of letters, digits, dots, underscores and
    dashes only, and has no two dashes in a row; sanitizing it again
    changes nothing. *)
Theorem safeBaseOf_is_safe rawBase :
  let safe := safeBaseOf rawBase in
  safe <> ""
  /\ (String.length safe <= 64)%nat
  /\ all isSafeBaseChar safe = true
  /\ noRun "-"%char safe = true
  /\ safeBaseOf safe = safe.
Proof.
  assert (Hchars := safeBaseOf_chars rawBase).
  assert (Hlen : (String.length (safeBaseOf rawBase) <= 64)%nat).
  { unfold safeBaseOf. destruct (truthy (sliceTo 64 _)); [apply length_sliceTo|].
    simpl. lia. }
  assert (Hrun : noRun "-"%char (safeBaseOf rawBase) = true).
  { unfold safeBaseOf. destruct (truthy (sliceTo 64 _)); [|reflexivity].
    apply noRun_sliceTo, collapseRuns_noRun. }
  assert (Hne : safeBaseOf rawBase <> "").
  { pose proof (safeBaseOf_truthy rawBase) as H. destruct (safeBaseOf rawBase);
      [discriminate H | discriminate]. }
  cbv zeta. repeat split; try assumption.
  unfold safeBaseOf at 1.
  rewrite replaceOutside_id, collapseRuns_id, sliceTo_id by assumption.
  destruct (safeBaseOf rawBase); [congruence | reflexivity].
Qed.

End SafeBase.

Section WorktreePlace.
Import JsString Sys SessionWorktree GitView.

Local Abbreviation plainList := (Forall (fun x => path.isPlain x = true)).

Local Abbreviation normal p := (path.normalizeSegments false (split "/"%char p)).

(** Segments none of which is [..] never pop the stack. *)
Lemma fold_normalizeStep_kept allow segs stack :
  forallb (fun s => negb (String.eqb s "..")) segs = true ->
  fold_left (path.normalizeStep allow) segs stack
  = rev (List.filter (fun s => truthy s && negb (String.eqb s ".")) segs) ++ stack.
Proof.
  revert stack. induction segs as [|x segs IH]; intros stack Hno; [reflexivity|].
  cbn [forallb] in Hno. apply andb_true_iff in Hno as [Hx Hno].
  cbn [fold_left List.filter]. rewrite (IH _ Hno). unfold path.normalizeStep.
  apply negb_true_iff in Hx. rewrite Hx.
  destruct x as [|c x]; [reflexivity|]. cbn [truthy andb].
  change (String.eqb (String c x) "") with false. cbn [orb].
  destruct (String.eqb (String c x) "."); cbn [negb]; [reflexivity|].
  cbn [rev]. rewrite <- app_assoc. reflexivity.
Qed.

Lemma normalizeSegments_app_kept allow l segs :
  forallb (fun s => negb (String.eqb s "..")) segs = true ->
  path.normalizeSegments allow (l ++ segs)
  = path.normalizeSegments allow l
    ++ List.filter (fun s => truthy s && negb (String.eqb s ".")) segs.
Proof.
  intros Hno. unfold path.normalizeSegments.
  rewrite fold_left_app, (fold_normalizeStep_kept _ _ _ Hno).
  rewrite rev_app_distr, rev_involutive. reflexivity.
Qed.

(** Normalizing an absolute path does not change where it leads. *)
Lemma normal_normalize p :
  path.isAbsolute p = true ->
  path.isAbsolute (path.normalize p) = true
  /\ normal (path.normalize p) = normal p.
Proof.
  intros Hp. destruct (isAbsolute_cons p Hp) as [rest ->].
  unfold path.normalize. change (String.eqb (String "/"%char rest) "") with false.
  cbv iota. rewrite Hp. cbn [negb]. unfold path.normalizeString.
  pose proof (normal_plain (String "/"%char rest)) as Hplain.
  destruct (normal (String "/"%char rest)) as [|x l] eqn:E.
  - change (String.eqb (JsString.join "/" []) "") with true. cbv iota.
    split; reflexivity.
  - assert (Hne : String.eqb (JsString.join "/" (x :: l)) "" = false)
      by (apply String.eqb_neq, join_plain_truthy, Hplain).
    rewrite Hne.
    destruct (endsWith (String "/"%char rest) "/").
    + split; [reflexivity|].
      change ("/" +:+ (JsString.join "/" (x :: l) +:+ "/"))
        with (String "/"%char (JsString.join "/" (x :: l) +:+ String "/"%char "")).
      rewrite <- append_cons, split_app_slash, split_empty.
      destruct (normalizeSegments_skip false
                  (split "/"%char (String "/"%char (JsString.join "/" (x :: l)))))
        as [-> _].
      apply (split_render (x :: l) Hplain).
    + split; [reflexivity|]. apply (split_render (x :: l) Hplain).
Qed.

(** The worktree of a session is at or below [.ralph-worktrees/<project>]
    in the project's parent, for a session name none of whose segments is
    [..]: it is outside the project, unless the project directory is itself
    called [.ralph-worktrees]. *)
Theorem session_worktree_outside_project processCwd parent project sessionName :
  plainList (parent ++ [project]) ->
  project <> ".ralph-worktrees" ->
  climbsNowhere sessionName = true ->
  let cwd := path.render (parent ++ [project]) in
  getWorktreeBaseDir cwd = path.render (parent ++ [".ralph-worktrees"; project])
  /\ path.isAbsolute (sessionPath cwd sessionName) = true
  /\ path.segments processCwd (sessionPath cwd sessionName)
     = parent ++ [".ralph-worktrees"; project] ++ keptSegments sessionName
  /\ isPathInside processCwd cwd (sessionPath cwd sessionName) = false.
Proof.
  intros Hplain Hproject Hname cwd.
  pose proof Hplain as Hp. apply Forall_app in Hp as [Hparent Hproj].
  apply Forall_cons in Hproj as [Hproj _].
  assert (Hbase : getWorktreeBaseDir cwd
                  = path.render (parent ++ [".ralph-worktrees"; project])).
  { unfold getWorktreeBaseDir, cwd, path.basename.
    rewrite dirname_render, lastSegment_render by assumption.
    rewrite join_absolute;
      [rewrite split_render by exact Hparent; reflexivity
      | apply isAbsolute_render | discriminate |].
    constructor; [reflexivity|]. constructor; [exact Hproj | constructor]. }
  assert (Hbp : plainList (parent ++ [".ralph-worktrees"; project])).
  { apply Forall_app. split; [exact Hparent|].
    constructor; [reflexivity|]. constructor; [exact Hproj | constructor]. }
  set (base := path.render (parent ++ [".ralph-worktrees"; project])) in *.
  assert (Hjoined : exists q,
            sessionPath cwd sessionName = path.normalize q
            /\ path.isAbsolute q = true
            /\ normal q = parent ++ [".ralph-worktrees"; project]
                          ++ keptSegments sessionName).
  { unfold sessionPath. rewrite Hbase. unfold path.join.
    assert (Htb : truthy base = true) by reflexivity.
    cbn [List.filter]. rewrite Htb.
    destruct sessionName as [|c name].
    - exists base. split; [reflexivity|]. split; [apply isAbsolute_render|].
      unfold base. rewrite split_render by exact Hbp.
      change (keptSegments "") with (@nil string).
      rewrite app_nil_r. reflexivity.
    - cbn [truthy]. exists (base +:+ String "/"%char (String c name)).
      split; [reflexivity|]. split; [reflexivity|].
      rewrite split_app_slash.
      rewrite (normalizeSegments_app_kept false _ _ Hname).
      unfold base. rewrite split_render by exact Hbp.
      rewrite <- app_assoc. reflexivity. }
  destruct Hjoined as (q & Hq & Hqabs & Hqnormal).
  destruct (normal_normalize q Hqabs) as [Habs Hnormal].
  rewrite <- Hq in Habs, Hnormal. rewrite Hqnormal in Hnormal.
  split; [exact Hbase|]. split; [exact Habs|].
  split; [rewrite segments_absolute by exact Habs; exact Hnormal|].
  destruct (isPathInside processCwd cwd (sessionPath cwd sessionName)) eqn:E;
    [|reflexivity].
  exfalso.
  apply isPathInside_absolute in E as (rest & Hrest & _);
    [|apply isAbsolute_render | exact Habs].
  rewrite Hnormal in Hrest. unfold cwd in Hrest.
  rewrite split_render in Hrest by exact Hplain.
  rewrite <- app_assoc in Hrest. apply app_inv_head in Hrest.
  simpl in Hrest. injection Hrest as Hrest _. congruence.
Qed.

Lemma session_worktree_outside_project_witness :
  path.segments "/" (sessionPath "/p/proj" "feature/auth")
  = ["p"; ".ralph-worktrees"; "proj"; "feature"; "auth"]
  /\ isPathInside "/" "/p/proj" (sessionPath "/p/proj" "feature/auth") = false.
Proof.
  destruct (session_worktree_outside_project "/" ["p"] "proj" "feature/auth")
    as (_ & _ & H1 & H2).
  - repeat constructor.
  - discriminate.
  - reflexivity.
  - split; [exact H1 | exact H2].
Defined.

(** With a segment [..] the name can lead back into the project. *)
Example session_name_climbing :
  isPathInside "/" "/p/proj" (sessionPath "/p/proj" "../../proj/inside") = true.
Proof. vm_compute. reflexivity. Qed.

End WorktreePlace.

(** ** More on dotted child ids *)

Section ChildIdFacts.
Import JsString TaskOrdering.

Lemma splitLast_append sep p d :
  all (fun c => negb (Ascii.eqb c sep)) d = true ->
  splitLast sep (p +:+ String sep d) = Some (p, d).
Proof.
  intros Hd.
  assert (Hnone : splitLast sep d = None).
  { induction d as [|c d IH]; [reflexivity|]. simpl in *.
    apply andb_true_iff in Hd as [Hc Hd]. rewrite (IH Hd).
    apply negb_true_iff in Hc. rewrite Hc. reflexivity. }
  induction p as [|a p IH].
  - rewrite append_nil_l. simpl. rewrite Hnone, Ascii.eqb_refl. reflexivity.
  - rewrite append_cons. simpl. rewrite IH. reflexivity.
Qed.

Lemma splitLast_spec sep s p d :
  splitLast sep s = Some (p, d) ->
  s = p +:+ String sep d /\ all (fun c => negb (Ascii.eqb c sep)) d = true.
Proof.
  revert p d. induction s as [|a s IH]; intros p d H; [discriminate H|].
  simpl in H. destruct (splitLast sep s) as [[p' d']|] eqn:E.
  - injection H as <- <-. destruct (IH _ _ eq_refl) as [-> Hd].
    split; [rewrite append_cons; reflexivity | exact Hd].
  - destruct (Ascii.eqb_spec a sep) as [->|Hne]; [|discriminate H].
    injection H as <- <-. split; [rewrite append_nil_l; reflexivity|].
    clear IH. induction s as [|c s IH]; [reflexivity|].
    simpl in E |- *. destruct (splitLast sep s) as [[? ?]|]; [discriminate E|].
    destruct (Ascii.eqb c sep); [discriminate E|]. simpl. apply IH. reflexivity.
Qed.

Lemma digits_no_dot d :
  all isDigit d = true -> all (fun c => negb (Ascii.eqb c "."%char)) d = true.
Proof.
  apply all_impl. intros c Hc.
  destruct (Ascii.eqb_spec c "."%char) as [->|_]; [discriminate Hc | reflexivity].
Qed.

Lemma truthy_nonempty s : truthy s = true <-> s <> EmptyString.
Proof. destruct s; split; (congruence || reflexivity || discriminate). Qed.

(** The pattern matches a dotted id, with the groups that make it up. *)
Lemma matchPattern_dotted taskId pre digits :
  isDottedId taskId pre digits ->
  matchChildTaskIdPattern taskId
  = if onOneLine pre then Some (pre, digits) else None.
Proof.
  intros (-> & Hne & Hdigits). unfold matchChildTaskIdPattern.
  rewrite splitLast_append by apply digits_no_dot, Hdigits.
  fold (onOneLine pre). rewrite Hdigits, (proj2 (truthy_nonempty digits) Hne).
  destruct (onOneLine pre); reflexivity.
Qed.

(** What [parseChildTaskId] makes of a dotted id. *)
Lemma parse_dotted taskId pre digits :
  isDottedId taskId pre digits ->
  parseChildTaskId taskId
  = if onOneLine pre then
      match toNumber digits with
      | Some n => Some {| rawId := taskId; prefix := pre; issueNumber := n |}
      | None => None
      end
    else None.
Proof.
  intros Hd. unfold parseChildTaskId. rewrite (matchPattern_dotted _ _ _ Hd).
  destruct (onOneLine pre); reflexivity.
Qed.

(** An id that [parseChildTaskId] accepts is a dotted id. *)
Lemma parsed_dotted taskId parsed :
  parseChildTaskId taskId = Some parsed ->
  exists digits, isDottedId taskId (prefix parsed) digits.
Proof.
  unfold parseChildTaskId, matchChildTaskIdPattern.
  destruct (splitLast "."%char taskId) as [[pre digits]|] eqn:E; [|discriminate].
  destruct (all _ pre && truthy digits && all isDigit digits) eqn:Hok; [|discriminate].
  apply andb_true_iff in Hok as [Hok Hdigits].
  apply andb_true_iff in Hok as [_ Htruthy].
  destruct (toNumber digits) as [n|]; [|discriminate].
  intros H. injection H as <-. cbn [prefix].
  exists digits. apply splitLast_spec in E as [E _].
  split; [exact E|]. split; [apply truthy_nonempty, Htruthy | exact Hdigits].
Qed.

(** [parseChildTaskId] accepts exactly the ids made of a prefix without
    line terminators, a dot and one or more decimal digits whose number is
    finite; the prefix runs up to the last dot of the id, and the issue
    number is the number the digits denote. *)
Theorem parseChildTaskId_accepts taskId parsed :
  parseChildTaskId taskId = Some parsed
  <-> exists digits,
        taskId = prefix parsed +:+ String "."%char digits
        /\ rawId parsed = taskId
        /\ all (fun c => negb (isLineTerminator c)) (prefix parsed) = true
        /\ digits <> "" /\ all isDigit digits = true
        /\ toNumber digits = Some (issueNumber parsed).
Proof.
  unfold parseChildTaskId, matchChildTaskIdPattern. split.
  - destruct (splitLast "."%char taskId) as [[pre digits]|] eqn:E; [|discriminate].
    destruct (all _ pre && truthy digits && all isDigit digits) eqn:Hok; [|discriminate].
    apply andb_true_iff in Hok as [Hok Hdigits].
    apply andb_true_iff in Hok as [Hpre Htruthy].
    destruct (toNumber digits) as [n|] eqn:Hn; [|discriminate].
    intros H. injection H as <-. cbn [prefix rawId issueNumber].
    exists digits. apply splitLast_spec in E as [E _].
    repeat split; try assumption.
    intros ->. discriminate Htruthy.
  - intros (digits & Hid & Hraw & Hpre & Hne & Hdigits & Hn).
    rewrite Hid at 1. rewrite splitLast_append by apply digits_no_dot, Hdigits.
    rewrite Hpre, Hdigits.
    assert (Ht : truthy digits = true) by (destruct digits; [congruence | reflexivity]).
    rewrite Ht. cbn [andb]. rewrite Hn.
    destruct parsed as [r p i]. cbn in *. congruence.
Qed.

Lemma parseChildTaskId_accepts_witness :
  parseChildTaskId "epic.1.007"
  = Some {| rawId := "epic.1.007"; prefix := "epic.1"; issueNumber := 7 |}.
Proof.
  apply parseChildTaskId_accepts. exists "007". repeat split; discriminate.
Defined.

End ChildIdFacts.

Section SortFacts.
Import JsString TaskOrdering.

Variable localeCompare : string -> string -> Z.
Context {T : Type} `{TaskWithId T}.

Local Abbreviation otherTasks :=
  (List.filter (fun t : T => negb (isChildTask t))).

Lemma refill_perm (tasks children : list T) :
  length children = length (childTasks tasks) ->
  Permutation (refill tasks children) (otherTasks tasks ++ children).
Proof.
  revert children. induction tasks as [|t tasks IH]; intros children Hlen.
  - destruct children; [constructor | discriminate Hlen].
  - rewrite childTasks_cons in Hlen. cbn [refill List.filter].
    destruct (isChildTask t) eqn:E; cbn [negb].
    + destruct children as [|c children]; [discriminate Hlen|].
      simpl in Hlen. injection Hlen as Hlen.
      rewrite <- Permutation_middle. constructor. apply IH, Hlen.
    + cbn [app]. constructor. apply IH, Hlen.
Qed.

Lemma tasks_partition (tasks : list T) :
  Permutation tasks (otherTasks tasks ++ childTasks tasks).
Proof.
  induction tasks as [|t tasks IH]; [constructor|].
  rewrite childTasks_cons. cbn [List.filter].
  destruct (isChildTask t); cbn [negb].
  - rewrite <- Permutation_middle. constructor. exact IH.
  - cbn [app]. constructor. exact IH.
Qed.

(** [sortDottedChildTaskIds] loses and duplicates nothing: whatever the
    collation, the result is a rearrangement of the tasks it was given. *)
Theorem sortDottedChildTaskIds_permutation (tasks : list T) :
  Permutation (sortDottedChildTaskIds localeCompare tasks) tasks.
Proof.
  rewrite sortDottedChildTaskIds_refill.
  pose proof (sortedEntries_tasks localeCompare tasks) as Hperm.
  rewrite refill_perm by (apply Permutation_length, Hperm).
  rewrite Hperm. symmetry. apply tasks_partition.
Qed.

(** With fewer than two dotted child ids in the list there is nothing to
    order: [sortDottedChildTaskIds] returns the list as it is. *)
Theorem sortDottedChildTaskIds_few_children (tasks : list T) :
  (length (childTasks tasks) < 2)%nat ->
  sortDottedChildTaskIds localeCompare tasks = tasks.
Proof.
  intros Hfew. unfold sortDottedChildTaskIds.
  destruct (length tasks <? 2)%nat; [reflexivity|].
  rewrite <- (collect_tasks 0 tasks), length_map in Hfew.
  apply Nat.ltb_lt in Hfew. rewrite Hfew. reflexivity.
Qed.

End SortFacts.

Section SortExamples.
Import TaskOrdering.

Lemma sortDottedChildTaskIds_few_children_witness :
  sortDottedChildTaskIds codeUnitCompare ["b"; "a.2"; "a"] = ["b"; "a.2"; "a"].
Proof.
  apply sortDottedChildTaskIds_few_children. vm_compute. lia.
Defined.

End SortExamples.

(** ** Dotted ids in the output *)

Section DottedOrdering.
Import JsString TaskOrdering.

Variable localeCompare : string -> string -> Z.
Hypothesis localeCompare_antisym :
  forall a b, Z.sgn (localeCompare a b) = - Z.sgn (localeCompare b a).
Hypothesis localeCompare_trans :
  forall a b c,
    localeCompare a b <= 0 -> localeCompare b c <= 0 -> localeCompare a c <= 0.
Context {T : Type} `{TaskWithId T}.

(** C7, amended: the ordering routine is idempotent and keeps the length of
    the list.  Every task whose id is not of the form [<prefix>.<number>]
    keeps its position, and so does a task whose id has that form but a
    prefix that spans several lines or a number that is not a finite
    double.  Of two ids [<prefix>.<number>] of the output with the same
    one-line prefix and finite numbers, the one that stands first has the
    smaller or equal number, as doubles, and so as integers when both
    numbers are below 2^53. *)
Theorem sortDottedChildTaskIds_stable (tasks : list T) :
  let out := sortDottedChildTaskIds localeCompare tasks in
  sortDottedChildTaskIds localeCompare out = out
  /\ length out = length tasks
  /\ (forall i t,
        (forall pre digits, ~ isDottedId (id t) pre digits) ->
        tasks !! i = Some t <-> out !! i = Some t)
  /\ (forall i t pre digits,
        isDottedId (id t) pre digits ->
        onOneLine pre = false \/ toNumber digits = None ->
        tasks !! i = Some t <-> out !! i = Some t)
  /\ (forall i j ti tj pre di dj,
        (i < j)%nat -> out !! i = Some ti -> out !! j = Some tj ->
        isDottedId (id ti) pre di -> isDottedId (id tj) pre dj ->
        onOneLine pre = true ->
        (forall ni nj, toNumber di = Some ni -> toNumber dj = Some nj -> ni <= nj)
        /\ (decimalValue 0 di < 2 ^ 53 -> decimalValue 0 dj < 2 ^ 53 ->
            decimalValue 0 di <= decimalValue 0 dj)).
Proof.
  intros out.
  destruct (sortDottedChildTaskIds_parsed localeCompare localeCompare_antisym
              localeCompare_trans tasks) as (Hidem & Hlen & Hkeep & Hback & Hord).
  fold out in Hidem, Hlen, Hkeep, Hback, Hord.
  assert (Hnum : forall i j ti tj pre di dj ni nj,
            (i < j)%nat -> out !! i = Some ti -> out !! j = Some tj ->
            isDottedId (id ti) pre di -> isDottedId (id tj) pre dj ->
            onOneLine pre = true ->
            toNumber di = Some ni -> toNumber dj = Some nj -> ni <= nj).
  { intros i j ti tj pre di dj ni nj Hij Hi Hj Hdi Hdj Hline Hni Hnj.
    apply (Hord i j ti tj
             {| rawId := id ti; prefix := pre; issueNumber := ni |}
             {| rawId := id tj; prefix := pre; issueNumber := nj |});
      try assumption; try reflexivity.
    - rewrite (parse_dotted _ _ _ Hdi), Hline, Hni. reflexivity.
    - rewrite (parse_dotted _ _ _ Hdj), Hline, Hnj. reflexivity. }
  split; [exact Hidem|]. split; [exact Hlen|]. split; [|split].
  - intros i t Hplain.
    assert (Hp : parseChildTaskId (id t) = None).
    { destruct (parseChildTaskId (id t)) as [parsed|] eqn:E; [|reflexivity].
      destruct (parsed_dotted _ _ E) as (digits & Hd).
      exfalso. exact (Hplain _ _ Hd). }
    split; intros Hi; [apply Hkeep | apply Hback]; assumption.
  - intros i t pre digits Hd Hout.
    assert (Hp : parseChildTaskId (id t) = None).
    { rewrite (parse_dotted _ _ _ Hd).
      destruct Hout as [-> | Hn]; [reflexivity|].
      rewrite Hn. destruct (onOneLine pre); reflexivity. }
    split; intros Hi; [apply Hkeep | apply Hback]; assumption.
  - intros i j ti tj pre di dj Hij Hi Hj Hdi Hdj Hline. split.
    + intros ni nj. eapply Hnum; eassumption.
    + intros Hsi Hsj.
      apply (Hnum i j ti tj pre di dj); try assumption.
      * unfold toNumber, roundToDouble.
        apply Z.ltb_lt in Hsi. rewrite Hsi. reflexivity.
      * unfold toNumber, roundToDouble.
        apply Z.ltb_lt in Hsj. rewrite Hsj. reflexivity.
Qed.

End DottedOrdering.

Section DottedOrderingExamples.
Import JsString TaskOrdering.

Lemma not_dotted_without_dot taskId :
  all (fun c => negb (Ascii.eqb c "."%char)) taskId = true ->
  forall pre digits, ~ isDottedId taskId pre digits.
Proof.
  intros Hnone pre digits (-> & _). rewrite all_append in Hnone.
  apply andb_true_iff in Hnone as [_ Hnone]. discriminate Hnone.
Qed.

Lemma sortDottedChildTaskIds_stable_witness :
  let out :=
    sortDottedChildTaskIds codeUnitCompare
      ["e.10"; "other"; "e.2"; "solo"; "e.1"] in
  sortDottedChildTaskIds codeUnitCompare out = out
  /\ out !! 1%nat = Some "other"
  /\ forall i j,
       (i < j)%nat -> out !! i = Some "e.10" -> out !! j = Some "e.2" -> False.
Proof.
  intros out.
  destruct (sortDottedChildTaskIds_stable codeUnitCompare
              codeUnitCompare_antisym codeUnitCompare_trans
              ["e.10"; "other"; "e.2"; "solo"; "e.1"])
    as (Hidem & _ & Hkeep & _ & Hord).
  split; [exact Hidem|]. split.
  - apply (Hkeep 1%nat "other"); [|reflexivity].
    apply not_dotted_without_dot. reflexivity.
  - intros i j Hij Hi Hj.
    destruct (Hord i j "e.10" "e.2" "e" "10" "2" Hij Hi Hj) as [Hle _].
    + repeat split; discriminate.
    + repeat split; discriminate.
    + reflexivity.
    + specialize (Hle 10 2 eq_refl eq_refl). lia.
Defined.

(** C7, as stated, fails: a dotted id whose number is too large for a
    finite double is not taken for a dotted id, here the number one
    followed by 309 zeros.  With it, only one id of the list is left to
    order, the list is returned as it is, and the larger number stands
    before the smaller one under the same prefix. *)
Lemma sortDottedChildTaskIds_leaves_huge_number :
  let digits :=
    "1000000000000000000000000000000000000000000000000000000000000000000000000000000000000000000000000000000000000000000000000000000000000000000000000000000000000000000000000000000000000000000000000000000000000000000000000000000000000000000000000000000000000000000000000000000000000000000000000000000000000000000000" in
  let huge := "t." +:+ digits in
  sortDottedChildTaskIds codeUnitCompare [huge; "t.5"] = [huge; "t.5"]
  /\ isDottedId huge "t" digits
  /\ isDottedId "t.5" "t" "5"
  /\ decimalValue 0 "5" < decimalValue 0 digits.
Proof.
  intros digits huge. split; [vm_compute; reflexivity|].
  split; [repeat split; discriminate|].
  split; [repeat split; discriminate|].
  vm_compute. reflexivity.
Qed.

End DottedOrderingExamples.

(** ** More on the conflict resolver *)

Section ResolverFacts.
Import JsString AiResolver.

Lemma trimEnd_append a b :
  b <> "" -> trimEnd b = b -> trimEnd (a +:+ b) = a +:+ b.
Proof.
  intros Hb Hid. induction a as [|c a IH]; [rewrite append_nil_l; exact Hid|].
  rewrite append_cons. simpl. rewrite IH.
  destruct (a +:+ b) eqn:E; [|reflexivity].
  exfalso. destruct a; [rewrite append_nil_l in E; congruence|].
  rewrite append_cons in E. discriminate E.
Qed.

Lemma trimStart_fence r : trimStart (fence +:+ r) = fence +:+ r.
Proof. unfold fence. rewrite !append_cons. reflexivity. Qed.

Lemma stripPrefix_append p s : stripPrefix p (p +:+ s) = Some s.
Proof.
  induction p as [|c p IH]; [rewrite append_nil_l; destruct s; reflexivity|].
  rewrite append_cons. simpl. rewrite Ascii.eqb_refl. exact IH.
Qed.

Lemma dropWordChars_tag tag rest :
  all isWordChar tag = true ->
  dropWordChars (tag +:+ String "010"%char rest) = String "010"%char rest.
Proof.
  induction tag as [|c tag IH]; intros H; [rewrite append_nil_l; reflexivity|].
  simpl in H. apply andb_true_iff in H as [Hc Ht].
  rewrite append_cons. simpl. rewrite Hc. apply IH, Ht.
Qed.

Lemma length_append a b :
  String.length (a +:+ b) = (String.length a + String.length b)%nat.
Proof.
  induction a as [|c a IH]; [rewrite append_nil_l; reflexivity|].
  rewrite append_cons. simpl. rewrite IH. reflexivity.
Qed.

Lemma stripSuffix_append p s : p <> "" -> stripSuffix p (s +:+ p) = Some s.
Proof.
  intros Hp. induction s as [|c s IH].
  - rewrite append_nil_l. destruct p as [|a p]; [congruence|].
    simpl. rewrite Ascii.eqb_refl, String.eqb_refl. reflexivity.
  - rewrite append_cons. simpl.
    destruct (String.eqb_spec p (String c (s +:+ p))) as [E|_].
    + exfalso. apply (f_equal String.length) in E. simpl in E.
      rewrite length_append in E. lia.
    + rewrite IH. reflexivity.
Qed.

(** [extractResolvedContent] unwraps a fenced block: from an opening fence
    with an optional language tag, a body and a closing fence it returns
    the body as it is; an empty body gives [null]. *)
Theorem extractResolvedContent_unwraps_fence tag body :
  all isWordChar tag = true ->
  extractResolvedContent (fence +:+ tag +:+ nl +:+ body +:+ nl +:+ fence)
  = if String.eqb body "" then None else Some body.
Proof.
  intros Htag. unfold extractResolvedContent.
  assert (Htrim : trim (fence +:+ tag +:+ nl +:+ body +:+ nl +:+ fence)
                  = fence +:+ tag +:+ nl +:+ body +:+ nl +:+ fence).
  { unfold trim. rewrite trimStart_fence.
    rewrite <- !append_assoc. apply trimEnd_append; [discriminate | reflexivity]. }
  rewrite Htrim.
  assert (Hmatch : fenceMatch (fence +:+ tag +:+ nl +:+ body +:+ nl +:+ fence)
                   = Some body).
  { unfold fenceMatch. rewrite stripPrefix_append.
    change (nl +:+ body +:+ nl +:+ fence)
      with (String "010"%char (body +:+ (nl +:+ fence))).
    rewrite dropWordChars_tag by exact Htag. rewrite Ascii.eqb_refl.
    apply stripSuffix_append. discriminate. }
  rewrite Hmatch. destruct body; reflexivity.
Qed.

(** Output that does not open with a fence is returned trimmed, and
    [null] when nothing is left. *)
Theorem extractResolvedContent_trims stdout :
  startsWith (trim stdout) fence = false ->
  extractResolvedContent stdout
  = if String.eqb (trim stdout) "" then None else Some (trim stdout).
Proof.
  intros H. unfold extractResolvedContent, fenceMatch.
  unfold startsWith in H. destruct (stripPrefix fence (trim stdout)); [discriminate H|].
  destruct (trim stdout); reflexivity.
Qed.

(** The resolver asks the agent only when the fast path gives nothing; a
    fast-path resolution is returned as it is, and an agent's answer counts
    only if the run completed with exit code 0, in which case it is what
    [extractResolvedContent] makes of the output. *)
Theorem createAiResolver_asks_when_needed agentRun conflict taskId taskTitle :
  let resolution := fst (createAiResolver agentRun conflict taskId taskTitle) in
  let asked := snd (createAiResolver agentRun conflict taskId taskTitle) in
  (asked = false <-> tryFastPathResolution conflict <> None)
  /\ (asked = false -> resolution = tryFastPathResolution conflict)
  /\ (asked = true -> resolution <> None ->
      exists result,
        agentRun (buildConflictPrompt conflict taskId taskTitle) = Some result
        /\ status result = completed /\ exitCode result = Some 0
        /\ resolution = extractResolvedContent (stdout result)).
Proof.
  unfold createAiResolver.
  destruct (tryFastPathResolution conflict) as [fast|]; cbn [fst snd].
  { split; [split; [discriminate | reflexivity]|]. split; [reflexivity | discriminate]. }
  destruct (agentRun _) as [result|]; cbn [fst snd].
  2: { split; [split; [discriminate | congruence]|]. split; [discriminate | congruence]. }
  destruct (status result) eqn:Hs; cbn [isCompleted negb orb fst snd];
    try (split; [split; [discriminate | congruence]|];
         split; [discriminate | congruence]).
  destruct (bool_decide_reflect (exitCode result = Some 0)) as [He|He];
    cbn [negb fst snd].
  - split; [split; [discriminate | congruence]|]. split; [discriminate|].
    intros _ _. exists result. repeat split; assumption.
  - split; [split; [discriminate | congruence]|]. split; [discriminate | congruence].
Qed.

Lemma extractResolvedContent_trims_witness :
  extractResolvedContent "  const x = 1;  " = Some "const x = 1;".
Proof. apply (extractResolvedContent_trims "  const x = 1;  "). reflexivity. Defined.

Lemma extractResolvedContent_unwraps_fence_witness :
  extractResolvedContent (fence +:+ "ts" +:+ nl +:+ "const x = 1;" +:+ nl +:+ fence)
  = Some "const x = 1;".
Proof. apply (extractResolvedContent_unwraps_fence "ts" "const x = 1;"). reflexivity. Defined.

End ResolverFacts.

(** * Preparing a session worktree *)

Section MonadFacts.
Import Sys.

Lemma bind_returned {A B} (m : M A) (k : A -> M B) w b w' :
  bind m k w = Returned b w' ->
  exists a w1, m w = Returned a w1 /\ k a w1 = Returned b w'.
Proof.
  unfold bind. destruct (m w) as [a w1|msg w1]; [|discriminate].
  intros H. exists a, w1. split; [reflexivity | exact H].
Qed.

Lemma bind_step {A B} (m : M A) (k : A -> M B) w a w1 :
  m w = Returned a w1 -> bind m k w = k a w1.
Proof. unfold bind. intros ->. reflexivity. Qed.

Lemma tryCatch_returned {A} (m : M A) handler w a w1 :
  m w = Returned a w1 -> tryCatch m handler w = Returned a w1.
Proof. unfold tryCatch. intros ->. reflexivity. Qed.

End MonadFacts.

Section FilesOnly.
Import JsString Sys SessionWorktree GitView.

Lemma filesOnly_ret {A} (a : A) : filesOnly (ret a).
Proof. intros w. apply sameButFiles_refl. Qed.

Lemma filesOnly_bind {A B} (m : M A) (k : A -> M B) :
  filesOnly m -> (forall a, filesOnly (k a)) -> filesOnly (bind m k).
Proof.
  intros Hm Hk w. unfold bind. specialize (Hm w).
  destruct (m w) as [a w1|msg w1]; simpl in *; [|exact Hm].
  eapply sameButFiles_trans; [exact Hm | apply Hk].
Qed.

Lemma filesOnly_tryCatch {A} (m : M A) handler :
  filesOnly m -> (forall e, filesOnly (handler e)) -> filesOnly (tryCatch m handler).
Proof.
  intros Hm Hh w. unfold tryCatch. specialize (Hm w).
  destruct (m w) as [a w1|msg w1]; simpl in *; [exact Hm|].
  eapply sameButFiles_trans; [exact Hm | apply Hh].
Qed.

Lemma filesOnly_forOf {A} (xs : list A) body :
  (forall x, filesOnly (body x)) -> filesOnly (forOf xs body).
Proof.
  intros Hb. induction xs as [|x xs IH]; simpl; [apply filesOnly_ret|].
  apply filesOnly_bind; [apply Hb | intros _; exact IH].
Qed.

Lemma filesOnly_if {A} (b : bool) (m1 m2 : M A) :
  filesOnly m1 -> filesOnly m2 -> filesOnly (if b then m1 else m2).
Proof. destruct b; auto. Qed.

Lemma filesOnly_existsSync p : filesOnly (existsSync p).
Proof. intros w. apply sameButFiles_refl. Qed.

Lemma filesOnly_mkdirSync p : filesOnly (mkdirSync p).
Proof.
  intros w. unfold mkdirSync. destruct (fs.mkdirp _ _); repeat split.
Qed.

Lemma filesOnly_copyFileSync src dest : filesOnly (copyFileSync src dest).
Proof.
  intros w. unfold copyFileSync.
  destruct (fs.lookup _ _) as [[content|entries]|];
    [destruct (fs.writeFile _ _ _)| |]; repeat split.
Qed.

Lemma filesOnly_readdirSync p : filesOnly (readdirSync p).
Proof.
  intros w. unfold readdirSync. destruct (fs.lookup _ _) as [[|]|]; repeat split.
Qed.

Lemma filesOnly_statSyncIsFile p : filesOnly (statSyncIsFile p).
Proof.
  intros w. unfold statSyncIsFile. destruct (fs.lookup _ _) as [[|]|]; repeat split.
Qed.

Lemma filesOnly_cpSync src dest : filesOnly (cpSync src dest).
Proof.
  intros w. unfold cpSync. destruct (fs.lookup _ _); [|repeat split].
  destruct (fs.copyTree _ _); [|repeat split].
  destruct (fs.place _ _ _); repeat split.
Qed.

Lemma filesOnly_rmSync p : filesOnly (rmSync p).
Proof.
  intros w. unfold rmSync. destruct (fs.lookup _ _); [|repeat split].
  destruct (fs.removeTree _ _ _); repeat split.
Qed.

Lemma filesOnly_rmdirSync p : filesOnly (rmdirSync p).
Proof.
  intros w. unfold rmdirSync.
  destruct (fs.lookup _ _) as [[|[|]]|]; try (repeat split; fail).
  destruct (refuses _ _); repeat split.
Qed.

Lemma filesOnly_copyConfig cwd worktreePath : filesOnly (copyConfig cwd worktreePath).
Proof.
  unfold copyConfig.
  repeat first
    [ apply filesOnly_bind | apply filesOnly_forOf | apply filesOnly_if
    | apply filesOnly_existsSync | apply filesOnly_mkdirSync
    | apply filesOnly_copyFileSync | apply filesOnly_ret | intros ? ].
Qed.

Lemma filesOnly_spawned {A} (m : M A) w :
  filesOnly m -> spawned (worldOf (m w)) = spawned w.
Proof. intros H. apply (H w). Qed.

End FilesOnly.

Section PrepareFacts.
Import JsString Sys SessionWorktree GitView.

Variable childProcess : string -> list string -> option string -> M string.

Local Abbreviation git := (SessionWorktree.git childProcess).
Local Abbreviation prepareSessionWorktree :=
  (SessionWorktree.prepareSessionWorktree childProcess).
Local Abbreviation createSessionWorktree :=
  (SessionWorktree.createSessionWorktree childProcess).
Local Abbreviation clearStalePath := (SessionWorktree.clearStalePath childProcess).
Local Abbreviation checkDiskSpace := (SessionWorktree.checkDiskSpace childProcess).

Lemma createSessionWorktree_result cwd sessionName w c w' :
  createSessionWorktree cwd sessionName w = Returned c w' ->
  c = {| worktreePath := sessionPath cwd sessionName;
         branchName := sessionBranch sessionName |}.
Proof.
  unfold SessionWorktree.createSessionWorktree. intros H.
  repeat (apply bind_returned in H as (? & ? & _ & H)).
  injection H as <- _. reflexivity.
Qed.

(** The listing step of [prepareSessionWorktree]. *)
Lemma listing_step cwd w :
  tryCatch
    (bind (git cwd ["worktree"; "list"; "--porcelain"]) (fun output =>
     bind getProcessCwd (fun processCwd =>
     ret (parseWorktreeList processCwd output))))
    (fun _ => ret []) w
  = Returned (listedWorktrees childProcess cwd w) (afterListing childProcess cwd w).
Proof.
  unfold tryCatch, bind, listedWorktrees, afterListing.
  destruct (git cwd ["worktree"; "list"; "--porcelain"] w); reflexivity.
Qed.

Lemma branchExists_step cwd branchName w :
  branchExists childProcess cwd branchName w
  = Returned (knowsBranch childProcess cwd branchName w)
      (worldOf (showRef childProcess cwd branchName w)).
Proof.
  unfold branchExists, tryCatch, bind, knowsBranch, showRef.
  destruct (SessionWorktree.git _ _ _ w); reflexivity.
Qed.

(** Clearing a stale path: git is asked to remove the worktree; if it
    cannot, the directory is deleted, which may throw, and git is asked to
    prune, whose failure is ignored. *)
Lemma clearStalePath_outcome cwd worktreePath w :
  clearStalePath cwd worktreePath w
  = match fs.lookup (segmentsIn w worktreePath) (root w) with
    | None => Returned tt w
    | Some _ =>
        match git cwd ["worktree"; "remove"; "--force"; worktreePath] w with
        | Returned _ wr => Returned tt wr
        | Thrown _ wr =>
            match rmSync worktreePath wr with
            | Returned _ wd => Returned tt (worldOf (git cwd ["worktree"; "prune"] wd))
            | Thrown message wd => Thrown message wd
            end
        end
    end.
Proof.
  unfold SessionWorktree.clearStalePath, bind at 1, existsSync.
  destruct (fs.lookup (segmentsIn w worktreePath) (root w)); [|reflexivity].
  unfold tryCatch at 1, bind at 1.
  destruct (git cwd ["worktree"; "remove"; "--force"; worktreePath] w) as [out wr|msg wr];
    [reflexivity|].
  unfold bind at 1. destruct (rmSync worktreePath wr) as [[] wd|msg' wd]; [|reflexivity].
  unfold tryCatch, bind.
  destruct (git cwd ["worktree"; "prune"] wd); reflexivity.
Qed.

Lemma git_spawned cwd args w :
  exists ok,
    spawned (worldOf (git cwd args w)) = spawned w ++ [gitCall cwd args ok]
    /\ (ok = true <-> exists out w1, git cwd args w = Returned out w1).
Proof.
  unfold SessionWorktree.git, execFileSync, spawn.
  destruct (childProcess _ _ _ w) as [out w1|msg w1].
  - exists true. split; [reflexivity|]. split; [eauto | reflexivity].
  - exists false. split; [reflexivity|].
    split; [discriminate | intros (? & ? & ?); discriminate].
Qed.

Lemma git_returned_spawned cwd args w out w1 :
  git cwd args w = Returned out w1 ->
  spawned w1 = spawned w ++ [gitCall cwd args true].
Proof.
  unfold SessionWorktree.git, execFileSync, spawn.
  destruct (childProcess _ _ _ w); [|discriminate].
  intros H. injection H as _ <-. reflexivity.
Qed.

(** What [prepareSessionWorktree] does once it has asked git. *)
Lemma prepareSessionWorktree_resume cwd sessionName w :
  let branch := sessionBranch sessionName in
  let wt := sessionPath cwd sessionName in
  let listed := afterListing childProcess cwd w in
  let asked := worldOf (showRef childProcess cwd branch listed) in
  prepareSessionWorktree cwd sessionName true w
  = match checkedOutAt childProcess cwd branch w with
    | Some entry =>
        Returned {| prepared := {| worktreePath := entryPath entry;
                                   branchName := branch |};
                    mode := reused |} listed
    | None =>
        if knowsBranch childProcess cwd branch listed then
          bind (checkDiskSpace cwd) (fun _ =>
          bind (mkdirSync (getWorktreeBaseDir cwd)) (fun _ =>
          bind (clearStalePath cwd wt) (fun _ =>
          bind (git cwd ["worktree"; "add"; wt; branch]) (fun _ =>
          bind (copyConfig cwd wt) (fun _ =>
          ret {| prepared := {| worktreePath := wt; branchName := branch |};
                 mode := attached |}))))) asked
        else
          bind (createSessionWorktree cwd sessionName) (fun c =>
          ret {| prepared := c; mode := created |}) asked
    end.
Proof.
  intros branch wt listed asked.
  unfold SessionWorktree.prepareSessionWorktree.
  rewrite (bind_step _ _ _ _ _ (listing_step cwd w)).
  fold (sessionBranch sessionName). fold branch.
  change (List.find _ (listedWorktrees childProcess cwd w))
    with (checkedOutAt childProcess cwd branch w).
  destruct (checkedOutAt childProcess cwd branch w) as [entry|]; [reflexivity|].
  rewrite (bind_step _ _ _ _ _ (branchExists_step cwd branch _)).
  destruct (knowsBranch childProcess cwd branch _); reflexivity.
Qed.

Lemma prepare_created cwd sessionName w0 r w' :
  bind (createSessionWorktree cwd sessionName) (fun c =>
    ret {| prepared := c; mode := created |}) w0 = Returned r w' ->
  mode r = created
  /\ prepared r = {| worktreePath := sessionPath cwd sessionName;
                     branchName := sessionBranch sessionName |}
  /\ last (spawned w')
     = Some (gitCall cwd ["worktree"; "add"; "-b"; sessionBranch sessionName;
                          sessionPath cwd sessionName; "HEAD"] true).
Proof.
  intros H. apply bind_returned in H as (c & w1 & Hc & H).
  injection H as <- <-. split; [reflexivity|].
  split; [simpl; eapply createSessionWorktree_result, Hc|].
  unfold SessionWorktree.createSessionWorktree in Hc.
  do 5 (apply bind_returned in Hc as (? & ? & _ & Hc)).
  apply bind_returned in Hc as (out & wa & Hadd & Hc).
  apply bind_returned in Hc as ([] & wc & Hcopy & Hc).
  injection Hc as _ <-.
  pose proof (filesOnly_spawned _ wa (filesOnly_copyConfig cwd (sessionPath cwd sessionName)))
    as Hs.
  unfold sessionPath in Hs. rewrite Hcopy in Hs. simpl in Hs. rewrite Hs.
  rewrite (git_returned_spawned _ _ _ _ _ Hadd). apply last_snoc.
Qed.

Lemma prepare_attached cwd sessionName w0 r w' :
  let branch := sessionBranch sessionName in
  let wt := sessionPath cwd sessionName in
  bind (checkDiskSpace cwd) (fun _ =>
  bind (mkdirSync (getWorktreeBaseDir cwd)) (fun _ =>
  bind (clearStalePath cwd wt) (fun _ =>
  bind (git cwd ["worktree"; "add"; wt; branch]) (fun _ =>
  bind (copyConfig cwd wt) (fun _ =>
  ret {| prepared := {| worktreePath := wt; branchName := branch |};
         mode := attached |}))))) w0 = Returned r w' ->
  r = {| prepared := {| worktreePath := wt; branchName := branch |};
         mode := attached |}
  /\ last (spawned w') = Some (gitCall cwd ["worktree"; "add"; wt; branch] true).
Proof.
  intros branch wt H.
  do 3 (apply bind_returned in H as (? & ? & _ & H)).
  apply bind_returned in H as (out & wa & Hadd & H).
  apply bind_returned in H as ([] & wc & Hcopy & H).
  injection H as <- <-. split; [reflexivity|].
  pose proof (filesOnly_spawned _ wa (filesOnly_copyConfig cwd wt)) as Hs.
  rewrite Hcopy in Hs. simpl in Hs. rewrite Hs.
  rewrite (git_returned_spawned _ _ _ _ _ Hadd). apply last_snoc.
Qed.


End PrepareFacts.

Section PrepareScenarios.
Import JsString Sys SessionWorktree GitView GitScenario.

Example parse_porcelain :
  parseWorktreeList "/p/proj" porcelain
  = [ {| entryPath := "/p/proj"; entryBranch := Some "main" |};
      {| entryPath := "/p/.ralph-worktrees/proj/s1";
         entryBranch := Some "ralph-session/s1" |} ].
Proof. vm_compute. reflexivity. Qed.

Example session_path : sessionPath "/p/proj" "s1" = "/p/.ralph-worktrees/proj/s1".
Proof. vm_compute. reflexivity. Qed.


End PrepareScenarios.

(** ** Reading [git worktree list --porcelain] *)

Section ListingFacts.
Import JsString Sys SessionWorktree.

Variable processCwd : string.

Local Abbreviation step := (parseWorktreeLine processCwd).
Local Abbreviation pathOf :=
  (fun line => path.resolve processCwd [trim (sliceFrom 9 line)]).
Local Abbreviation branchOf :=
  (fun line =>
     let ref := trim (sliceFrom 7 line) in
     if startsWith ref "refs/heads/" then sliceFrom 11 ref else ref).
Local Abbreviation pending :=
  (fun current : option WorktreeEntry =>
     match current with Some c => [c] | None => [] end).

Lemma parseWorktreeList_fold output :
  parseWorktreeList processCwd output
  = (let state := fold_left step (split "010"%char output) ([], None) in
     fst state ++ pending (snd state)).
Proof.
  unfold parseWorktreeList.
  destruct (fold_left step (split "010"%char output) ([], None)) as [entries [c|]];
    cbn [fst snd]; [reflexivity | rewrite app_nil_r; reflexivity].
Qed.

Lemma step_paths entries current line :
  map entryPath (fst (step (entries, current) line)
                 ++ pending (snd (step (entries, current) line)))
  = map entryPath (entries ++ pending current)
    ++ (if startsWith line "worktree " then [pathOf line] else []).
Proof.
  unfold parseWorktreeLine.
  destruct (startsWith line "worktree ").
  - cbn [fst snd]; cbv beta iota. rewrite map_app. cbn [map entryPath].
    destruct current as [c|]; cbv beta iota; [reflexivity|].
    rewrite app_nil_r. reflexivity.
  - rewrite app_nil_r. destruct current as [c|]; [|reflexivity].
    destruct (startsWith line "branch "); [|reflexivity].
    cbn [fst snd]; cbv beta iota. rewrite !map_app. reflexivity.
Qed.

Lemma fold_paths lines entries current :
  map entryPath (fst (fold_left step lines (entries, current))
                 ++ pending (snd (fold_left step lines (entries, current))))
  = map entryPath (entries ++ pending current)
    ++ map pathOf (List.filter (fun line => startsWith line "worktree ") lines).
Proof.
  revert entries current. induction lines as [|line lines IH]; intros entries current.
  - cbn. rewrite app_nil_r. reflexivity.
  - cbn [fold_left List.filter].
    pose proof (step_paths entries current line) as Hstep.
    destruct (step (entries, current) line) as [es cur]. cbn [fst snd] in Hstep.
    rewrite IH, Hstep, <- app_assoc.
    destruct (startsWith line "worktree "); reflexivity.
Qed.

(** One entry for each line that starts with [worktree ], in order, with
    the resolved path that follows the keyword; every other line adds no
    entry, and lines before the first such line are ignored. *)
Theorem parseWorktreeList_paths output :
  map entryPath (parseWorktreeList processCwd output)
  = map pathOf
      (List.filter (fun line => startsWith line "worktree ") (split "010"%char output)).
Proof.
  rewrite parseWorktreeList_fold. apply (fold_paths _ [] None).
Qed.

End ListingFacts.

(** ** Copying the configuration into a worktree *)

Section ConfigCopy.
Import JsString Sys SessionWorktree.

Local Abbreviation plainList := (Forall (fun x => path.isPlain x = true)).
Local Abbreviation normal p := (path.normalizeSegments false (split "/"%char p)).

Lemma prefix_snoc_cases {A} (q l : list A) a :
  q `prefix_of` l ++ [a] -> q `prefix_of` l \/ q = l ++ [a].
Proof.
  intros [k E]. destruct k as [|y k].
  - right. rewrite app_nil_r in E. congruence.
  - left. destruct (@exists_last A (y :: k)) as (k' & z & Ek); [discriminate|].
    rewrite Ek, app_assoc in E. apply app_inj_tail in E as [E _].
    exists k'. exact E.
Qed.

(** One configuration file: it is copied if it exists, and nothing but the
    configuration directory of the worktree and that file changes. *)
Lemma copyConfig_step cwd worktreePath name w :
  path.isAbsolute cwd = true -> path.isAbsolute worktreePath = true ->
  path.isPlain name = true ->
  fs.lookup (normal worktreePath) (root w) <> None ->
  let configDir := path.join [cwd; ".ralph-tui"] in
  let targetDir := path.join [worktreePath; ".ralph-tui"] in
  let step :=
    bind (existsSync (path.join [configDir; name])) (fun found =>
      if found then
        bind (mkdirSync targetDir) (fun _ =>
          copyFileSync (path.join [configDir; name]) (path.join [targetDir; name]))
      else ret tt) in
  let w' := worldOf (step w) in
  sameButFiles w w'
  /\ fs.lookup (normal worktreePath) (root w') <> None
  /\ forall q,
       q <> normal worktreePath ++ [".ralph-tui"] ->
       q <> normal worktreePath ++ [".ralph-tui"; name] ->
       fs.stat q (root w') = fs.stat q (root w).
Proof.
  intros Hc Hw Hname Hexists configDir targetDir step w'.
  change (normal worktreePath ++ [".ralph-tui"; name])
    with (normal worktreePath ++ ([".ralph-tui"] ++ [name])).
  rewrite app_assoc.
  set (D := normal worktreePath ++ [".ralph-tui"]).
  assert (HD : plainList D).
  { apply Forall_app. split; [apply normal_plain|]. constructor; [reflexivity|constructor]. }
  assert (Htd : targetDir = path.render D).
  { unfold targetDir. apply join_absolute; [exact Hw | discriminate |].
    constructor; [reflexivity | constructor]. }
  assert (Htf : path.join [targetDir; name] = path.render (D ++ [name])).
  { rewrite Htd. rewrite join_absolute;
      [rewrite split_render by exact HD; reflexivity
      | apply isAbsolute_render | discriminate |].
    constructor; [exact Hname | constructor]. }
  assert (HDn : plainList (D ++ [name])).
  { apply Forall_app. split; [exact HD|]. constructor; [exact Hname | constructor]. }
  assert (Hgoal : forall r,
            (forall q, q <> D -> q <> D ++ [name] -> fs.stat q r = fs.stat q (root w)) ->
            fs.lookup (normal worktreePath) r <> None).
  { intros r Hr. apply stat_exists. rewrite Hr.
    - apply stat_exists, Hexists.
    - unfold D. intros E. apply (f_equal (@length string)) in E.
      rewrite length_app in E. simpl in E. lia.
    - unfold D. intros E. apply (f_equal (@length string)) in E.
      rewrite !length_app in E. simpl in E. lia. }
  assert (Hsame : forall r, sameButFiles w (setRoot r w)) by (intros r; repeat split).
  unfold w', step, bind, existsSync, mkdirSync, copyFileSync, segmentsIn.
  rewrite Htf, Htd.
  destruct (fs.lookup (path.segments (processCwd w) (path.join [configDir; name]))
              (root w)) as [node|];
    [|split; [apply sameButFiles_refl|]; split; [exact Hexists | reflexivity]].
  cbv beta. rewrite (segments_render _ D HD).
  destruct (fs.mkdirp D (root w)) as [r1|] eqn:Hmk;
    [|split; [apply sameButFiles_refl|]; split; [exact Hexists | reflexivity]].
  cbn [processCwd setRoot root]. rewrite (segments_render _ (D ++ [name]) HDn).
  assert (K : forall q, q <> D -> q <> D ++ [name] -> fs.stat q r1 = fs.stat q (root w)).
  { intros q Hq _. destruct (mkdirp_stat _ _ _ Hmk q) as [E|(Hnone & Hpre & _)]; [exact E|].
    exfalso. apply prefix_snoc_cases in Hpre as [[k Hk]|Hpre]; [|contradiction].
    rewrite Hk in Hexists. apply lookup_prefix_exists in Hexists. contradiction. }
  cbn [worldOf root setRoot processCwd].
  destruct (fs.lookup (path.segments (processCwd w) (path.join [configDir; name])) r1)
    as [[content|entries]|];
    try (split; [apply Hsame|]; split; [apply Hgoal, K | exact K]).
  destruct (fs.writeFile (D ++ [name]) content r1) as [r2|] eqn:Hwr;
    cbn [worldOf root setRoot];
    [|split; [apply Hsame|]; split; [apply Hgoal, K | exact K]].
  assert (K2 : forall q, q <> D -> q <> D ++ [name] -> fs.stat q r2 = fs.stat q (root w)).
  { intros q Hq1 Hq2. destruct (writeFile_stat _ _ _ _ Hwr) as [_ Hother].
    rewrite Hother by exact Hq2. apply K; assumption. }
  split; [apply Hsame|]. split; [apply Hgoal, K2 | exact K2].
Qed.

Lemma bind_assoc {A B C} (m : M A) (f : A -> M B) (g : B -> M C) w :
  bind (bind m f) g w = bind m (fun x => bind (f x) g) w.
Proof. unfold bind. destruct (m w); reflexivity. Qed.

(** The world after [m] and then [k] is the world after [m] if it throws and
    the world that [k] leaves otherwise. *)
Lemma bind_world {A B} (m : M A) (k : A -> M B) w (P : World -> Prop) :
  (forall a, P (worldOf (k a (worldOf (m w))))) ->
  P (worldOf (m w)) ->
  P (worldOf (bind m k w)).
Proof.
  unfold bind. destruct (m w) as [a w1|msg w1]; cbn [worldOf]; intros Hk Hm;
    [apply Hk | exact Hm].
Qed.

(** The configuration files that [copyConfig] looks for. *)
Lemma copyConfig_steps cwd worktreePath w :
  let configDir := path.join [cwd; ".ralph-tui"] in
  let targetDir := path.join [worktreePath; ".ralph-tui"] in
  let step name :=
    bind (existsSync (path.join [configDir; name])) (fun found =>
      if found then
        bind (mkdirSync targetDir) (fun _ =>
          copyFileSync (path.join [configDir; name]) (path.join [targetDir; name]))
      else ret tt) in
  copyConfig cwd worktreePath w
  = bind (step "config.toml") (fun _ =>
      bind (step "config.yaml") (fun _ =>
        bind (step "config.yml") (fun _ => ret tt))) w.
Proof.
  intros configDir targetDir step. unfold step. rewrite bind_assoc. reflexivity.
Qed.

(** [copyConfig] changes nothing but files: whatever it finds, and
    whether it returns or throws, every path other than the [.ralph-tui]
    directory of the worktree and the three configuration files in it is
    afterwards what it was, and the worktree directory is still there. *)
Theorem copyConfig_only_config_files cwd worktreePath w :
  path.isAbsolute cwd = true -> path.isAbsolute worktreePath = true ->
  fs.lookup (normal worktreePath) (root w) <> None ->
  let w' := worldOf (copyConfig cwd worktreePath w) in
  sameButFiles w w'
  /\ fs.lookup (normal worktreePath) (root w') <> None
  /\ forall q,
       q <> normal worktreePath ++ [".ralph-tui"] ->
       q <> normal worktreePath ++ [".ralph-tui"; "config.toml"] ->
       q <> normal worktreePath ++ [".ralph-tui"; "config.yaml"] ->
       q <> normal worktreePath ++ [".ralph-tui"; "config.yml"] ->
       fs.stat q (root w') = fs.stat q (root w).
Proof.
  intros Hc Hw Hexists w'. unfold w'. rewrite copyConfig_steps.
  pose (Inv := fun v : World =>
    sameButFiles w v
    /\ fs.lookup (normal worktreePath) (root v) <> None
    /\ forall q,
         q <> normal worktreePath ++ [".ralph-tui"] ->
         q <> normal worktreePath ++ [".ralph-tui"; "config.toml"] ->
         q <> normal worktreePath ++ [".ralph-tui"; "config.yaml"] ->
         q <> normal worktreePath ++ [".ralph-tui"; "config.yml"] ->
         fs.stat q (root v) = fs.stat q (root w)).
  assert (Hstep : forall name v,
            (name = "config.toml" \/ name = "config.yaml" \/ name = "config.yml") ->
            Inv v ->
            Inv (worldOf
              (bind (existsSync (path.join [path.join [cwd; ".ralph-tui"]; name]))
                 (fun found =>
                    if found then
                      bind (mkdirSync (path.join [worktreePath; ".ralph-tui"]))
                        (fun _ =>
                           copyFileSync (path.join [path.join [cwd; ".ralph-tui"]; name])
                             (path.join [path.join [worktreePath; ".ralph-tui"]; name]))
                    else ret tt) v))).
  { intros name v Hname (Hs & He & Hq).
    assert (Hplain : path.isPlain name = true)
      by (destruct Hname as [->|[->| ->]]; reflexivity).
    destruct (copyConfig_step cwd worktreePath name v Hc Hw Hplain He) as (Hs' & He' & Hq').
    split; [exact (sameButFiles_trans _ _ _ Hs Hs')|]. split; [exact He'|].
    intros q H0 H1 H2 H3. rewrite Hq'; [apply Hq; assumption | exact H0 |].
    destruct Hname as [->|[->| ->]]; assumption. }
  assert (H0 : Inv w).
  { split; [apply sameButFiles_refl|]. split; [exact Hexists | reflexivity]. }
  change (Inv (worldOf
    (bind
       (bind (existsSync (path.join [path.join [cwd; ".ralph-tui"]; "config.toml"]))
          (fun found =>
             if found then
               bind (mkdirSync (path.join [worktreePath; ".ralph-tui"]))
                 (fun _ =>
                    copyFileSync (path.join [path.join [cwd; ".ralph-tui"]; "config.toml"])
                      (path.join [path.join [worktreePath; ".ralph-tui"]; "config.toml"]))
             else ret tt))
       (fun _ =>
          bind
            (bind (existsSync (path.join [path.join [cwd; ".ralph-tui"]; "config.yaml"]))
               (fun found =>
                  if found then
                    bind (mkdirSync (path.join [worktreePath; ".ralph-tui"]))
                      (fun _ =>
                         copyFileSync
                           (path.join [path.join [cwd; ".ralph-tui"]; "config.yaml"])
                           (path.join [path.join [worktreePath; ".ralph-tui"]; "config.yaml"]))
                  else ret tt))
            (fun _ =>
               bind
                 (bind
                    (existsSync (path.join [path.join [cwd; ".ralph-tui"]; "config.yml"]))
                    (fun found =>
                       if found then
                         bind (mkdirSync (path.join [worktreePath; ".ralph-tui"]))
                           (fun _ =>
                              copyFileSync
                                (path.join [path.join [cwd; ".ralph-tui"]; "config.yml"])
                                (path.join
                                   [path.join [worktreePath; ".ralph-tui"]; "config.yml"]))
                       else ret tt))
                 (fun _ => ret tt))) w))).
  pose proof (Hstep "config.toml" w (or_introl eq_refl) H0) as H1.
  apply bind_world; [intros _ | exact H1].
  pose proof (Hstep "config.yaml" _ (or_intror (or_introl eq_refl)) H1) as H2.
  apply bind_world; [intros _ | exact H2].
  pose proof (Hstep "config.yml" _ (or_intror (or_intror eq_refl)) H2) as H3.
  apply bind_world; [intros _; exact H3 | exact H3].
Qed.

Lemma copyConfig_only_config_files_witness :
  fs.stat ["p"; "proj"; ".ralph-tui"; "config.toml"]
    (root (worldOf (copyConfig "/p/proj" "/p/wt" ConfigScenario.world)))
  = Some (Some "agent = 'claude'").
Proof.
  destruct (copyConfig_only_config_files "/p/proj" "/p/wt" ConfigScenario.world
              eq_refl eq_refl) as (_ & _ & H).
  - vm_compute. discriminate.
  - rewrite H; [vm_compute; reflexivity | | | |];
      intros E; vm_compute in E; discriminate E.
Defined.

End ConfigCopy.

(** * Merging a session worktree back *)

Section CreatesNothing.
Import JsString Sys SessionWorktree GitView.

Lemma tryCatch_swallow (m : M unit) w :
  tryCatch m (fun _ => ret tt) w = Returned tt (worldOf (m w)).
Proof. unfold tryCatch. destruct (m w) as [[] w1|msg w1]; reflexivity. Qed.

Lemma createsNothing_ret {A} (a : A) : createsNothing (ret a).
Proof. intros w q H. exact H. Qed.

Lemma createsNothing_bind {A B} (m : M A) (k : A -> M B) :
  createsNothing m -> (forall a, createsNothing (k a)) -> createsNothing (bind m k).
Proof.
  intros Hm Hk w q Hq. unfold bind. specialize (Hm w q Hq).
  destruct (m w) as [a w1|msg w1]; simpl in *; [apply Hk, Hm | exact Hm].
Qed.

Lemma createsNothing_tryCatch {A} (m : M A) handler :
  createsNothing m -> (forall e, createsNothing (handler e)) ->
  createsNothing (tryCatch m handler).
Proof.
  intros Hm Hh w q Hq. unfold tryCatch. specialize (Hm w q Hq).
  destruct (m w) as [a w1|msg w1]; simpl in *; [exact Hm | apply Hh, Hm].
Qed.

Lemma createsNothing_if {A} (b : bool) (m1 m2 : M A) :
  createsNothing m1 -> createsNothing m2 -> createsNothing (if b then m1 else m2).
Proof. destruct b; auto. Qed.

Lemma createsNothing_readdirSync p : createsNothing (readdirSync p).
Proof.
  intros w q Hq. unfold readdirSync.
  destruct (fs.lookup (segmentsIn w p) (root w)) as [[|]|]; exact Hq.
Qed.

Lemma createsNothing_rmdirSync p : createsNothing (rmdirSync p).
Proof.
  intros w q Hq. unfold rmdirSync.
  destruct (fs.lookup (segmentsIn w p) (root w)) as [[|[|]]|]; try exact Hq.
  destruct (refuses w (segmentsIn w p)); [exact Hq|].
  apply lookup_remove_none, Hq.
Qed.

Lemma removeEmptyWorktreeDirs_returns cwd w :
  removeEmptyWorktreeDirs cwd w
  = Returned tt (worldOf (removeEmptyWorktreeDirs cwd w)).
Proof.
  unfold removeEmptyWorktreeDirs. rewrite tryCatch_swallow. reflexivity.
Qed.

Lemma removeEmptyWorktreeDirs_filesOnly cwd : filesOnly (removeEmptyWorktreeDirs cwd).
Proof.
  unfold removeEmptyWorktreeDirs.
  repeat first
    [ apply filesOnly_tryCatch | apply filesOnly_bind | apply filesOnly_if
    | apply filesOnly_readdirSync | apply filesOnly_rmdirSync
    | apply filesOnly_ret | intros ? ].
Qed.

Lemma removeEmptyWorktreeDirs_createsNothing cwd :
  createsNothing (removeEmptyWorktreeDirs cwd).
Proof.
  unfold removeEmptyWorktreeDirs.
  repeat first
    [ apply createsNothing_tryCatch | apply createsNothing_bind
    | apply createsNothing_if | apply createsNothing_readdirSync
    | apply createsNothing_rmdirSync | apply createsNothing_ret | intros ? ].
Qed.

End CreatesNothing.

Section MergeFacts.
Import JsString Sys SessionWorktree GitView.

Variable childProcess : string -> list string -> option string -> M string.

Local Abbreviation git := (SessionWorktree.git childProcess).
Local Abbreviation removeSessionWorktree :=
  (SessionWorktree.removeSessionWorktree childProcess).
Local Abbreviation mergeSessionWorktree :=
  (SessionWorktree.mergeSessionWorktree childProcess).

Lemma git_outcome cwd args w :
  (exists out w1,
     childProcess "git" ("-C" :: cwd :: args) None w = Returned out w1
     /\ git cwd args w
        = Returned out (setSpawned (spawned w ++ [gitCall cwd args true]) w1))
  \/ (exists msg w1,
        childProcess "git" ("-C" :: cwd :: args) None w = Thrown msg w1
        /\ git cwd args w
           = Thrown msg (setSpawned (spawned w ++ [gitCall cwd args false]) w1)).
Proof.
  unfold SessionWorktree.git, execFileSync, spawn.
  destruct (childProcess _ _ _ w) as [out w1|msg w1]; [left | right]; eauto.
Qed.

Lemma segmentsIn_absolute p w :
  path.isAbsolute p = true -> segmentsIn w p = path.segments "/" p.
Proof.
  intros Hp. unfold segmentsIn. rewrite !segments_absolute by exact Hp. reflexivity.
Qed.

Lemma bind_thrown {A B} (m : M A) (k : A -> M B) w msg w1 :
  m w = Thrown msg w1 -> bind m k w = Thrown msg w1.
Proof. unfold bind. intros ->. reflexivity. Qed.

(** With [force], the test that guards [rmSync] changes nothing. *)
Lemma guarded_rmSync p w :
  (if match fs.lookup (segmentsIn w p) (root w) with
      | Some _ => true
      | None => false
      end
   then rmSync p else ret tt) w
  = rmSync p w.
Proof.
  unfold rmSync, ret.
  destruct (fs.lookup (segmentsIn w p) (root w)) eqn:E; cbv beta; rewrite ?E;
    reflexivity.
Qed.

(** Where no entry is undeletable, everything but the root can be
    removed. *)
Lemma removable_unpinned p w :
  undeletable w = [] -> segmentsIn w p <> [] -> removable p w = true.
Proof.
  intros Hnone Hne. unfold removable, rmSync.
  destruct (fs.lookup (segmentsIn w p) (root w)) as [node|]; [|reflexivity].
  rewrite removeTree_free; [reflexivity|].
  intros q [k ->]. unfold refuses. rewrite Hnone.
  destruct (segmentsIn w p) as [|x l]; [congruence|]. reflexivity.
Qed.

Lemma rmSync_returned p w w' :
  rmSync p w = Returned tt w' ->
  spawned w' = spawned w
  /\ (segmentsIn w p <> [] -> fs.lookup (segmentsIn w p) (root w') = None).
Proof.
  unfold rmSync. destruct (fs.lookup (segmentsIn w p) (root w)) as [node|] eqn:E.
  - destruct (fs.removeTree _ _ node); intros H; [discriminate H|].
    injection H as <-. split; [reflexivity|].
    intros Hne. apply lookup_remove_eq, Hne.
  - intros H. injection H as <-. split; [reflexivity | intros _; exact E].
Qed.

Lemma rmSync_thrown p w msg w' :
  rmSync p w = Thrown msg w' -> spawned w' = spawned w.
Proof.
  unfold rmSync. destruct (fs.lookup _ _); [|discriminate].
  destruct (fs.removeTree _ _ _); intros H; [|discriminate H].
  injection H as _ <-. reflexivity.
Qed.

(** The first block of [removeSessionWorktree]: the worktree goes, through
    git or by deleting the directory, unless the directory cannot be
    deleted: then the block throws, and git is not asked to prune. *)
Lemma removeWorktree_block cwd worktreePath branchName w :
  let block :=
    tryCatch
      (bind (git cwd ["worktree"; "remove"; "--force"; worktreePath]) (fun _ => ret tt))
      (fun _ =>
         bind (existsSync worktreePath) (fun stale =>
         bind (if stale then rmSync worktreePath else ret tt) (fun _ =>
         tryCatch (bind (git cwd ["worktree"; "prune"]) (fun _ => ret tt))
           (fun _ => ret tt)))) in
  (exists w' removed pruned,
     block w = Returned tt w'
     /\ spawned w'
        = spawned w
          ++ gitCall cwd ["worktree"; "remove"; "--force"; worktreePath] removed
          :: (if removed then [] else [gitCall cwd ["worktree"; "prune"] pruned])
     /\ (removed = true <->
         exists out w1,
           git cwd ["worktree"; "remove"; "--force"; worktreePath] w = Returned out w1)
     /\ cleanupBlocked childProcess cwd worktreePath w = false
     /\ (path.isAbsolute worktreePath = true ->
         path.segments "/" worktreePath <> [] ->
         removesWorktree childProcess cwd worktreePath ->
         keepsRemoved childProcess cwd worktreePath branchName ->
         fs.lookup (path.segments "/" worktreePath) (root w') = None))
  \/ (exists msg w',
        block w = Thrown msg w'
        /\ spawned w'
           = spawned w ++ [gitCall cwd ["worktree"; "remove"; "--force"; worktreePath] false]
        /\ cleanupBlocked childProcess cwd worktreePath w = true).
Proof.
  intros block.
  destruct (git_outcome cwd ["worktree"; "remove"; "--force"; worktreePath] w)
    as [(out & w1 & Hrun & Hgit)|(msg & w1 & Hrun & Hgit)].
  - left. eexists _, true, false.
    split; [unfold block, tryCatch, bind; rewrite Hgit; reflexivity|].
    split; [reflexivity|].
    split; [split; [eauto | reflexivity]|].
    split; [unfold cleanupBlocked; rewrite Hgit; reflexivity|].
    intros Habs _ Hremoves _. cbn [root setSpawned ret].
    rewrite <- (segmentsIn_absolute _ w1 Habs). eapply Hremoves, Hrun.
  - set (w2 := setSpawned
                 (spawned w
                  ++ [gitCall cwd ["worktree"; "remove"; "--force"; worktreePath] false])
                 w1) in *.
    assert (Hblock :
      block w
      = match rmSync worktreePath w2 with
        | Returned _ w3 =>
            Returned tt
              (worldOf (bind (git cwd ["worktree"; "prune"]) (fun _ => ret tt) w3))
        | Thrown message w3 => Thrown message w3
        end).
    { unfold block. unfold tryCatch at 1, bind at 1. rewrite Hgit.
      unfold bind at 1, existsSync. unfold bind at 1. rewrite guarded_rmSync.
      destruct (rmSync worktreePath w2) as [[] w3|msg3 w3]; [|reflexivity].
      apply tryCatch_swallow. }
    assert (Hblocked : cleanupBlocked childProcess cwd worktreePath w
                       = negb (removable worktreePath w2)).
    { unfold cleanupBlocked. rewrite Hgit. reflexivity. }
    rewrite Hblock, Hblocked. unfold removable.
    destruct (rmSync worktreePath w2) as [[] w3|msg3 w3] eqn:Hrm.
    + left. apply rmSync_returned in Hrm as [Hs3 Hgone3].
      unfold bind.
      destruct (git_outcome cwd ["worktree"; "prune"] w3)
        as [(out & w4 & Hprune & ->)|(msg' & w4 & Hprune & ->)];
        [eexists _, false, true | eexists _, false, false];
        (split; [reflexivity|]);
        (split; [cbn [worldOf ret spawned setSpawned]; rewrite Hs3; unfold w2;
                 cbn [spawned setSpawned]; rewrite <- app_assoc; reflexivity|]);
        (split; [split; [discriminate | intros (? & ? & H); rewrite Hgit in H;
                                        discriminate H]|]);
        (split; [reflexivity|]);
        intros Habs Hne _ Hkeeps; cbn [worldOf ret root setSpawned];
        assert (Hgone : fs.lookup (segmentsIn w3 worktreePath) (root w3) = None)
          by (rewrite (segmentsIn_absolute _ w3 Habs);
              rewrite (segmentsIn_absolute _ w2 Habs) in Hgone3;
              apply Hgone3, Hne);
        pose proof (Hkeeps ["worktree"; "prune"] w3 (or_introl eq_refl) Hgone) as Hk;
        cbv zeta in Hk; rewrite Hprune in Hk; cbn [worldOf] in Hk;
        rewrite (segmentsIn_absolute _ w4 Habs) in Hk; exact Hk.
    + right. apply rmSync_thrown in Hrm. eexists _, _.
      split; [reflexivity|]. split; [|reflexivity].
      rewrite Hrm. reflexivity.
Qed.

(** The second block: [git branch -D], whose failure is ignored. *)
Lemma deleteBranch_block cwd worktreePath branchName w :
  exists w' deleted,
    tryCatch (bind (git cwd ["branch"; "-D"; branchName]) (fun _ => ret tt))
      (fun _ => ret tt) w
    = Returned tt w'
    /\ spawned w' = spawned w ++ [gitCall cwd ["branch"; "-D"; branchName] deleted]
    /\ (path.isAbsolute worktreePath = true ->
        keepsRemoved childProcess cwd worktreePath branchName ->
        fs.lookup (path.segments "/" worktreePath) (root w) = None ->
        fs.lookup (path.segments "/" worktreePath) (root w') = None)
    /\ (deletesBranch childProcess cwd branchName -> deleted = true ->
        branchName ∉ branches w').
Proof.
  rewrite tryCatch_swallow. unfold bind.
  destruct (git_outcome cwd ["branch"; "-D"; branchName] w)
    as [(out & w1 & Hrun & ->)|(msg & w1 & Hrun & ->)];
    [eexists _, true | eexists _, false];
    (split; [reflexivity|]); (split; [reflexivity|]);
    cbn [worldOf ret root branches setSpawned]; (split;
      [intros Habs Hkeeps Hgone;
       rewrite <- (segmentsIn_absolute _ w Habs) in Hgone;
       pose proof (Hkeeps ["branch"; "-D"; branchName] w (or_intror eq_refl) Hgone) as Hk;
       cbv zeta in Hk; rewrite Hrun in Hk; cbn [worldOf] in Hk;
       rewrite (segmentsIn_absolute _ w1 Habs) in Hk; exact Hk|]).
  - intros Hdel _. eapply Hdel, Hrun.
  - intros _ Hd. discriminate Hd.
Qed.

(** [removeSessionWorktree]: the three blocks in turn.  A failure of
    [git branch -D] is ignored; a directory that cannot be deleted makes the
    function throw before git is asked to prune or to delete the branch. *)
Lemma removeSessionWorktree_outcome cwd worktreePath branchName w :
  let run := removeSessionWorktree cwd worktreePath branchName w in
  (exists w' removed pruned deleted,
     run = Returned tt w'
     /\ spawned w'
        = spawned w ++ cleanupCalls cwd worktreePath branchName removed pruned deleted
     /\ (removed = true <->
         exists out w1,
           git cwd ["worktree"; "remove"; "--force"; worktreePath] w = Returned out w1)
     /\ cleanupBlocked childProcess cwd worktreePath w = false
     /\ (path.isAbsolute worktreePath = true ->
         path.segments "/" worktreePath <> [] ->
         removesWorktree childProcess cwd worktreePath ->
         keepsRemoved childProcess cwd worktreePath branchName ->
         fs.lookup (path.segments "/" worktreePath) (root w') = None)
     /\ (deletesBranch childProcess cwd branchName -> deleted = true ->
         branchName ∉ branches w'))
  \/ (exists msg w',
        run = Thrown msg w'
        /\ spawned w'
           = spawned w ++ [gitCall cwd ["worktree"; "remove"; "--force"; worktreePath] false]
        /\ cleanupBlocked childProcess cwd worktreePath w = true).
Proof.
  intros run. unfold run, SessionWorktree.removeSessionWorktree.
  destruct (removeWorktree_block cwd worktreePath branchName w)
    as [(wa & removed & pruned & Ha & Hsa & Hremoved & Hfree & Hgone)
       |(msg & wa & Ha & Hsa & Hblocked)]; cbv zeta in Ha.
  - left.
    destruct (deleteBranch_block cwd worktreePath branchName wa)
      as (wb & deleted & Hb & Hsb & Hkeep & Hdel).
    pose proof (removeEmptyWorktreeDirs_returns cwd wb) as Hc.
    pose proof (removeEmptyWorktreeDirs_filesOnly cwd wb) as (_ & Hbr & _ & _ & Hsp & _).
    pose proof (removeEmptyWorktreeDirs_createsNothing cwd wb) as Hcn.
    exists (worldOf (removeEmptyWorktreeDirs cwd wb)), removed, pruned, deleted.
    split; [rewrite (bind_step _ _ _ _ _ Ha), (bind_step _ _ _ _ _ Hb); exact Hc|].
    split; [rewrite Hsp, Hsb, Hsa; unfold cleanupCalls;
            rewrite <- !app_assoc; reflexivity|].
    split; [exact Hremoved|]. split; [exact Hfree|]. split.
    + intros Habs Hne Hremoves Hkeeps. apply Hcn, Hkeep; auto.
    + intros Hdeletes Hd. rewrite Hbr. apply Hdel; assumption.
  - right. exists msg, wa. split; [exact (bind_thrown _ _ _ _ _ Ha)|].
    split; [exact Hsa | exact Hblocked].
Qed.


End MergeFacts.

Section MergeScenarios.
Import JsString Sys SessionWorktree GitView GitScenario.

Example merge_fast_forward :
  let run := mergeSessionWorktree (actingGit []) "/p/proj"
               "/p/.ralph-worktrees/proj/s1" "ralph-session/s1" withWorktree in
  match run with
  | Returned result w' =>
      result = {| success := true;
                  message := "Successfully merged ralph-session/s1 into main" |}
      /\ spawned w'
         = [revParse "/p/proj" true;
            mergeFastForward "/p/proj" "ralph-session/s1" true]
           ++ cleanupCalls "/p/proj" "/p/.ralph-worktrees/proj/s1" "ralph-session/s1"
                true false true
      /\ fs.lookup ["p"; ".ralph-worktrees"] (root w') = None
      /\ bool_decide ("ralph-session/s1" ∈ branches w') = false
  | Thrown _ _ => False
  end.
Proof. vm_compute. repeat split. Qed.

(** A worktree that git refuses to remove and that holds a file the
    operating system refuses to delete: the merge goes through, the
    clean-up throws, and so does [mergeSessionWorktree]; the branch is never
    asked to be deleted. *)
Example merge_then_blocked_cleanup :
  match mergeSessionWorktree lockedGit "/p/proj" "/p/.ralph-worktrees/proj/s1"
          "ralph-session/s1" withPinnedFile with
  | Returned _ _ => False
  | Thrown msg w' =>
      msg = "EACCES: permission denied, rm /p/.ralph-worktrees/proj/s1"
      /\ spawned w'
         = [revParse "/p/proj" true;
            mergeFastForward "/p/proj" "ralph-session/s1" true;
            gitCall "/p/proj"
              ["worktree"; "remove"; "--force"; "/p/.ralph-worktrees/proj/s1"] false]
      /\ fs.lookup ["p"; ".ralph-worktrees"; "proj"; "s1"; "README.md"] (root w')
         = Some (fs.File "work")
  end.
Proof. vm_compute. repeat split. Qed.


Lemma actingGit_removesWorktree cwd worktreePath :
  path.isAbsolute worktreePath = true ->
  path.segments "/" worktreePath <> [] ->
  removesWorktree (actingGit []) cwd worktreePath.
Proof.
  intros Habs Hne w out w' H. unfold actingGit in H. simpl in H.
  injection H as _ <-. cbn [root setRoot].
  rewrite !(segmentsIn_absolute _ _ Habs). apply lookup_remove_eq, Hne.
Qed.

Lemma actingGit_keepsRemoved cwd worktreePath branchName :
  path.isAbsolute worktreePath = true ->
  keepsRemoved (actingGit []) cwd worktreePath branchName.
Proof.
  intros Habs args w [->| ->] Hgone; cbv zeta;
    rewrite (segmentsIn_absolute _ w Habs) in Hgone;
    rewrite (segmentsIn_absolute _ _ Habs); unfold actingGit; simpl.
  - exact Hgone.
  - destruct (bool_decide (branchName ∈ branches w)); exact Hgone.
Qed.

Lemma actingGit_deletesBranch cwd branchName :
  deletesBranch (actingGit []) cwd branchName.
Proof.
  intros w out w' H. unfold actingGit in H. simpl in H.
  destruct (bool_decide (branchName ∈ branches w)); [|congruence].
  assert (Hw : w' = setBranches (branches w ∖ {[branchName]}) w) by congruence.
  subst w'. simpl. intros Hin. apply elem_of_difference in Hin as [_ Hn].
  apply Hn, elem_of_singleton. reflexivity.
Qed.


End MergeScenarios.

(** * Steps of the worktree life cycle *)

Section WorktreeSteps.
Import JsString Sys SessionWorktree GitView.

Variable childProcess : string -> list string -> option string -> M string.

Local Abbreviation git := (SessionWorktree.git childProcess).
Local Abbreviation execFileSync := (SessionWorktree.execFileSync childProcess).

(** [syncBeadsTracker] never throws: it runs [<command> sync --flush-only]
    once, in the project directory, and returns whether the command exited
    normally. *)
Theorem syncBeadsTracker_reports cwd command w :
  exists ok w',
    syncBeadsTracker childProcess cwd command w = Returned ok w'
    /\ spawned w'
       = spawned w ++ [{| program := command; arguments := ["sync"; "--flush-only"];
                          succeeded := ok |}]
    /\ (ok = true <->
        exists out w1,
          childProcess command ["sync"; "--flush-only"] (Some cwd) w = Returned out w1).
Proof.
  unfold syncBeadsTracker, tryCatch, bind, SessionWorktree.execFileSync, spawn.
  destruct (childProcess command _ _ w) as [out w1|msg w1].
  - exists true. eexists. split; [reflexivity|]. split; [reflexivity|].
    split; [eauto | reflexivity].
  - exists false. eexists. split; [reflexivity|]. split; [reflexivity|].
    split; [discriminate | intros (? & ? & ?); discriminate].
Qed.

(** [clearStalePath]: where nothing is at the path it does nothing at all.
    Otherwise it asks git to remove the worktree and, only if git refuses,
    deletes the directory itself and then asks git to prune, ignoring a
    failure of the latter; the directory is then gone when git is asked to
    prune, and stays gone if pruning puts nothing back.  It throws exactly
    when git refuses and the directory cannot be deleted, and git is then
    not asked to prune. *)
Theorem clearStalePath_blocked_or_cleared cwd worktreePath w :
  let run := SessionWorktree.clearStalePath childProcess cwd worktreePath w in
  let w' := worldOf run in
  exists calls,
    spawned w' = spawned w ++ calls
    /\ (fs.lookup (segmentsIn w worktreePath) (root w) = None ->
        run = Returned tt w /\ calls = [])
    /\ (fs.lookup (segmentsIn w worktreePath) (root w) <> None ->
        (calls = [gitCall cwd ["worktree"; "remove"; "--force"; worktreePath] true]
         /\ run = Returned tt w'
         /\ cleanupBlocked childProcess cwd worktreePath w = false)
        \/ (exists pruned,
              calls = [gitCall cwd ["worktree"; "remove"; "--force"; worktreePath] false;
                       gitCall cwd ["worktree"; "prune"] pruned]
              /\ run = Returned tt w'
              /\ cleanupBlocked childProcess cwd worktreePath w = false
              /\ (path.isAbsolute worktreePath = true ->
                  path.segments "/" worktreePath <> [] ->
                  (forall w1,
                     fs.lookup (path.segments "/" worktreePath) (root w1) = None ->
                     fs.lookup (path.segments "/" worktreePath)
                       (root (worldOf (childProcess "git"
                                         ["-C"; cwd; "worktree"; "prune"] None w1)))
                     = None) ->
                  fs.lookup (path.segments "/" worktreePath) (root w') = None))
        \/ (calls = [gitCall cwd ["worktree"; "remove"; "--force"; worktreePath] false]
            /\ (exists msg, run = Thrown msg w')
            /\ cleanupBlocked childProcess cwd worktreePath w = true)).
Proof.
  intros run w'. unfold w', run. rewrite clearStalePath_outcome.
  destruct (fs.lookup (segmentsIn w worktreePath) (root w)) as [node|] eqn:Hstale.
  2: { exists []. rewrite app_nil_r. repeat split; congruence. }
  unfold cleanupBlocked.
  destruct (git_outcome childProcess cwd ["worktree"; "remove"; "--force"; worktreePath] w)
    as [(out & w1 & Hrun & ->)|(msg & w1 & Hrun & ->)].
  - eexists. split; [reflexivity|]. split; [discriminate|]. intros _. left.
    repeat split.
  - set (w2 := setSpawned _ w1). unfold removable.
    destruct (rmSync worktreePath w2) as [[] w3|msg3 w3] eqn:Hrm.
    + apply rmSync_returned in Hrm as [Hs3 Hgone3].
      destruct (git_outcome childProcess cwd ["worktree"; "prune"] w3)
        as [(out & w4 & Hprune & ->)|(msg' & w4 & Hprune & ->)];
        eexists; (split; [cbn [worldOf spawned setSpawned]; rewrite Hs3; unfold w2;
                          cbn [spawned setSpawned]; rewrite <- app_assoc;
                          reflexivity|]);
        (split; [discriminate|]); intros _; right; left; eexists;
        (split; [reflexivity|]); (split; [reflexivity|]); (split; [reflexivity|]);
        intros Habs Hne Hkeeps; cbn [worldOf root setSpawned];
        assert (Hgone : fs.lookup (path.segments "/" worktreePath) (root w3) = None)
          by (rewrite (segmentsIn_absolute _ w2 Habs) in Hgone3; apply Hgone3, Hne);
        specialize (Hkeeps w3 Hgone); rewrite Hprune in Hkeeps; exact Hkeeps.
    + apply rmSync_thrown in Hrm. eexists.
      split; [cbn [worldOf]; rewrite Hrm; unfold w2; cbn [spawned setSpawned];
              reflexivity|].
      split; [discriminate|]. intros _. right. right.
      split; [reflexivity|]. split; [eauto | reflexivity].
Qed.

(** [removeSessionWorktree] throws exactly when the removal is blocked:
    git refuses to remove the worktree and the directory cannot be deleted
    either; nothing else is then asked of git, the branch included.
    Otherwise it returns: it has asked git to remove the worktree, to prune
    only if that failed, and to delete the branch, in this order and
    whatever the outcome of each. *)
Theorem removeSessionWorktree_blocked_or_cleaned cwd worktreePath branchName w :
  let run :=
    SessionWorktree.removeSessionWorktree childProcess cwd worktreePath branchName w in
  let w' := worldOf run in
  if cleanupBlocked childProcess cwd worktreePath w then
    (exists msg, run = Thrown msg w')
    /\ spawned w'
       = spawned w ++ [gitCall cwd ["worktree"; "remove"; "--force"; worktreePath] false]
  else
    run = Returned tt w'
    /\ exists removed pruned deleted,
         spawned w'
         = spawned w
           ++ [gitCall cwd ["worktree"; "remove"; "--force"; worktreePath] removed]
           ++ (if removed then [] else [gitCall cwd ["worktree"; "prune"] pruned])
           ++ [gitCall cwd ["branch"; "-D"; branchName] deleted]
         /\ (removed = true <->
             exists out w1,
               git cwd ["worktree"; "remove"; "--force"; worktreePath] w
               = Returned out w1).
Proof.
  intros run w'. unfold w', run.
  destruct (removeSessionWorktree_outcome childProcess cwd worktreePath branchName w)
    as [(wa & removed & pruned & deleted & Hrun & Hsp & Hremoved & -> & _)
       |(msg & wa & Hrun & Hsp & ->)]; cbv zeta in Hrun; rewrite Hrun; cbn [worldOf].
  - split; [reflexivity|]. exists removed, pruned, deleted.
    split; [exact Hsp | exact Hremoved].
  - split; [eauto | exact Hsp].
Qed.

(** When [createSessionWorktree] returns, the worktree is at
    [{base}/{name}] on branch [ralph-session/{name}], and the last two
    commands it ran are [git branch -D] for that branch, whose outcome is
    ignored, and a successful [git worktree add -b]. *)
Theorem createSessionWorktree_replaces_branch cwd sessionName w c w' :
  SessionWorktree.createSessionWorktree childProcess cwd sessionName w = Returned c w' ->
  c = {| worktreePath := sessionPath cwd sessionName;
         branchName := sessionBranch sessionName |}
  /\ exists earlier deleted,
       spawned w'
       = earlier
         ++ [gitCall cwd ["branch"; "-D"; sessionBranch sessionName] deleted;
             gitCall cwd ["worktree"; "add"; "-b"; sessionBranch sessionName;
                          sessionPath cwd sessionName; "HEAD"] true].
Proof.
  intros Hc. split; [eapply createSessionWorktree_result, Hc|].
  unfold SessionWorktree.createSessionWorktree in Hc.
  do 3 (apply bind_returned in Hc as (? & ? & _ & Hc)).
  apply bind_returned in Hc as (? & wd & _ & Hc).
  apply bind_returned in Hc as ([] & wb & Hdel & Hc).
  apply bind_returned in Hc as (out & wa & Hadd & Hc).
  apply bind_returned in Hc as ([] & wc & Hcopy & Hc).
  injection Hc as _ <-.
  match type of Hdel with tryCatch _ _ ?w0 = _ =>
    destruct (deleteBranch_block childProcess cwd (sessionPath cwd sessionName)
                (sessionBranch sessionName) w0) as (wb' & deleted & Hb & Hsb & _)
  end.
  unfold sessionBranch in Hb. rewrite Hdel in Hb. injection Hb as <-.
  exists (spawned wd), deleted.
  pose proof (filesOnly_spawned _ wa (filesOnly_copyConfig cwd (sessionPath cwd sessionName)))
    as Hs.
  unfold sessionPath in Hs. rewrite Hcopy in Hs. simpl in Hs. rewrite Hs.
  rewrite (git_returned_spawned _ _ _ _ _ _ Hadd), Hsb.
  rewrite <- app_assoc. reflexivity.
Qed.

(** When [statfs] reports a positive amount of free space, [checkDiskSpace]
    decides on it alone: it runs no command, leaves the world as it is, and
    returns exactly when at least 500 MB are free. *)
Theorem checkDiskSpace_statfs_decides cwd w bavail bsize :
  statfs w = Some (bavail, bsize) ->
  0 < bavail * bsize ->
  worldOf (SessionWorktree.checkDiskSpace childProcess cwd w) = w
  /\ (SessionWorktree.checkDiskSpace childProcess cwd w = Returned tt w
      <-> 500 * 1024 * 1024 <= bavail * bsize)
  /\ (bavail * bsize < 500 * 1024 * 1024 ->
      SessionWorktree.checkDiskSpace childProcess cwd w
      = Thrown ("Insufficient disk space for worktree: "
                +:+ ofZ (roundMB (bavail * bsize)) +:+ "MB available, "
                +:+ ofZ (roundMB DEFAULT_MIN_FREE_DISK_SPACE) +:+ "MB required") w).
Proof.
  intros Hstat Hpos.
  unfold SessionWorktree.checkDiskSpace, bind, tryCatch, statfsOf, ret, throw.
  rewrite Hstat. cbn [fst snd].
  destruct (Z.ltb_spec 0 (bavail * bsize)) as [_|Hle]; [|lia].
  unfold DEFAULT_MIN_FREE_DISK_SPACE.
  destruct (Z.ltb_spec (bavail * bsize) (500 * 1024 * 1024)) as [Hlt|Hge];
    cbn [worldOf]; (split; [reflexivity|]); split.
  - split; [discriminate | lia].
  - intros _. reflexivity.
  - split; [intros _; exact Hge | reflexivity].
  - lia.
Qed.

(** [checkDiskSpace] is optimistic: when [statfs] is not available and [df]
    fails, or prints nothing it can read the free space from, it returns;
    [df -k] is the only command it runs. *)
Theorem checkDiskSpace_optimistic cwd w :
  statfs w = None ->
  (forall out w1,
     SessionWorktree.execFileSync childProcess "df" ["-k"; cwd] None w = Returned out w1 ->
     dfAvailable out = None) ->
  exists w' ok,
    SessionWorktree.checkDiskSpace childProcess cwd w = Returned tt w'
    /\ spawned w'
       = spawned w ++ [{| program := "df"; arguments := ["-k"; cwd]; succeeded := ok |}].
Proof.
  intros Hstat Hdf.
  unfold SessionWorktree.checkDiskSpace.
  unfold bind at 1, tryCatch at 1, bind at 1, statfsOf. rewrite Hstat.
  cbn [ret]. unfold bind at 1, tryCatch at 1, bind at 1.
  revert Hdf. unfold SessionWorktree.execFileSync, spawn.
  destruct (childProcess "df" ["-k"; cwd] None w) as [out w1|msg w1]; intros Hdf.
  - rewrite (Hdf _ _ eq_refl). eexists _, true. split; reflexivity.
  - eexists _, false. split; reflexivity.
Qed.

End WorktreeSteps.

Section WorktreeStepScenarios.
Import JsString Sys SessionWorktree GitView GitScenario.

Lemma createSessionWorktree_replaces_branch_witness :
  exists c w',
    createSessionWorktree creatingGit "/p/proj" "s1" (project []) = Returned c w'
    /\ c = {| worktreePath := "/p/.ralph-worktrees/proj/s1";
              branchName := "ralph-session/s1" |}
    /\ last (spawned w')
       = Some (gitCall "/p/proj" ["worktree"; "add"; "-b"; "ralph-session/s1";
                                   "/p/.ralph-worktrees/proj/s1"; "HEAD"] true).
Proof.
  eexists _, _.
  match goal with
  | |- ?A /\ _ => assert (H : A) by (vm_compute; reflexivity); split; [exact H|]
  end.
  destruct (createSessionWorktree_replaces_branch creatingGit "/p/proj" "s1" _ _ _ H)
    as (Hc & earlier & deleted & Hs).
  split; [exact Hc|]. rewrite Hs.
  change [?a; ?b] with ([a] ++ [b]). rewrite app_assoc. apply last_snoc.
Defined.

Lemma checkDiskSpace_statfs_decides_witness :
  checkDiskSpace creatingGit "/p/proj" (project []) = Returned tt (project [])
  /\ exists msg, checkDiskSpace creatingGit "/p/proj" lowDisk = Thrown msg lowDisk.
Proof.
  split.
  - destruct (checkDiskSpace_statfs_decides creatingGit "/p/proj" (project [])
                1000000 4096 eq_refl eq_refl) as (_ & Hiff & _).
    apply Hiff. vm_compute. discriminate.
  - destruct (checkDiskSpace_statfs_decides creatingGit "/p/proj" lowDisk
                10 4096 eq_refl eq_refl) as (_ & _ & Hlow).
    eexists. apply Hlow. reflexivity.
Defined.

Lemma checkDiskSpace_optimistic_witness :
  exists w', checkDiskSpace creatingGit "/p/proj" noStatfs = Returned tt w'.
Proof.
  destruct (checkDiskSpace_optimistic creatingGit "/p/proj" noStatfs eq_refl)
    as (w' & ok & H & _).
  - intros out w1 H. vm_compute in H. discriminate H.
  - exists w'. exact H.
Defined.

Lemma removeSessionWorktree_blocked_or_cleaned_witness :
  (exists msg w',
     removeSessionWorktree lockedGit "/p/proj" "/p/.ralph-worktrees/proj/s1"
       "ralph-session/s1" withPinnedFile = Thrown msg w'
     /\ spawned w'
        = [gitCall "/p/proj"
             ["worktree"; "remove"; "--force"; "/p/.ralph-worktrees/proj/s1"] false])
  /\ (exists w',
        removeSessionWorktree lockedGit "/p/proj" "/p/.ralph-worktrees/proj/s1"
          "ralph-session/s1" withWorktree = Returned tt w').
Proof.
  split.
  - pose proof (removeSessionWorktree_blocked_or_cleaned lockedGit "/p/proj"
                  "/p/.ralph-worktrees/proj/s1" "ralph-session/s1" withPinnedFile) as H.
    cbv zeta in H.
    assert (Hb : cleanupBlocked lockedGit "/p/proj" "/p/.ralph-worktrees/proj/s1"
                   withPinnedFile = true) by (vm_compute; reflexivity).
    rewrite Hb in H. destruct H as ((msg & Hrun) & Hsp).
    exists msg. eexists. split; [exact Hrun | exact Hsp].
  - pose proof (removeSessionWorktree_blocked_or_cleaned lockedGit "/p/proj"
                  "/p/.ralph-worktrees/proj/s1" "ralph-session/s1" withWorktree) as H.
    cbv zeta in H.
    assert (Hb : cleanupBlocked lockedGit "/p/proj" "/p/.ralph-worktrees/proj/s1"
                   withWorktree = false) by (vm_compute; reflexivity).
    rewrite Hb in H. destruct H as (Hrun & _). eexists. exact Hrun.
Defined.

End WorktreeStepScenarios.

(** * The sandbox wrapper *)

Section SetFacts.
Import JsString Sandbox.

Lemma existsb_eqb_In v seen : existsb (String.eqb v) seen = true <-> In v seen.
Proof.
  rewrite existsb_exists. split.
  - intros (x & Hin & E). apply String.eqb_eq in E. subst. exact Hin.
  - intros Hin. exists v. split; [exact Hin | apply String.eqb_refl].
Qed.

Lemma setAdd_In seen values x :
  In x (setAdd seen values) <-> In x seen \/ In x values.
Proof.
  revert seen. induction values as [|v rest IH]; intros seen; simpl; [tauto|].
  destruct (existsb (String.eqb v) seen) eqn:E.
  - rewrite IH. apply existsb_eqb_In in E. split; [tauto|].
    intros [H|[<-|H]]; tauto.
  - rewrite IH, in_app_iff. simpl. tauto.
Qed.

Lemma setAdd_NoDup seen values : List.NoDup seen -> List.NoDup (setAdd seen values).
Proof.
  revert seen. induction values as [|v rest IH]; intros seen Hnd; simpl; [exact Hnd|].
  destruct (existsb (String.eqb v) seen) eqn:E; [apply IH, Hnd|].
  apply IH. apply List.NoDup_app.
  - exact Hnd.
  - constructor; [intros []|constructor].
  - intros x Hx [Ex|[]]. subst x.
    assert (existsb (String.eqb v) seen = true) by (apply existsb_eqb_In, Hx).
    congruence.
Qed.

Lemma setAdd_app seen values : exists added, setAdd seen values = seen ++ added.
Proof.
  revert seen. induction values as [|v rest IH]; intros seen; simpl.
  - exists []. rewrite app_nil_r. reflexivity.
  - destruct (existsb (String.eqb v) seen); [apply IH|].
    destruct (IH (seen ++ [v])) as (added & ->). exists (v :: added).
    rewrite <- app_assoc. reflexivity.
Qed.

Lemma newSet_In values x : In x (newSet values) <-> In x values.
Proof. unfold newSet. rewrite setAdd_In. simpl. tauto. Qed.

Lemma newSet_NoDup values : List.NoDup (newSet values).
Proof. apply setAdd_NoDup. constructor. Qed.

Lemma newSet_head v values : head (newSet (v :: values)) = Some v.
Proof.
  unfold newSet. simpl. destruct (setAdd_app [v] values) as (added & ->). reflexivity.
Qed.

Lemma setDelete_In v set x : In x (setDelete v set) <-> In x set /\ x <> v.
Proof.
  unfold setDelete. rewrite List.filter_In, negb_true_iff, String.eqb_neq. tauto.
Qed.

Lemma deleteAll_In deleted set x :
  In x (fold_left (fun readOnly p => setDelete p readOnly) deleted set)
  <-> In x set /\ ~ In x deleted.
Proof.
  revert set. induction deleted as [|d rest IH]; intros set; simpl; [tauto|].
  rewrite IH, setDelete_In. split.
  - intros [[H1 H2] H3]. split; [exact H1|]. intros [E|H]; [congruence | tauto].
  - intros [H1 H2]. split; [split; [exact H1|]|]; intros E; apply H2; [left|right]; auto.
Qed.

Lemma deleteAll_NoDup deleted set :
  List.NoDup set ->
  List.NoDup (fold_left (fun readOnly p => setDelete p readOnly) deleted set).
Proof.
  revert set. induction deleted as [|d rest IH]; intros set Hnd; simpl; [exact Hnd|].
  apply IH. unfold setDelete. apply List.NoDup_filter, Hnd.
Qed.

Lemma fold_append {A} (f : A -> list string) values init :
  fold_left (fun acc v => acc ++ f v) values init = init ++ flat_map f values.
Proof.
  revert init. induction values as [|v rest IH]; intros init; simpl.
  - rewrite app_nil_r. reflexivity.
  - rewrite IH, <- app_assoc. reflexivity.
Qed.

Lemma fold_append_if {A} (keep : A -> bool) (f : A -> list string) values init :
  fold_left (fun acc v => if keep v then acc ++ f v else acc) values init
  = init ++ flat_map f (List.filter keep values).
Proof.
  revert init. induction values as [|v rest IH]; intros init; simpl.
  - rewrite app_nil_r. reflexivity.
  - destruct (keep v); simpl; rewrite IH; [rewrite <- app_assoc|]; reflexivity.
Qed.

End SetFacts.

Section SandboxFacts.
Import JsString Sandbox.

Variable existsSync : string -> bool.
Variable processCwd : string.

Local Abbreviation normalizePaths := (Sandbox.normalizePaths processCwd).
Local Abbreviation readWriteSet := (Sandbox.readWriteSet processCwd).
Local Abbreviation readOnlySet := (Sandbox.readOnlySet processCwd).
Local Abbreviation wrapWithBwrap := (Sandbox.wrapWithBwrap existsSync processCwd).
Local Abbreviation wrapWithSandboxExec :=
  (Sandbox.wrapWithSandboxExec existsSync processCwd).
Local Abbreviation wrapCommand := (Sandbox.wrapCommand existsSync processCwd).
Local Abbreviation seatbeltLines := (Sandbox.seatbeltLines existsSync processCwd).

Lemma resolveLoop_absolute l acc :
  path.isAbsolute processCwd = true ->
  snd (path.resolveLoop (l ++ [processCwd]) acc) = true.
Proof.
  intros Hp. revert acc. induction l as [|p l IH]; intros acc; simpl.
  - destruct (String.eqb_spec processCwd "") as [E|_];
      [rewrite E in Hp; discriminate Hp|].
    rewrite Hp. reflexivity.
  - destruct (String.eqb p ""); [apply IH|].
    destruct (path.isAbsolute p); [reflexivity | apply IH].
Qed.

Lemma resolve_is_absolute args :
  path.isAbsolute processCwd = true ->
  path.isAbsolute (path.resolve processCwd args) = true.
Proof.
  intros Hp. unfold path.resolve.
  pose proof (resolveLoop_absolute (rev args) "" Hp) as H.
  destruct (path.resolveLoop (rev args ++ [processCwd]) "") as [resolved absolute].
  simpl in H. subst absolute. rewrite slash_append. reflexivity.
Qed.

(** [normalizePaths] drops blank entries, resolves relative ones against
    the working directory, and lists every resulting path once; with an
    absolute [process.cwd()] all of them are absolute. *)
Theorem normalizePaths_normal paths cwd :
  List.NoDup (normalizePaths paths cwd)
  /\ (forall p,
        In p (normalizePaths paths cwd)
        <-> exists raw,
              In raw paths /\ trim raw <> ""
              /\ p = if path.isAbsolute raw then raw
                     else path.resolve processCwd [cwd; raw])
  /\ (path.isAbsolute processCwd = true ->
      forall p, In p (normalizePaths paths cwd) -> path.isAbsolute p = true).
Proof.
  assert (Hin : forall p,
            In p (normalizePaths paths cwd)
            <-> exists raw,
                  In raw paths /\ trim raw <> ""
                  /\ p = if path.isAbsolute raw then raw
                         else path.resolve processCwd [cwd; raw]).
  { intros p. unfold Sandbox.normalizePaths. rewrite newSet_In, in_map_iff. split.
    - intros (raw & <- & Hraw). apply List.filter_In in Hraw as [Hraw Hlen].
      exists raw. split; [exact Hraw|]. split; [|reflexivity].
      destruct (trim raw); [discriminate Hlen | discriminate].
    - intros (raw & Hraw & Hne & ->). exists raw. split; [reflexivity|].
      apply List.filter_In. split; [exact Hraw|].
      destruct (trim raw); [congruence | reflexivity]. }
  split; [apply newSet_NoDup|]. split; [exact Hin|].
  intros Hp p Hpin. apply Hin in Hpin as (raw & _ & _ & ->).
  destruct (path.isAbsolute raw) eqn:E; [exact E | apply resolve_is_absolute, Hp].
Qed.

(** What [wrapWithBwrap] builds: the fixed options, [--unshare-net] when
    the network is switched off, a read-only binding for each system
    directory that exists, a read-write binding for each read-write path,
    a read-only one for each remaining read-only path, and the command. *)
Lemma wrapWithBwrap_args config requirements command args cwd :
  let workDir := path.resolve processCwd [orElse cwd processCwd] in
  Sandbox.args (wrapWithBwrap config requirements command args cwd)
  = ["--die-with-parent"; "--dev"; "/dev"; "--proc"; "/proc"]
    ++ (if bool_decide (network config = Some false) then ["--unshare-net"] else [])
    ++ flat_map (fun dir => ["--ro-bind"; dir; dir])
         (List.filter existsSync LINUX_SYSTEM_DIRS)
    ++ flat_map (fun p => ["--bind"; p; p]) (readWriteSet config workDir)
    ++ flat_map (fun p => ["--ro-bind"; p; p]) (readOnlySet config requirements workDir)
    ++ ["--chdir"; workDir; "--"; command] ++ args.
Proof.
  intros workDir. unfold Sandbox.wrapWithBwrap. fold workDir. cbn [Sandbox.args].
  rewrite !fold_append, fold_append_if.
  destruct (bool_decide (network config = Some false));
    rewrite <- ?app_assoc; reflexivity.
Qed.

Lemma readWriteSet_head config workDir :
  exists others, readWriteSet config workDir = workDir :: others.
Proof.
  pose proof (newSet_head workDir
                (normalizePaths (orElse (allowPaths config) []) workDir)) as H.
  unfold Sandbox.readWriteSet. destruct (newSet _) as [|x others]; [discriminate H|].
  injection H as ->. exists others. reflexivity.
Qed.

Lemma wrapWithBwrap_options config requirements command args cwd :
  exists options,
    Sandbox.args (wrapWithBwrap config requirements command args cwd)
    = options
      ++ ["--chdir"; path.resolve processCwd [orElse cwd processCwd]; "--"; command]
      ++ args.
Proof.
  rewrite wrapWithBwrap_args.
  exists (["--die-with-parent"; "--dev"; "/dev"; "--proc"; "/proc"]
          ++ (if bool_decide (network config = Some false)
              then ["--unshare-net"] else [])
          ++ flat_map (fun dir => ["--ro-bind"; dir; dir])
               (List.filter existsSync LINUX_SYSTEM_DIRS)
          ++ flat_map (fun p => ["--bind"; p; p])
               (readWriteSet config (path.resolve processCwd [orElse cwd processCwd]))
          ++ flat_map (fun p => ["--ro-bind"; p; p])
               (readOnlySet config requirements
                  (path.resolve processCwd [orElse cwd processCwd]))).
  rewrite <- !app_assoc. reflexivity.
Qed.

(** [wrapWithBwrap] runs [bwrap] and hands it the command line untouched
    after [--chdir <workDir> --]; [--unshare-net] is among its leading
    options exactly when the configuration switches the network off. *)
Theorem wrapWithBwrap_command_line config requirements command args cwd :
  let workDir := path.resolve processCwd [orElse cwd processCwd] in
  let wrapped := wrapWithBwrap config requirements command args cwd in
  Sandbox.command wrapped = "bwrap"
  /\ (exists options,
        Sandbox.args wrapped = options ++ ["--chdir"; workDir; "--"; command] ++ args)
  /\ (In "--unshare-net" (firstn 6 (Sandbox.args wrapped))
      <-> network config = Some false).
Proof.
  intros workDir wrapped. split; [reflexivity|]. split.
  - apply wrapWithBwrap_options.
  - unfold wrapped. rewrite wrapWithBwrap_args. fold workDir.
    destruct (readWriteSet_head config workDir) as (others & ->).
    destruct (bool_decide_reflect (network config = Some false)) as [Hnet|Hnet].
    + split; [intros _; exact Hnet|]. intros _. simpl. tauto.
    + split; [|contradiction]. intros Hin. exfalso.
      destruct (List.filter existsSync LINUX_SYSTEM_DIRS) as [|dir dirs]; simpl in Hin;
        repeat (destruct Hin as [Hin|Hin]; [discriminate Hin|]); exact Hin.
Qed.


(** [wrapCommand] never loses the command line: what it returns ends with
    the command and its arguments; nothing is put before them exactly when
    the sandbox is disabled, off, or left on [auto]. *)
Theorem wrapCommand_keeps_command_line config requirements command args cwd :
  let wrapped := wrapCommand config requirements command args cwd in
  exists options,
    Sandbox.command wrapped :: Sandbox.args wrapped = options ++ command :: args
    /\ (options = []
        <-> enabled config = Some false
            \/ mode config = Some off \/ mode config = Some auto \/ mode config = None).
Proof.
  intros wrapped. unfold wrapped, Sandbox.wrapCommand.
  destruct (bool_decide_reflect (enabled config = Some false)) as [Hoff|Hon].
  { exists []. split; [reflexivity|]. split; [intros _; left; exact Hoff | reflexivity]. }
  cbn [orb].
  destruct (mode config) as [[| | |]|] eqn:Hmode; cbn [orElse].
  - exists []. split; [reflexivity|]. split; [tauto | reflexivity].
  - destruct (wrapWithBwrap_options config requirements command args cwd)
      as (options & Hargs).
    assert (Hcmd : Sandbox.command (wrapWithBwrap config requirements command args cwd)
                   = "bwrap") by reflexivity.
    exists (("bwrap" :: options)
            ++ ["--chdir"; path.resolve processCwd [orElse cwd processCwd]; "--"]).
    split.
    + rewrite Hcmd, Hargs. rewrite <- !app_assoc. reflexivity.
    + split; [discriminate|]. intros [H|[H|[H|H]]]; congruence.
  - exists ["sandbox-exec"; "-p";
            generateSeatbeltProfile existsSync processCwd config requirements
              (path.resolve processCwd [orElse cwd processCwd])].
    split; [reflexivity|]. split; [discriminate|].
    intros [H|[H|[H|H]]]; congruence.
  - exists []. split; [reflexivity|]. split; [tauto | reflexivity].
  - exists []. split; [reflexivity|]. split; [tauto | reflexivity].
Qed.

Lemma seatbeltLines_parts config requirements workDir :
  exists systemLines allowedLines readOnlyLines,
    seatbeltLines config requirements workDir
    = ["(version 1)"; "(deny default)"; "";
       "; Allow process execution and signals";
       "(allow process-exec)"; "(allow process-fork)"; "(allow signal)"; "";
       "; Allow basic system operations";
       "(allow sysctl-read)"; "(allow mach-lookup)"; "(allow ipc-posix-shm)"; ""]
      ++ (if negb (bool_decide (network config = Some false))
          then ["; Allow network access"; "(allow network*)"; ""] else [])
      ++ ["; System directories (read-only)"] ++ systemLines
      ++ [""; "; Device and temporary directories";
          "(allow file-read* file-write* (subpath " +:+ quote +:+ "/dev" +:+ quote +:+ "))";
          "(allow file-read* file-write* (subpath " +:+ quote +:+ "/private/tmp" +:+ quote +:+ "))";
          "(allow file-read* file-write* (subpath " +:+ quote +:+ "/tmp" +:+ quote +:+ "))";
          "(allow file-read* file-write* (subpath " +:+ quote +:+ "/var/folders" +:+ quote +:+ "))";
          ""; "; Working directory (read-write)";
          "(allow file-read* file-write* (subpath " +:+ quote +:+ workDir +:+ quote +:+ "))"]
      ++ allowedLines
      ++ [""; "; Read-only paths (auth, runtime, config)"] ++ readOnlyLines
    /\ Forall (fun line => startsWith line "(allow file-read*" = true)
         (systemLines ++ allowedLines ++ readOnlyLines).
Proof.
  unfold Sandbox.seatbeltLines. rewrite !fold_append_if.
  exists (flat_map
            (fun dir => ["(allow file-read* (subpath " +:+ quote +:+ dir +:+ quote +:+ "))"])
            (List.filter existsSync MACOS_SYSTEM_DIRS)),
         (flat_map
            (fun p => ["(allow file-read* file-write* (subpath " +:+ quote +:+ p +:+ quote +:+ "))"])
            (List.filter (fun p => negb (String.eqb p workDir))
               (normalizePaths (orElse (allowPaths config) []) workDir))),
         (flat_map
            (fun p => ["(allow file-read* (subpath " +:+ quote +:+ p +:+ quote +:+ "))"])
            (List.filter existsSync
               (newSet (normalizePaths (orElse (readOnlyPaths config) []) workDir
                        ++ normalizePaths (getRequirementPaths requirements) workDir)))).
  split.
  - destruct (negb (bool_decide (network config = Some false)));
      rewrite <- ?app_assoc; reflexivity.
  - rewrite !Forall_app. repeat split;
      apply List.Forall_forall; intros line Hin;
      apply in_flat_map in Hin as (p & _ & [<-|[]]); reflexivity.
Qed.


End SandboxFacts.

Section SandboxExamples.
Import JsString Sandbox.

Example bwrap_example :
  wrapWithBwrap (String.eqb "/usr") "/work"
    {| enabled := None; mode := Some bwrap; network := Some false;
       allowPaths := Some ["./tmp"; " "; "/data"; "tmp"];
       readOnlyPaths := Some ["/data"; "/ro"] |}
    {| authPaths := ["/ro"]; binaryPaths := ["/bin/agent"]; runtimePaths := [] |}
    "agent" ["--print"] None
  = {| command := "bwrap";
       args := ["--die-with-parent"; "--dev"; "/dev"; "--proc"; "/proc";
                "--unshare-net"; "--ro-bind"; "/usr"; "/usr";
                "--bind"; "/work"; "/work"; "--bind"; "/work/tmp"; "/work/tmp";
                "--bind"; "/data"; "/data";
                "--ro-bind"; "/ro"; "/ro"; "--ro-bind"; "/bin/agent"; "/bin/agent";
                "--chdir"; "/work"; "--"; "agent"; "--print"] |}.
Proof. vm_compute. reflexivity. Qed.

End SandboxExamples.

(** * The name of a session *)

Section SessionNameFacts.
Import JsString SessionName Text.

Example sanitizeBranchSegment_examples :
  sanitizeBranchSegment "my epic: v1..2" = "my-epic-v1.2"
  /\ sanitizeBranchSegment "//feature//auth.lock" = "feature/auth"
  /\ sanitizeBranchSegment "..." = "Li4u"
  /\ sanitizeBranchSegment "" = "session"
  /\ deriveSessionName {| customName := None; epicId := Some "";
                          prdPath := Some "tasks/auth-feature.json";
                          sessionId := "0123456789abcdef" |} = "auth-feature".
Proof. vm_compute. repeat split. Qed.

Lemma all_removeChars_keep p q s :
  all p s = true -> all p (removeChars q s) = true.
Proof.
  induction s as [|c s IH]; intros H; [reflexivity|].
  cbn [all] in H. apply andb_true_iff in H as [Hc Hs]. cbn [removeChars].
  destruct (q c); [apply IH, Hs|]. cbn [all]. rewrite Hc. apply IH, Hs.
Qed.

Lemma all_removeChars q s : all (fun c => negb (q c)) (removeChars q s) = true.
Proof.
  induction s as [|c s IH]; [reflexivity|]. cbn [removeChars].
  destruct (q c) eqn:E; [exact IH|]. cbn [all]. rewrite E. exact IH.
Qed.

Lemma all_dropLeading p q s : all p s = true -> all p (dropLeading q s) = true.
Proof.
  induction s as [|c s IH]; intros H; [reflexivity|]. cbn [dropLeading].
  destruct (q c); [|exact H].
  cbn [all] in H. apply andb_true_iff in H as [_ Hs]. apply IH, Hs.
Qed.

Lemma dropTrailing_cons p c s :
  dropTrailing p (String c s)
  = match dropTrailing p s with
    | EmptyString => if p c then EmptyString else String c EmptyString
    | rest => String c rest
    end.
Proof. reflexivity. Qed.

Lemma all_dropTrailing p q s : all p s = true -> all p (dropTrailing q s) = true.
Proof.
  induction s as [|c s IH]; intros H; [reflexivity|]. rewrite dropTrailing_cons.
  cbn [all] in H. apply andb_true_iff in H as [Hc Hs]. specialize (IH Hs).
  destruct (dropTrailing q s) as [|d t].
  - destruct (q c); [reflexivity|]. cbn [all]. rewrite Hc. reflexivity.
  - change (p c && all p (String d t) = true). rewrite Hc. exact IH.
Qed.

Lemma stripSuffix_cons p c s :
  stripSuffix p (String c s)
  = if String.eqb p (String c s) then Some EmptyString
    else match stripSuffix p s with
         | Some r => Some (String c r)
         | None => None
         end.
Proof. reflexivity. Qed.

Lemma all_stripSuffix p suffix s stem :
  stripSuffix suffix s = Some stem -> all p s = true -> all p stem = true.
Proof.
  revert stem. induction s as [|c s IH]; intros stem H Hall.
  - cbn [stripSuffix] in H. destruct (String.eqb suffix EmptyString); [|discriminate].
    injection H as <-. reflexivity.
  - rewrite stripSuffix_cons in H.
    destruct (String.eqb suffix (String c s)); [injection H as <-; reflexivity|].
    destruct (stripSuffix suffix s) as [r|]; [|discriminate]. injection H as <-.
    cbn [all] in Hall |- *. apply andb_true_iff in Hall as [Hc Hs].
    rewrite Hc. apply (IH r eq_refl Hs).
Qed.

Lemma noRun_tail c a s : noRun c (String a s) = true -> noRun c s = true.
Proof.
  destruct s as [|b s]; [reflexivity|]. rewrite noRun_cons.
  intros H. apply andb_true_iff in H as [_ H]. exact H.
Qed.

Lemma noRun_dropLeading c p s : noRun c s = true -> noRun c (dropLeading p s) = true.
Proof.
  induction s as [|a s IH]; intros H; [reflexivity|]. cbn [dropLeading].
  destruct (p a); [|exact H]. apply IH. apply (noRun_tail _ _ _ H).
Qed.

Lemma noRun_dropTrailing c p s : noRun c s = true -> noRun c (dropTrailing p s) = true.
Proof.
  induction s as [|a s IH]; intros H; [reflexivity|]. rewrite dropTrailing_cons.
  specialize (IH (noRun_tail _ _ _ H)).
  destruct s as [|b s].
  - cbn [dropTrailing]. destruct (p a); reflexivity.
  - rewrite noRun_cons in H. apply andb_true_iff in H as [Hab _].
    rewrite dropTrailing_cons in IH |- *.
    destruct (dropTrailing p s) as [|d t].
    + destruct (p b); [destruct (p a); reflexivity|].
      rewrite noRun_cons, Hab. reflexivity.
    + rewrite noRun_cons, Hab. exact IH.
Qed.

Lemma noRun_stripSuffix c suffix s stem :
  stripSuffix suffix s = Some stem -> noRun c s = true -> noRun c stem = true.
Proof.
  revert stem. induction s as [|a s IH]; intros stem H Hrun.
  - cbn [stripSuffix] in H. destruct (String.eqb suffix EmptyString); [|discriminate].
    injection H as <-. reflexivity.
  - rewrite stripSuffix_cons in H.
    destruct (String.eqb suffix (String a s)); [injection H as <-; reflexivity|].
    destruct (stripSuffix suffix s) as [r|] eqn:Hr; [|discriminate]. injection H as <-.
    specialize (IH r eq_refl (noRun_tail _ _ _ Hrun)).
    destruct s as [|b s].
    + cbn [stripSuffix] in Hr. destruct (String.eqb suffix EmptyString); [|discriminate].
      injection Hr as <-. reflexivity.
    + rewrite noRun_cons in Hrun. apply andb_true_iff in Hrun as [Hab _].
      rewrite stripSuffix_cons in Hr.
      destruct (String.eqb suffix (String b s)); [injection Hr as <-; reflexivity|].
      destruct (stripSuffix suffix s) as [r'|]; [|discriminate]. injection Hr as <-.
      rewrite noRun_cons, Hab. exact IH.
Qed.

(** Collapsing the runs of one character makes no run of another. *)
Lemma noRun_collapseRuns d c s : noRun d s = true -> noRun d (collapseRuns c s) = true.
Proof.
  induction s as [|a s IH]; intros H; [reflexivity|].
  specialize (IH (noRun_tail _ _ _ H)).
  destruct s as [|b s]; [reflexivity|].
  rewrite noRun_cons in H. apply andb_true_iff in H as [Hab _].
  rewrite collapseRuns_cons.
  destruct (Ascii.eqb a c && Ascii.eqb b c); [exact IH|].
  destruct (collapseRuns_head c b s) as (t & Ht). rewrite Ht in IH |- *.
  rewrite noRun_cons, Hab. exact IH.
Qed.

Lemma startsClean_dropLeading s : startsClean (dropLeading isEdgeChar s) = true.
Proof.
  induction s as [|c s IH]; [reflexivity|]. cbn [dropLeading].
  destruct (isEdgeChar c) eqn:E; [exact IH|]. cbn [startsClean]. rewrite E. reflexivity.
Qed.

Lemma startsClean_dropTrailing p s :
  startsClean s = true -> startsClean (dropTrailing p s) = true.
Proof.
  destruct s as [|c s]; intros H; [reflexivity|]. rewrite dropTrailing_cons.
  destruct (dropTrailing p s); [destruct (p c); [reflexivity | exact H] | exact H].
Qed.

Lemma startsClean_stripSuffix suffix s stem :
  stripSuffix suffix s = Some stem -> startsClean s = true -> startsClean stem = true.
Proof.
  destruct s as [|c s]; intros H Hs.
  - cbn [stripSuffix] in H. destruct (String.eqb suffix EmptyString); [|discriminate].
    injection H as <-. reflexivity.
  - rewrite stripSuffix_cons in H.
    destruct (String.eqb suffix (String c s)); [injection H as <-; reflexivity|].
    destruct (stripSuffix suffix s); [|discriminate]. injection H as <-. exact Hs.
Qed.

Lemma alphaNumeric_branchChar c : isAlphaNumeric c = true -> isBranchChar c = true.
Proof.
  destruct c as [[] [] [] [] [] [] [] []]; intros H;
    first [reflexivity | discriminate H].
Qed.

Lemma alphaNumeric_not_edge c : isAlphaNumeric c = true -> isEdgeChar c = false.
Proof.
  destruct c as [[] [] [] [] [] [] [] []]; intros H;
    first [reflexivity | discriminate H].
Qed.

Lemma all_noRun p c s :
  p c = false -> all p s = true -> noRun c s = true.
Proof.
  intros Hc. induction s as [|a s IH]; intros H; [reflexivity|].
  cbn [all] in H. apply andb_true_iff in H as [Ha Hs]. specialize (IH Hs).
  destruct s as [|b s]; [reflexivity|]. rewrite noRun_cons, IH, andb_true_r.
  destruct (Ascii.eqb_spec a c) as [->|_]; [congruence | reflexivity].
Qed.

Lemma all_startsClean s : all isAlphaNumeric s = true -> startsClean s = true.
Proof.
  destruct s as [|c s]; intros H; [reflexivity|].
  cbn [all] in H. apply andb_true_iff in H as [Hc _].
  cbn [startsClean]. rewrite (alphaNumeric_not_edge _ Hc). reflexivity.
Qed.

Lemma sanitizeBranchSegment_parts input :
  let name := sanitizeBranchSegment input in
  truthy name = true
  /\ all isBranchChar name = true
  /\ noRun "."%char name = true
  /\ noRun "/"%char name = true
  /\ startsClean name = true.
Proof.
  cbv zeta. unfold sanitizeBranchSegment.
  set (replaced := replaceOutside (fun c => negb (isInvalidChar c)) "-"%char input).
  set (cleaned := removeChars isControl replaced).
  set (collapsed :=
         collapseRuns "."%char (collapseRuns "-"%char (collapseRuns "/"%char cleaned))).
  set (stripped := dropTrailing isEdgeChar (dropLeading isEdgeChar collapsed)).
  set (unlocked := match stripSuffix ".lock" stripped with
                   | Some stem => stem
                   | None => stripped
                   end).
  set (fallback := sliceTo 8 (removeChars (fun c => negb (isAlphaNumeric c))
                                (base64 (crypto.utf8 input)))).
  assert (Hchars : all isBranchChar collapsed = true).
  { unfold collapsed. do 3 apply all_collapseRuns.
    assert (H1 : all (fun c => negb (isInvalidChar c)) cleaned = true)
      by (apply all_removeChars_keep, all_replaceOutside; reflexivity).
    pose proof (all_removeChars isControl replaced) as H2. fold cleaned in H2.
    clearbody cleaned. clear -H1 H2.
    induction cleaned as [|c s IH]; [reflexivity|]. cbn [all] in *.
    apply andb_true_iff in H1 as [H1 H1'], H2 as [H2 H2'].
    unfold isBranchChar at 1. rewrite H1, H2. apply IH; assumption. }
  assert (Hdots : noRun "."%char collapsed = true) by apply collapseRuns_noRun.
  assert (Hslashes : noRun "/"%char collapsed = true)
    by (unfold collapsed; do 2 apply noRun_collapseRuns; apply collapseRuns_noRun).
  assert (Hstripped : all isBranchChar stripped = true
                      /\ noRun "."%char stripped = true
                      /\ noRun "/"%char stripped = true
                      /\ startsClean stripped = true).
  { unfold stripped. split; [apply all_dropTrailing, all_dropLeading, Hchars|].
    split; [apply noRun_dropTrailing, noRun_dropLeading, Hdots|].
    split; [apply noRun_dropTrailing, noRun_dropLeading, Hslashes|].
    apply startsClean_dropTrailing, startsClean_dropLeading. }
  assert (Hunlocked : all isBranchChar unlocked = true
                      /\ noRun "."%char unlocked = true
                      /\ noRun "/"%char unlocked = true
                      /\ startsClean unlocked = true).
  { unfold unlocked. destruct Hstripped as (H1 & H2 & H3 & H4).
    destruct (stripSuffix ".lock" stripped) as [stem|] eqn:E; [|repeat split; assumption].
    split; [exact (all_stripSuffix _ _ _ _ E H1)|].
    split; [exact (noRun_stripSuffix _ _ _ _ E H2)|].
    split; [exact (noRun_stripSuffix _ _ _ _ E H3)|].
    exact (startsClean_stripSuffix _ _ _ E H4). }
  assert (Hfallback : all isAlphaNumeric fallback = true).
  { unfold fallback. apply all_sliceTo.
    pose proof (all_removeChars (fun c => negb (isAlphaNumeric c))
                  (base64 (crypto.utf8 input))) as H.
    revert H. apply all_impl. intros c Hc. rewrite negb_involutive in Hc. exact Hc. }
  clearbody unlocked fallback.
  destruct (truthy unlocked) eqn:Hu; [split; [exact Hu | exact Hunlocked]|].
  destruct (truthy fallback) eqn:Hf; [|vm_compute; repeat split].
  split; [exact Hf|].
  split; [revert Hfallback; apply all_impl, alphaNumeric_branchChar|].
  split; [exact (all_noRun _ "."%char _ eq_refl Hfallback)|].
  split; [exact (all_noRun _ "/"%char _ eq_refl Hfallback)|].
  apply all_startsClean, Hfallback.
Qed.


Lemma sanitizeBranchSegment_segment input :
  isBranchSegment (sanitizeBranchSegment input) = true.
Proof.
  destruct (sanitizeBranchSegment_parts input) as (H1 & H2 & H3 & H4 & H5).
  unfold isBranchSegment. rewrite H1, H2, H3, H4, H5. reflexivity.
Qed.

(** When a custom name, an epic id or a PRD path is given (and not empty),
    [deriveSessionName] returns a name that is not empty, holds no white
    space, no control character and none of [~ ^ : ? * [ \ @ {], has
    neither two dots nor two slashes in a row, and does not begin with a
    dot, a slash or a dash.  Otherwise it returns the first eight characters
    of the session id as they are. *)
Theorem deriveSessionName_segment options :
  match given (customName options), given (epicId options),
        given (prdPath options) with
  | None, None, None =>
      deriveSessionName options = sliceTo 8 (sessionId options)
  | _, _, _ => isBranchSegment (deriveSessionName options) = true
  end.
Proof.
  unfold deriveSessionName.
  destruct (given (customName options)); [apply sanitizeBranchSegment_segment|].
  destruct (given (epicId options)); [apply sanitizeBranchSegment_segment|].
  destruct (given (prdPath options)); [apply sanitizeBranchSegment_segment|].
  reflexivity.
Qed.

Lemma removeChars_id p s :
  all (fun c => negb (p c)) s = true -> removeChars p s = s.
Proof.
  induction s as [|c s IH]; intros H; [reflexivity|].
  cbn [all] in H. apply andb_true_iff in H as [Hc Hs].
  cbn [removeChars]. apply negb_true_iff in Hc. rewrite Hc, IH by exact Hs.
  reflexivity.
Qed.

Lemma dropLeading_id s : startsClean s = true -> dropLeading isEdgeChar s = s.
Proof.
  destruct s as [|c s]; intros H; [reflexivity|].
  cbn [startsClean] in H. apply negb_true_iff in H.
  cbn [dropLeading]. rewrite H. reflexivity.
Qed.

Lemma endsClean_cons a b s : endsClean (String a (String b s)) = endsClean (String b s).
Proof. reflexivity. Qed.

Lemma dropTrailing_id s : endsClean s = true -> dropTrailing isEdgeChar s = s.
Proof.
  induction s as [|a s IH]; intros H; [reflexivity|].
  destruct s as [|b s].
  - cbn [endsClean] in H. apply negb_true_iff in H.
    cbn [dropTrailing]. rewrite H. reflexivity.
  - rewrite endsClean_cons in H. rewrite dropTrailing_cons, (IH H). reflexivity.
Qed.

(** What [sanitizeBranchSegment] does to a clean name. *)
Lemma sanitizeBranchSegment_clean name :
  isCleanName name = true ->
  sanitizeBranchSegment name
  = match stripSuffix ".lock" name with
    | Some stem =>
        if truthy stem then stem
        else sanitizeBranchSegment name
    | None => name
    end.
Proof.
  unfold isCleanName, isBranchSegment. intros H.
  repeat (apply andb_true_iff in H as [H ?]).
  assert (Hstages :
    dropTrailing isEdgeChar
      (dropLeading isEdgeChar
         (collapseRuns "."%char
            (collapseRuns "-"%char
               (collapseRuns "/"%char
                  (removeChars isControl
                     (replaceOutside (fun c => negb (isInvalidChar c)) "-"%char name))))))
    = name).
  { rewrite replaceOutside_id.
    2:{ match goal with Hc : all isBranchChar name = true |- _ =>
          revert Hc; apply all_impl end.
        intros c Hc. apply andb_true_iff in Hc as [Hc _]. exact Hc. }
    rewrite removeChars_id.
    2:{ match goal with Hc : all isBranchChar name = true |- _ =>
          revert Hc; apply all_impl end.
        intros c Hc. apply andb_true_iff in Hc as [_ Hc]. exact Hc. }
    rewrite (collapseRuns_id "/"%char name) by assumption.
    rewrite (collapseRuns_id "-"%char name) by assumption.
    rewrite (collapseRuns_id "."%char name) by assumption.
    rewrite dropLeading_id by assumption. apply dropTrailing_id. assumption. }
  destruct (stripSuffix ".lock" name) as [stem|] eqn:E.
  - destruct (truthy stem) eqn:Hs; [|reflexivity].
    unfold sanitizeBranchSegment. rewrite Hstages, E, Hs. reflexivity.
  - unfold sanitizeBranchSegment. rewrite Hstages, E, H. reflexivity.
Qed.

(** A clean name that does not end with [.lock] is returned as it is. *)
Theorem sanitizeBranchSegment_keeps_clean name :
  isCleanName name = true -> endsWith name ".lock" = false ->
  sanitizeBranchSegment name = name.
Proof.
  intros Hclean Hlock. rewrite (sanitizeBranchSegment_clean _ Hclean).
  unfold endsWith in Hlock.
  destruct (stripSuffix ".lock" name); [discriminate Hlock | reflexivity].
Qed.

Lemma noRun_lock c stem :
  isEdgeChar c = true -> truthy stem = true -> endsClean stem = true ->
  noRun c stem = true -> noRun c (stem +:+ ".lock") = true.
Proof.
  intros Hc. induction stem as [|a s IH]; intros Ht He Hr; [discriminate Ht|].
  destruct s as [|b s].
  - rewrite append_cons, append_nil_l. cbn [endsClean] in He.
    apply negb_true_iff in He.
    change ".lock" with (String "."%char "lock"). rewrite noRun_cons.
    destruct (Ascii.eqb_spec a c) as [->|_]; [congruence|].
    cbn [andb negb]. clear -Hc.
    destruct c as [[] [] [] [] [] [] [] []]; first [reflexivity | discriminate Hc].
  - rewrite endsClean_cons in He. rewrite noRun_cons in Hr.
    apply andb_true_iff in Hr as [Hab Hr].
    specialize (IH eq_refl He Hr). rewrite append_cons in IH.
    rewrite 2!append_cons. rewrite noRun_cons, Hab. exact IH.
Qed.

Lemma endsClean_lock stem : endsClean (stem +:+ ".lock") = true.
Proof.
  induction stem as [|a s IH]; [reflexivity|].
  rewrite append_cons. destruct (s +:+ ".lock") as [|b t] eqn:E; [|exact IH].
  destruct s; [rewrite append_nil_l in E | rewrite append_cons in E]; discriminate E.
Qed.

(** One trailing [.lock] is removed, and only one: for a clean name [stem],
    the name [stem.lock] becomes [stem], also where [stem] itself ends with
    [.lock]. *)
Theorem sanitizeBranchSegment_strips_one_lock stem :
  isCleanName stem = true ->
  sanitizeBranchSegment (stem +:+ ".lock") = stem.
Proof.
  intros Hclean.
  assert (Hlocked : isCleanName (stem +:+ ".lock") = true).
  { unfold isCleanName, isBranchSegment in Hclean |- *.
    repeat (apply andb_true_iff in Hclean as [Hclean ?]).
    destruct stem as [|a s]; [discriminate Hclean|].
    rewrite all_append, !noRun_lock, endsClean_lock by (assumption || reflexivity).
    rewrite append_cons.
    match goal with Hc : all isBranchChar _ = true |- _ => rewrite Hc end.
    match goal with Hc : startsClean _ = true |- _ => cbn [startsClean] in Hc |- *; rewrite Hc end.
    reflexivity. }
  rewrite (sanitizeBranchSegment_clean _ Hlocked).
  rewrite stripSuffix_append by discriminate.
  unfold isCleanName, isBranchSegment in Hclean.
  repeat (apply andb_true_iff in Hclean as [Hclean ?]). rewrite Hclean. reflexivity.
Qed.

Lemma deriveSessionName_segment_witness :
  isBranchSegment
    (deriveSessionName {| customName := None; epicId := Some "epic: 12";
                          prdPath := None; sessionId := "0123456789abcdef" |})
  = true.
Proof.
  exact (deriveSessionName_segment
           {| customName := None; epicId := Some "epic: 12";
              prdPath := None; sessionId := "0123456789abcdef" |}).
Defined.

Lemma sanitizeBranchSegment_keeps_clean_witness :
  sanitizeBranchSegment "feature/auth-v1.2" = "feature/auth-v1.2".
Proof.
  apply sanitizeBranchSegment_keeps_clean; vm_compute; reflexivity.
Defined.

Lemma sanitizeBranchSegment_strips_one_lock_witness :
  sanitizeBranchSegment "index.lock.lock" = "index.lock".
Proof.
  apply (sanitizeBranchSegment_strips_one_lock "index.lock"). vm_compute. reflexivity.
Defined.

(** The pieces of a string that has no two [c] in a row have none either. *)
Lemma noRun_split c sep s :
  noRun c s = true ->
  Forall (fun x => noRun c x = true) (split sep s)
  /\ forall a, noRun c (String a s) = true ->
       match split sep s with
       | x :: _ => noRun c (String a x) = true
       | [] => True
       end.
Proof.
  induction s as [|b s IH]; intros Hs.
  - split; [repeat constructor | intros a _; reflexivity].
  - destruct (IH (noRun_tail _ _ _ Hs)) as [Hall Hhead].
    cbn [split]. destruct (Ascii.eqb b sep).
    + split; [constructor; [reflexivity | exact Hall] | intros a _; reflexivity].
    + specialize (Hhead b Hs). pose proof (split_nonempty sep s) as Hne.
      destruct (split sep s) as [|x rest].
      * congruence.
      * assert (Hbx : noRun c (String b x) = true) by exact Hhead.
        split.
        -- constructor; [exact Hbx|]. inversion Hall; assumption.
        -- intros a Ha. rewrite noRun_cons in Ha |- *.
           apply andb_true_iff in Ha as [Hab _]. rewrite Hab. exact Hbx.
Qed.

(** A name that [sanitizeBranchSegment] returns has no segment [..]. *)
Lemma branchSegment_climbsNowhere name :
  isBranchSegment name = true -> GitView.climbsNowhere name = true.
Proof.
  unfold isBranchSegment. intros Hname.
  repeat (apply andb_true_iff in Hname as [Hname ?]).
  unfold GitView.climbsNowhere. apply forallb_forall. intros x Hx.
  match goal with
  | Hdots : noRun "."%char name = true |- _ =>
      destruct (noRun_split "."%char "/"%char name Hdots) as [Hall _]
  end.
  rewrite List.Forall_forall in Hall. specialize (Hall x Hx).
  destruct (String.eqb_spec x "..") as [->|_]; [discriminate Hall | reflexivity].
Qed.

End SessionNameFacts.
